(** * Mixtures of hidden Markov models: [hmmlearn/mixhmm.py]

    A shallow embedding of the mixture layer of [mixhmm.py]
    ([_BaseMixHMM] and [MultinomialMixHMM]) together with the
    properties of its scoring, sampling, weight handling and EM loop.

    Conventions of the embedding.

    - A numpy float is a value of [F]: a real number or one of the three
      IEEE special values.  Finite arithmetic is exact (no rounding, no
      overflow); the special values follow IEEE-754 as numpy applies it.
    - A one-dimensional array is a list, a two-dimensional array a list of
      rows.
    - Python exceptions are the [Raise] results of the [res] monad.
    - The single-HMM machinery of [hmm.py] ([_do_forward_pass],
      [_do_backward_pass], [_compute_log_likelihood], [_do_mstep],
      [sample], ...) is not part of this file of the repository: it is a
      parameter of the sections below.
    - A generator is given by its state.  Called with
      [random_state=None], [sample] draws from the generator object held
      in [self.random_state]: the draws advance the state the model
      holds. *)

From Stdlib Require Import String Ascii.
From Stdlib Require Import Reals Lra Lia ZArith Bool List.
From Stdlib Require Import Permutation Sorted Classical_Prop.
Import ListNotations.

Set Implicit Arguments.

(** ** numpy floats *)

Module Float.

Local Open Scope R_scope.

Inductive F : Type :=
| Fin (x : R)
| PosInf
| NegInf
| NaN.

Definition Rltb (a b : R) : bool := if Rlt_dec a b then true else false.
Definition Rleb (a b : R) : bool := if Rle_dec a b then true else false.
Definition Reqb (a b : R) : bool := if Req_dec_T a b then true else false.

Definition fadd (a b : F) : F :=
  match a, b with
  | NaN, _ | _, NaN => NaN
  | PosInf, NegInf | NegInf, PosInf => NaN
  | PosInf, _ | _, PosInf => PosInf
  | NegInf, _ | _, NegInf => NegInf
  | Fin x, Fin y => Fin (x + y)
  end.

Definition fneg (a : F) : F :=
  match a with
  | Fin x => Fin (- x)
  | PosInf => NegInf
  | NegInf => PosInf
  | NaN => NaN
  end.

Definition fsub (a b : F) : F := fadd a (fneg b).

(** An infinity of the sign of [x] times the sign [pos]; [0 * inf] is
    [nan]. *)
Definition inf_times (pos : bool) (x : R) : F :=
  if Reqb x 0 then NaN
  else if Bool.eqb pos (Rltb 0 x) then PosInf else NegInf.

Definition fmul (a b : F) : F :=
  match a, b with
  | NaN, _ | _, NaN => NaN
  | Fin x, Fin y => Fin (x * y)
  | PosInf, Fin y => inf_times true y
  | NegInf, Fin y => inf_times false y
  | Fin x, PosInf => inf_times true x
  | Fin x, NegInf => inf_times false x
  | PosInf, PosInf | NegInf, NegInf => PosInf
  | PosInf, NegInf | NegInf, PosInf => NegInf
  end.

(** Division as numpy performs it on floats: a division by zero yields an
    infinity (or [nan] for [0/0]) instead of raising. *)
Definition fdiv (a b : F) : F :=
  match a, b with
  | NaN, _ | _, NaN => NaN
  | Fin x, Fin y =>
      if Reqb y 0
      then (if Reqb x 0 then NaN else if Rltb 0 x then PosInf else NegInf)
      else Fin (x / y)
  | Fin _, PosInf | Fin _, NegInf => Fin 0
  | PosInf, Fin y => if Rltb y 0 then NegInf else PosInf
  | NegInf, Fin y => if Rltb y 0 then PosInf else NegInf
  | _, _ => NaN
  end.

Definition fexp (a : F) : F :=
  match a with
  | Fin x => Fin (exp x)
  | PosInf => PosInf
  | NegInf => Fin 0
  | NaN => NaN
  end.

Definition flog (a : F) : F :=
  match a with
  | Fin x => if Rltb 0 x then Fin (ln x) else if Reqb x 0 then NegInf else NaN
  | PosInf => PosInf
  | NegInf => NaN
  | NaN => NaN
  end.

Definition fabs (a : F) : F :=
  match a with
  | Fin x => Fin (Rabs x)
  | PosInf | NegInf => PosInf
  | NaN => NaN
  end.

(** [a < b]; every comparison with [nan] is false. *)
Definition fltb (a b : F) : bool :=
  match a, b with
  | NaN, _ | _, NaN => false
  | Fin x, Fin y => Rltb x y
  | NegInf, NegInf => false
  | NegInf, _ => true
  | _, NegInf => false
  | PosInf, _ => false
  | Fin _, PosInf => true
  end.

Definition fgtb (a b : F) : bool := fltb b a.

(** [np.maximum] and [np.minimum] propagate [nan]. *)
Definition fmaximum (a b : F) : F :=
  match a, b with
  | NaN, _ | _, NaN => NaN
  | _, _ => if fltb a b then b else a
  end.

Definition fminimum (a b : F) : F :=
  match a, b with
  | NaN, _ | _, NaN => NaN
  | _, _ => if fltb b a then b else a
  end.

(** Truth value of a float: everything but zero is true. *)
Definition truthy (a : F) : bool :=
  match a with
  | Fin x => negb (Reqb x 0)
  | _ => true
  end.

Definition is_nan (a : F) : bool :=
  match a with NaN => true | _ => false end.

Definition is_fin (a : F) : bool :=
  match a with Fin _ => true | _ => false end.

Definition zero : F := Fin 0.
Definition one : F := Fin 1.

End Float.

Export Float.

(** ** Observation arrays

    An observation sequence is a numpy array.  Only its [dtype.kind] and
    its values matter to the mixture: kind ['i'] arrays hold integers,
    every other kind met by the checks behaves like a float array. *)

Inductive ndarray : Type :=
| IntArray (values : list Z)
| FloatArray (values : list F).

Definition dataset : Type := list ndarray.

(** ** Exceptions *)

(** The text of an exception: the messages [mixhmm.py] builds.  A message
    that formats the dataset into its text ([err_msg % obs]) carries that
    dataset. *)
Inductive message : Type :=
| MsgLength                (* 'component_weights must have length n_components' *)
| MsgSum                   (* 'component_weights must sum to 1.0' *)
| MsgInput (obs : dataset) (* 'Input must be a list of non-negative integer arrays ... but %s was given.' *)
| MsgNumpy.                (* raised inside numpy: operands could not be broadcast, low >= high *)

Inductive exn : Type :=
| ValueError (m : message)
| ShapeError (m : message)
| IndexError
| TypeError
| ZeroDivisionError.

Inductive res (A : Type) : Type :=
| Ok (a : A)
| Raise (e : exn).

Arguments Ok {A} a.
Arguments Raise {A} e.

Definition bind {A B : Type} (m : res A) (k : A -> res B) : res B :=
  match m with
  | Ok a => k a
  | Raise e => Raise e
  end.

Declare Scope res_scope.
Delimit Scope res_scope with res.
Notation "x <- m ;; k" := (bind m (fun x => k))
  (at level 61, m at next level, right associativity) : res_scope.
Notation "' p <- m ;; k" := (bind m (fun p => k))
  (at level 61, p pattern, m at next level, right associativity) : res_scope.

Open Scope res_scope.

(** ** numpy arrays *)

Module NumPy.

Definition vec : Type := list F.
Definition mat : Type := list vec.

Definition zeros (n : nat) : vec := repeat zero n.
Definition zeros2 (r c : nat) : mat := repeat (zeros c) r.
Definition ones (n : nat) : vec := repeat one n.

(** [l[i]] for [0 <= i]: out of range raises [IndexError]. *)
Definition index {A : Type} (l : list A) (i : nat) : res A :=
  match nth_error l i with
  | Some x => Ok x
  | None => Raise IndexError
  end.

(** [l[-1]]. *)
Definition index_last {A : Type} (l : list A) : res A :=
  match rev l with
  | x :: _ => Ok x
  | [] => Raise IndexError
  end.

(** [l[i] = v]. *)
Definition set_item {A : Type} (l : list A) (i : nat) (v : A) : res (list A) :=
  if (i <? length l)%nat
  then Ok (firstn i l ++ v :: skipn (S i) l)
  else Raise IndexError.

Fixpoint map2 {A B C : Type} (f : A -> B -> C) (la : list A) (lb : list B)
  : list C :=
  match la, lb with
  | a :: la', b :: lb' => f a b :: map2 f la' lb'
  | _, _ => []
  end.

Fixpoint mapM {A B : Type} (f : A -> res B) (l : list A) : res (list B) :=
  match l with
  | [] => Ok []
  | a :: l' => b <- f a ;; bs <- mapM f l' ;; Ok (b :: bs)
  end.

Fixpoint mapM2 {A B C : Type} (f : A -> B -> res C) (la : list A)
  (lb : list B) : res (list C) :=
  match la, lb with
  | a :: la', b :: lb' => c <- f a b ;; cs <- mapM2 f la' lb' ;; Ok (c :: cs)
  | _, _ => Ok []
  end.

(** Broadcasting of an operand along one axis to length [n]: an operand of
    that length is used as it is, an operand of length one is repeated,
    anything else makes numpy raise [ValueError]. *)
Definition broadcast_to {A : Type} (n : nat) (b : list A) : res (list A) :=
  if (length b =? n)%nat then Ok b
  else match b with
       | [x] => Ok (repeat x n)
       | _ => Raise (ValueError MsgNumpy)
       end.

(** [a += b] on one-dimensional arrays. *)
Definition iadd (a b : vec) : res vec :=
  b' <- broadcast_to (length a) b ;;
  Ok (map2 fadd a b').

(** [a += b] on two-dimensional arrays. *)
Definition iadd2 (a b : mat) : res mat :=
  b' <- broadcast_to (length a) b ;;
  mapM2 iadd a b'.

(** [a + b] on one-dimensional arrays: either operand may be broadcast. *)
Definition bzip {A B : Type} (f : A -> A -> res B) (a b : list A)
  : res (list B) :=
  if (length a =? length b)%nat then mapM2 f a b
  else match a, b with
       | [x], _ => mapM (f x) b
       | _, [y] => mapM (fun x => f x y) a
       | _, _ => Raise (ValueError MsgNumpy)
       end.

Definition add (a b : vec) : res vec := bzip (fun x y => Ok (fadd x y)) a b.

(** [a + b] on two-dimensional arrays. *)
Definition add2 (a b : mat) : res mat := bzip add a b.

(** [c * a] for a scalar [c]. *)
Definition scale (c : F) (a : vec) : vec := map (fmul c) a.
Definition scale2 (c : F) (a : mat) : mat := map (scale c) a.

(** [a + b], [np.exp(a)], ... elementwise on equal shapes of the caller's
    making. *)
Definition vexp (a : vec) : vec := map fexp a.
Definition vlog (a : vec) : vec := map flog a.

(** [np.sum(a)]. *)
Definition fsum (a : vec) : F := fold_right fadd zero a.

(** [np.cumsum(a)]. *)
Fixpoint cumsum_from (acc : F) (a : vec) : vec :=
  match a with
  | [] => []
  | x :: a' => fadd acc x :: cumsum_from (fadd acc x) a'
  end.

Definition cumsum (a : vec) : vec := cumsum_from zero a.

(** [np.alltrue(a)]. *)
Definition alltrue (a : vec) : bool := forallb truthy a.

(** [np.allclose(s, 1.0)] with numpy's default tolerances
    [rtol = 1e-05], [atol = 1e-08]:
    [|s - 1.0| <= atol + rtol * |1.0|]; an infinity or a [nan] is not
    close to [1.0]. *)
Definition rtol : R := 1e-5.
Definition atol : R := 1e-8.

Definition allclose_one (s : F) : bool :=
  match s with
  | Fin x => Rleb (Rabs (x - 1)) (atol + rtol * Rabs 1)
  | _ => false
  end.

(** [a.argmax()] on floats: the first index holding the maximum; a [nan]
    counts as the maximum, so the first [nan] wins.  [best] is the running
    maximum found at index [bi]; [i] is the index of the head of [a]. *)
Fixpoint argmax_from (bi : nat) (best : F) (i : nat) (a : vec) : nat :=
  match a with
  | [] => bi
  | x :: a' =>
      if is_nan best then bi
      else if is_nan x || fltb best x
           then argmax_from i x (S i) a'
           else argmax_from bi best (S i) a'
  end.

Definition argmax (a : vec) : res nat :=
  match a with
  | [] => Raise (ValueError MsgNumpy)
  | x :: a' => Ok (argmax_from 0 x 1 a')
  end.

(** [a.argmax()] on booleans: the first [True], or [0] when there is
    none. *)
Fixpoint first_true (i : nat) (a : list bool) : option nat :=
  match a with
  | [] => None
  | b :: a' => if b then Some i else first_true (S i) a'
  end.

Definition argmax_bool (a : list bool) : res nat :=
  match a with
  | [] => Raise (ValueError MsgNumpy)
  | _ => Ok (match first_true 0 a with Some i => i | None => 0%nat end)
  end.

(** [np.maximum(a, c)] for a scalar [c]. *)
Definition maximum (a : vec) (c : F) : vec := map (fun x => fmaximum x c) a.
Definition minimum2 (a : mat) (c : F) : mat :=
  map (map (fun x => fminimum x c)) a.

End NumPy.

Export NumPy.

(** ** Log-space helpers

    [logsumexp] comes from [sklearn.utils.extmath]; [normalize],
    [log_normalize] and [randomize] are imported from [hmm.py], which is
    outside this file. *)

Module LogSpaceMath.

(** Modelled from the spec: [logsumexp] of [sklearn.utils.extmath], the
    log-domain summation primitive [log_sum_exp(values, axis)]: the log of
    the sum of the exponentials, [-inf] when every value is [-inf]. *)
Definition logsumexp (a : vec) : F := flog (fsum (vexp a)).

(** Modelled from the spec: the value [normalize] of [hmm.py] returns,
    [normalize(vector, axis) -> probabilities summing to 1].  What a call
    leaves in the array it is given is not said there: the setter of
    [component_weights_], which drops the value returned, takes it as a
    parameter. *)
Definition normalize (a : vec) : vec := map (fun x => fdiv x (fsum a)) a.

(** Modelled from the spec: [log_normalize] of [hmm.py],
    [log_normalize(log_values, axis) -> log-probabilities whose
    exponentials sum to 1]: [log_values - logsumexp(log_values)]; a pure
    function. *)
Definition log_normalize (a : vec) : vec :=
  map (fun x => fsub x (logsumexp a)) a.

End LogSpaceMath.

Export LogSpaceMath.

(** ** The input check of [MultinomialMixHMM] *)

Definition to_float (z : Z) : F := Fin (IZR z).

(** [np.concatenate([x, y])]: two integer arrays give an integer array,
    anything else is promoted to floats. *)
Definition concatenate (x y : ndarray) : ndarray :=
  match x, y with
  | IntArray a, IntArray b => IntArray (a ++ b)
  | IntArray a, FloatArray b => FloatArray (map to_float a ++ b)
  | FloatArray a, IntArray b => FloatArray (a ++ map to_float b)
  | FloatArray a, FloatArray b => FloatArray (a ++ b)
  end.

(** [reduce(lambda x, y: np.concatenate([x, y]), obs)]: an empty list has
    nothing to start from, and a list of one array reduces to that very
    array. *)
Definition reduce_concatenate (obs : dataset) : res ndarray :=
  match obs with
  | [] => Raise TypeError
  | x :: obs' => Ok (fold_left concatenate obs' x)
  end.

(** [symbols.sort()]. *)
Fixpoint insert (x : Z) (l : list Z) : list Z :=
  match l with
  | [] => [x]
  | y :: l' => if (x <=? y)%Z then x :: l else y :: insert x l'
  end.

Fixpoint sort (l : list Z) : list Z :=
  match l with
  | [] => []
  | x :: l' => insert x (sort l')
  end.

(** [np.diff(symbols)]. *)
Fixpoint diff (l : list Z) : list Z :=
  match l with
  | x :: (y :: _) as l' => (y - x)%Z :: diff l'
  | _ => []
  end.

(** [MultinomialMixHMM._check_input_symbols]: its answer, and the dataset
    as the call leaves it.  [symbols.sort()] sorts in place: when [obs]
    holds one array, [symbols] is that array and [obs] is sorted with
    it. *)
Definition _check_input_symbols (obs : dataset) : res (bool * dataset) :=
  (symbols <- reduce_concatenate obs ;;
   match symbols with
   | FloatArray _ => Ok (false, obs)
   | IntArray symbols =>
       if (length symbols =? 1)%nat then Ok (false, obs)
       else if existsb (fun x => (x <? 0)%Z) symbols then Ok (false, obs)
       else
         let symbols := sort symbols in
         let obs := match obs with
                    | [_] => [IntArray symbols]
                    | _ => obs
                    end in
         if existsb (fun d => (1 <? d)%Z) (diff symbols)
         then Ok (false, obs)
         else Ok (true, obs)
   end)%res.

(** ** The input checks of [PoissonMixHMM] and [ExponentialMixHMM] *)

(** [PoissonMixHMM._check_input_symbols]: the check of the multinomial
    family without its last test; nothing is sorted, the dataset is left
    as it was. *)
Definition Poisson_check_input_symbols (obs : dataset) : res bool :=
  (symbols <- reduce_concatenate obs ;;
   match symbols with
   | FloatArray _ => Ok false
   | IntArray symbols =>
       if (length symbols =? 1)%nat then Ok false
       else if existsb (fun x => (x <? 0)%Z) symbols then Ok false
       else Ok true
   end)%res.

(** [ExponentialMixHMM._check_input_symbols] on a dataset of integer and
    float arrays, the two kinds its first test lets through. *)
Definition Exponential_check_input_symbols (obs : dataset) : res bool :=
  (symbols <- reduce_concatenate obs ;;
   match symbols with
   | IntArray symbols =>
       if (length symbols =? 1)%nat then Ok false
       else if existsb (fun x => (x <? 0)%Z) symbols then Ok false
       else Ok true
   | FloatArray symbols =>
       if (length symbols =? 1)%nat then Ok false
       else if existsb (fun x => fltb x zero) symbols then Ok false
       else Ok true
   end)%res.

(** ** The mixture model *)

(** [random_state]: [None], an integer seed, the process-wide generator of
    [np.random] (what [check_random_state(None)] returns), or a generator
    of the caller's own, given by its state. *)
Inductive random_state_of (RandomState : Type) : Type :=
| RsNone
| RsSeed (seed : Z)
| RsGlobal
| RsOwn (g : RandomState).

Arguments RsNone {RandomState}.
Arguments RsSeed {RandomState} seed.
Arguments RsGlobal {RandomState}.

(** The attributes of a [_BaseMixHMM] instance; [emissionprob_prior] is
    the one attribute [MultinomialMixHMM] adds. *)
Inductive prior_value : Type :=
| PriorScalar (x : F)
| PriorArray (v : vec).

Record MixHMM_of (HMM RandomState EmissionPrior : Type) : Type := mkMixHMM {
  n_components : nat;
  n_states : nat;
  hmms : option (list HMM);
  n_iter : nat;
  thresh : F;
  params : string;
  init_params : string;
  log_component_weights : vec;          (* _log_component_weights *)
  component_weights_prior : option prior_value;
  random_state : random_state_of RandomState;
  verbose : nat;
  emissionprob_prior : EmissionPrior
}.

(** The state a method call works on: the instance and the process-wide
    generator of [np.random]. *)
Record world_of (HMM RandomState EmissionPrior : Type) : Type := mkWorld {
  self : MixHMM_of HMM RandomState EmissionPrior;
  np_random : RandomState
}.

(** The statistics one component HMM keeps for its M-step: the entries of
    the dictionary [hmm._initialize_sufficient_statistics()] returns that
    the mixture updates. *)
Record HmmStats : Type := mkHmmStats {
  hs_start : vec;                       (* ['start'] *)
  hs_trans : mat;                       (* ['trans'] *)
  hs_obs : mat                          (* ['obs'] *)
}.

(** The outer statistics of one EM iteration. *)
Record Stats : Type := mkStats {
  stats_component_weights : vec;        (* ['component_weights'] *)
  stats_hmm_stats : list HmmStats       (* ['hmm_stats'] *)
}.

(** The inner statistics of one sequence, one entry per component;
    ['obs'] is the key [MultinomialMixHMM] adds (empty in the base
    class). *)
Record InnerStats : Type := mkInnerStats {
  inner_component_weights : vec;        (* ['component_weights'] *)
  inner_start : list vec;               (* ['start'] *)
  inner_trans : list mat;               (* ['trans'] *)
  inner_obs : list mat                  (* ['obs'] *)
}.

(** ['c' in s] for a one-character string. *)
Fixpoint char_in (c : ascii) (s : string) : bool :=
  match s with
  | EmptyString => false
  | String d s' => Ascii.eqb c d || char_in c s'
  end.

(** [string.ascii_letters], the default of [params] and [init_params]. *)
Definition ascii_letters : string :=
  "abcdefghijklmnopqrstuvwxyzABCDEFGHIJKLMNOPQRSTUVWXYZ"%string.

(** State of a method call: the instance and the generator behind the
    module-level functions of [np.random].  A raised exception leaves the
    state as it was when it was raised. *)
Definition M (S A : Type) : Type := S -> res A * S.

Definition ret {S A : Type} (a : A) : M S A := fun s => (Ok a, s).

Definition throw {S A : Type} (e : exn) : M S A := fun s => (Raise e, s).

Definition bindM {S A B : Type} (m : M S A) (k : A -> M S B) : M S B :=
  fun s =>
    match m s with
    | (Ok a, s') => k a s'
    | (Raise e, s') => (Raise e, s')
    end.

Definition lift {S A : Type} (r : res A) : M S A := fun s => (r, s).

Declare Scope M_scope.
Delimit Scope M_scope with M.
Notation "x <~ m ;; k" := (bindM m (fun x => k))
  (at level 61, m at next level, right associativity) : M_scope.
Notation "' p <~ m ;; k" := (bindM m (fun p => k))
  (at level 61, p pattern, m at next level, right associativity) : M_scope.
Notation "m ;;; k" := (bindM m (fun _ => k))
  (at level 61, right associativity) : M_scope.

(** ** Concrete instances

    The examples below run the definitions on small instances: a
    component HMM with no parameters of its own, generators given by an
    integer state. *)

Definition example_mix (K : nat) (hs : option (list unit)) (lw : vec)
  : MixHMM_of unit Z unit :=
  mkMixHMM K 1 hs 10 (Fin 1e-2) ascii_letters ascii_letters lw
    (Some (PriorArray (ones K))) RsNone 0 tt.

(** Two components of equal weight. *)
Definition two_components : world_of unit Z unit :=
  mkWorld (example_mix 2 (Some [tt; tt]) [Fin (- ln 2); Fin (- ln 2)]) 0%Z.

(** Two components of equal weight under the prior [[2, 3]]. *)
Definition two_components_prior : world_of unit Z unit :=
  mkWorld (mkMixHMM 2 1 (Some [tt; tt]) 10 (Fin 1e-2) ascii_letters
             ascii_letters [Fin (- ln 2); Fin (- ln 2)]
             (Some (PriorArray [Fin 2; Fin 3])) RsNone 0 tt) 0%Z.

(** A [randomize] that leaves its argument as it is. *)
Definition example_randomize (v : vec) (g : Z) : vec * Z := (v, g).

(** A [normalize] that divides the entries of its argument, in place, by
    their sum. *)
Definition example_normalize_in_place (a : vec) (i : nat) : F :=
  fdiv (nth i a NaN) (fsum a).

(** A component HMM that keeps no parameters. *)
Definition example_hmm_params (h : unit) : string := ascii_letters.
Definition example_hmm_do_mstep (h : unit) (st : HmmStats) (params : string)
  : unit := h.

(** Outer statistics of a two-component model after some sequences. *)
Definition example_stats : Stats :=
  mkStats [Fin 3; Fin 1] [mkHmmStats [] [] []; mkHmmStats [] [] []].

(** The tables of the example HMM: one state, every frame of log
    likelihood [0.0]; both lattices repeat the table, the sequence has
    log-likelihood [0.0]. *)
Definition example_length (seq : ndarray) : nat :=
  match seq with
  | IntArray values => length values
  | FloatArray values => length values
  end.

Definition example_compute_log_likelihood (h : unit) (seq : ndarray) : mat :=
  repeat [Fin 0] (example_length seq).

Definition example_do_forward_pass (h : unit) (framelogprob : mat)
  : F * mat := (Fin 0, framelogprob).

Definition example_do_backward_pass (h : unit) (framelogprob : mat) : mat :=
  framelogprob.

(** One component of weight one. *)
Definition one_component : world_of unit Z unit :=
  mkWorld (example_mix 1 (Some [tt]) [Fin 0]) 0%Z.

(** One component of weight one, on a model that holds a generator of
    its own, in state [5]. *)
Definition holding_a_generator : world_of unit Z unit :=
  mkWorld (mkMixHMM 1 1 (Some [tt]) 10 (Fin 1e-2) ascii_letters
             ascii_letters [Fin 0] (Some (PriorArray (ones 1)))
             (RsOwn 5%Z) 0 tt) 0%Z.

Definition example_dataset : dataset := [IntArray [0%Z; 1%Z]; IntArray [1%Z]].

(** Generators given by a counter: a draw returns a value read off the
    counter and advances it. *)
Definition example_seeded (seed : Z) : Z := seed.

Definition example_rand (g : Z) : F * Z := (Fin 0.5, (g + 1)%Z).

Definition example_randint (low high : Z) (g : Z) : Z * Z :=
  ((low + g mod (high - low))%Z, (g + 1)%Z).

(** The example HMM samples [n] times the symbol [0], from state [0]. *)
Definition example_hmm_sample (h : unit) (n : Z) (g : Z)
  : (ndarray * list Z) * Z :=
  ((IntArray (repeat 0%Z (Z.to_nat n)), repeat 0%Z (Z.to_nat n)),
   (g + 1)%Z).

Definition example_n_states (h : unit) : nat := 1.
Definition example_n_symbols (h : unit) : nat := 2.
Definition example_log_transmat (h : unit) : mat := [[Fin 0]].
Definition example_initialize_sufficient_statistics (h : unit) : HmmStats :=
  mkHmmStats [Fin 0] [[Fin 0]] [[Fin 0; Fin 0]].
Definition example_dirichlet (alpha : vec) (g : Z) : vec * Z :=
  (normalize alpha, (g + 1)%Z).
Definition example_hmm_init (h : unit) (obs : dataset) (g : Z) : unit * Z :=
  (h, (g + 1)%Z).
Definition example_MultinomialHMM (n_states : nat) (prior : unit) : unit :=
  tt.

(** One component, and nothing to initialize or to maximize:
    [params = ''] and [init_params = '']. *)
Definition frozen_component : world_of unit Z unit :=
  mkWorld (mkMixHMM 1 1 (Some [tt]) 10 (Fin 1e-2) "" "" [Fin 0]
             (Some (PriorArray (ones 1))) RsNone 0 tt) 0%Z.

(** The inner statistics of the one-component model before a sequence. *)
Definition example_inner_stats : InnerStats :=
  mkInnerStats [Fin 0] [[Fin 0]] [[[Fin 0]]] [].

(** One frozen component and no iteration to run: [n_iter = 0]. *)
Definition no_iterations : world_of unit Z unit :=
  mkWorld (mkMixHMM 1 1 (Some [tt]) 0 (Fin 1e-2) "" "" [Fin 0]
             (Some (PriorArray (ones 1))) RsNone 0 tt) 0%Z.

(** Two components that have no HMMs yet; only the HMMs are to be
    initialized and estimated: [params = 'h'] and [init_params = 'h']. *)
Definition without_hmms : world_of unit Z unit :=
  mkWorld (mkMixHMM 2 1 None 10 (Fin 1e-2) "h" "h"
             [Fin (- ln 2); Fin (- ln 2)]
             (Some (PriorArray (ones 2))) (RsSeed 7%Z) 0 tt) 0%Z.

(** Statistics of the two-component model with an entry for each of its
    HMMs. *)
Definition example_hmm_stats : Stats :=
  mkStats [Fin 3; Fin 1]
    [mkHmmStats [Fin 1] [[Fin 0]] [[Fin 1; Fin 0]];
     mkHmmStats [Fin 2] [[Fin 0]] [[Fin 0; Fin 2]]].

(** A component HMM given by a counter: its M-step advances the counter
    by one and by the number of rows of its ['obs'] statistics. *)
Definition counting_do_mstep (h : nat) (st : HmmStats) (params : string)
  : nat := S h + length (hs_obs st).
Definition counting_params (h : nat) : string := "ste"%string.

(** One frozen component, two iterations and a threshold of zero. *)
Definition no_threshold : world_of unit Z unit :=
  mkWorld (mkMixHMM 1 1 (Some [tt]) 2 (Fin 0) "" "" [Fin 0]
             (Some (PriorArray (ones 1))) RsNone 0 tt) 0%Z.

Section Mixture.

(** *** Collaborators *)

(** One component HMM ([hmm.py]) and what the mixture calls on it. *)
Variable HMM : Type.
Variable EmissionPrior : Type.
Variable hmm_n_states : HMM -> nat.                      (* hmm.n_states *)
Variable hmm_n_symbols : HMM -> nat.                     (* hmm.n_symbols *)
Variable hmm_params : HMM -> string.                     (* hmm.params *)
Variable hmm_log_transmat : HMM -> mat.                  (* hmm._log_transmat *)
Variable hmm_compute_log_likelihood : HMM -> ndarray -> mat.
Variable hmm_do_forward_pass : HMM -> mat -> F * mat.
Variable hmm_do_backward_pass : HMM -> mat -> mat.
Variable hmm_initialize_sufficient_statistics : HMM -> HmmStats.
Variable hmm_do_mstep : HMM -> HmmStats -> string -> HMM.
Variable MultinomialHMM : nat -> EmissionPrior -> HMM.   (* the constructor *)

(** A random generator ([np.random.RandomState]), given by its state, and
    the draws made from one. *)
Variable RandomState : Type.
Variable seeded : Z -> RandomState.                      (* RandomState(seed) *)
Variable rand : RandomState -> F * RandomState.
Variable randint : Z -> Z -> RandomState -> Z * RandomState.
Variable dirichlet : vec -> RandomState -> vec * RandomState.
Variable randomize : vec -> RandomState -> vec * RandomState.
(** The call [normalize(a)] of [hmm.py] as a statement, its result
    dropped: what the call leaves in the array [a] it is given.  An array
    keeps its shape; [normalize_in_place a i] is the entry [a[i]] after
    the call. *)
Variable normalize_in_place : vec -> nat -> F.
Variable hmm_init : HMM -> dataset -> RandomState -> HMM * RandomState.
Variable hmm_sample :
  HMM -> Z -> RandomState -> (ndarray * list Z) * RandomState.

Local Notation "'MixHMM'" := (MixHMM_of HMM RandomState EmissionPrior).
Local Notation "'random_state_t'" := (random_state_of RandomState).
Local Notation "'world'" := (world_of HMM RandomState EmissionPrior).

Definition with_log_component_weights (m : MixHMM) (v : vec) : MixHMM :=
  mkMixHMM (n_components m) (n_states m) (hmms m) (n_iter m) (thresh m)
    (params m) (init_params m) v (component_weights_prior m)
    (random_state m) (verbose m) (emissionprob_prior m).

Definition with_hmms (m : MixHMM) (hs : option (list HMM)) : MixHMM :=
  mkMixHMM (n_components m) (n_states m) hs (n_iter m) (thresh m)
    (params m) (init_params m) (log_component_weights m)
    (component_weights_prior m) (random_state m) (verbose m)
    (emissionprob_prior m).

Definition with_component_weights_prior (m : MixHMM)
  (p : option prior_value) : MixHMM :=
  mkMixHMM (n_components m) (n_states m) (hmms m) (n_iter m) (thresh m)
    (params m) (init_params m) (log_component_weights m) p
    (random_state m) (verbose m) (emissionprob_prior m).

Definition with_random_state (m : MixHMM) (r : random_state_t) : MixHMM :=
  mkMixHMM (n_components m) (n_states m) (hmms m) (n_iter m) (thresh m)
    (params m) (init_params m) (log_component_weights m)
    (component_weights_prior m) r (verbose m) (emissionprob_prior m).

Definition get_self : M world MixHMM := fun w => (Ok (self w), w).

Definition put_self (m : MixHMM) : M world unit :=
  fun w => (Ok tt, mkWorld m (np_random w)).

(** A draw from the process-wide generator. *)
Definition np_random_draw {A : Type}
  (draw : RandomState -> A * RandomState) : M world A :=
  fun w => let '(a, g) := draw (np_random w) in (Ok a, mkWorld (self w) g).

Open Scope M_scope.

(** *** The [component_weights_] property *)

Definition _get_component_weights (m : MixHMM) : vec :=
  vexp (log_component_weights m).

(** The array [a] after the statement [normalize(a)]. *)
Definition normalized_in_place (a : vec) : vec :=
  map (normalize_in_place a) (seq 0 (length a)).

(** [if not np.alltrue(component_weights): normalize(component_weights)]:
    the array as the test leaves it. *)
Definition after_zero_test (component_weights : vec) : vec :=
  if negb (alltrue component_weights)
  then normalized_in_place component_weights
  else component_weights.

Definition _set_component_weights (component_weights : option vec)
  : M world unit :=
  m <~ get_self ;;
  component_weights <~
    match component_weights with
    | None =>
        if (n_components m =? 0)%nat then throw ZeroDivisionError
        else np_random_draw
               (randomize (repeat (fdiv one (Fin (INR (n_components m))))
                                  (n_components m)))
    | Some v => ret v
    end ;;
  let component_weights := after_zero_test component_weights in
  if negb (length component_weights =? n_components m)%nat
  then throw (ValueError MsgLength)
  else if negb (allclose_one (fsum component_weights))
  then throw (ValueError MsgSum)
  else put_self (with_log_component_weights m (vlog component_weights)).

(** *** Maximization *)

(** [prior - 1.0 + stats['component_weights']]. *)
Definition prior_minus_one_plus (p : prior_value) (s : vec) : res vec :=
  match p with
  | PriorScalar x => Ok (map (fadd (fsub x one)) s)
  | PriorArray v => add (map (fun x => fsub x one) v) s
  end.

Definition floor_1e_20 : F := Fin 1e-20.

(** [self.hmms[k] = hmm]: the update in place of one component HMM. *)
Definition put_hmm (k : nat) (hmm : HMM) : M world unit :=
  m <~ get_self ;;
  match hmms m with
  | None => throw TypeError
  | Some hs =>
      hs' <~ lift (set_item hs k hmm) ;;
      put_self (with_hmms m (Some hs'))
  end.

(** The loop [for k, hmm in enumerate(self.hmms)] of [_do_mstep]; each
    [hmm._do_mstep] updates its HMM in place. *)
Fixpoint mstep_hmms (k : nat) (todo : list HMM) (hstats : list HmmStats)
  : M world unit :=
  match todo with
  | [] => ret tt
  | hmm :: todo' =>
      st <~ lift (index hstats k) ;;
      put_hmm k (hmm_do_mstep hmm st (hmm_params hmm)) ;;;
      mstep_hmms (S k) todo' hstats
  end.

Definition _do_mstep (stats : Stats) (params : string) : M world unit :=
  m <~ get_self ;;
  prior <~
    match component_weights_prior m with
    | None =>
        put_self (with_component_weights_prior m (Some (PriorScalar one))) ;;;
        ret (PriorScalar one)
    | Some p => ret p
    end ;;
  (if char_in "p" params
   then
     v <~ lift (prior_minus_one_plus prior (stats_component_weights stats)) ;;
     _set_component_weights (Some (normalize (maximum v floor_1e_20)))
   else ret tt) ;;;
  (if char_in "h" params
   then
     m <~ get_self ;;
     match hmms m with
     | None => throw TypeError
     | Some hs => mstep_hmms 0 hs (stats_hmm_stats stats)
     end
   else ret tt).

(** *** Scoring *)

Definition get_hmms (m : MixHMM) : res (list HMM) :=
  match hmms m with
  | Some hs => Ok hs
  | None => Raise TypeError
  end.

(** [self._compute_log_likelihood(obs)]: the array of shape
    [(n_observations, n_states, n_components)], given by its slices
    [framelogprob[:, :, k]], the table of component [k]. *)
Definition _compute_log_likelihood (m : MixHMM) (obs : ndarray)
  : res (list mat) :=
  mapM (fun i =>
          hs <- get_hmms m ;;
          h <- index hs i ;;
          Ok (hmm_compute_log_likelihood h obs))%res
       (seq 0 (n_components m)).

(** [np.array([self.hmms[k]._do_forward_pass(framelogprob[:, :, k])[0]
    for k in range(self.n_components)])]. *)
Definition forward_logliks (m : MixHMM) (framelogprob : list mat)
  : res vec :=
  mapM (fun k =>
          hs <- get_hmms m ;;
          h <- index hs k ;;
          fl <- index framelogprob k ;;
          Ok (fst (hmm_do_forward_pass h fl)))%res
       (seq 0 (n_components m)).

(** The body of the loop of [score_samples] for one sequence: its
    log probability and its row of responsibilities. *)
Definition score_samples_seq (m : MixHMM) (seq : ndarray) : res (F * vec) :=
  (framelogprob <- _compute_log_likelihood m seq ;;
   posteriors <- forward_logliks m framelogprob ;;
   posteriors <- iadd posteriors (log_component_weights m) ;;
   Ok (logsumexp posteriors, log_normalize posteriors))%res.

Definition score_samples (m : MixHMM) (obs : dataset)
  : res (vec * list vec) :=
  (rows <- mapM (score_samples_seq m) obs ;;
   Ok (map fst rows, map snd rows))%res.

(** The body of the loop of [score] for one sequence. *)
Definition score_seq (m : MixHMM) (seq : ndarray) : res F :=
  (framelogprob <- _compute_log_likelihood m seq ;;
   curr_logprob <- forward_logliks m framelogprob ;;
   curr_logprob <- iadd curr_logprob (log_component_weights m) ;;
   Ok (logsumexp curr_logprob))%res.

Definition score (m : MixHMM) (obs : dataset) : res vec :=
  mapM (score_seq m) obs.

Definition predict (m : MixHMM) (obs : dataset) : res (list nat) :=
  ('(logprob, responsibilities) <- score_samples m obs ;;
   mapM argmax responsibilities)%res.

Definition predict_proba (m : MixHMM) (obs : dataset) : res (list vec) :=
  ('(logprob, responsibilities) <- score_samples m obs ;;
   Ok responsibilities)%res.

(** *** Sampling *)

(** [check_random_state]. *)
Definition check_random_state (r : random_state_t) : random_state_t :=
  match r with
  | RsNone => RsGlobal
  | RsSeed seed => RsOwn (seeded seed)
  | RsGlobal => RsGlobal
  | RsOwn g => RsOwn g
  end.

(** A draw from the generator a checked [random_state] names; the
    generator drawn from is left in its new state. *)
Definition draw_from {A : Type} (r : random_state_t)
  (draw : RandomState -> A * RandomState) : M world (A * random_state_t) :=
  match r with
  | RsOwn g => let '(a, g') := draw g in ret (a, RsOwn g')
  | _ => a <~ np_random_draw draw ;; ret (a, RsGlobal)
  end.

(** A draw made by [sample].  With [random_state=None] on a model that
    holds a generator of its own, [check_random_state] hands back that
    very object: the draw advances the generator held in
    [self.random_state] ([held]). *)
Definition draw_held {A : Type} (held : bool) (r : random_state_t)
  (draw : RandomState -> A * RandomState) : M world (A * random_state_t) :=
  '(a, r') <~ draw_from r draw ;;
  (if held
   then m <~ get_self ;; put_self (with_random_state m r')
   else ret tt) ;;;
  ret (a, r').

(** [np.random.randint(low, high)]. *)
Definition np_random_randint (low high : Z) : M world Z :=
  if (low <? high)%Z then np_random_draw (randint low high)
  else throw (ValueError MsgNumpy).

Record samples : Type := mkSamples {
  sampled_components : list nat;
  sampled_obs : list ndarray;
  sampled_states : list (list Z)
}.

(** The loop [for _ in range(n_seq)] of [sample]. *)
Fixpoint sample_loop (held : bool) (n_seq : nat) (n_min n_max : Z)
  (component_weights_cdf : vec) (random_state : random_state_t)
  (acc : samples) : M world (samples * random_state_t) :=
  match n_seq with
  | O => ret (acc, random_state)
  | S n_seq' =>
      '(rand, random_state) <~ draw_held held random_state rand ;;
      currcomponent <~
        lift (argmax_bool (map (fun c => fgtb c rand) component_weights_cdf)) ;;
      n <~ np_random_randint n_min n_max ;;
      m <~ get_self ;;
      hs <~ lift (get_hmms m) ;;
      h <~ lift (index hs currcomponent) ;;
      '(obs_seq, state_seq, random_state) <~
        (r <~ draw_held held random_state (hmm_sample h n) ;;
         ret (fst (fst r), snd (fst r), snd r)) ;;
      sample_loop held n_seq' n_min n_max component_weights_cdf random_state
        (mkSamples (sampled_components acc ++ [currcomponent])
                   (sampled_obs acc ++ [obs_seq])
                   (sampled_states acc ++ [state_seq]))
  end.

(** [sample]: the three lists it returns, and the state in which it
    leaves the generator it drew from. *)
Definition sample (n_seq : nat) (n_min n_max : Z)
  (random_state_arg : random_state_t) : M world (samples * random_state_t) :=
  m <~ get_self ;;
  let held :=
    match random_state_arg, random_state m with
    | RsNone, RsOwn _ => true
    | _, _ => false
    end in
  let random_state_arg :=
    match random_state_arg with
    | RsNone => random_state m
    | _ => random_state_arg
    end in
  let random_state := check_random_state random_state_arg in
  let component_weights_pdf := _get_component_weights m in
  let component_weights_cdf := cumsum component_weights_pdf in
  sample_loop held n_seq n_min n_max component_weights_cdf random_state
    (mkSamples [] [] []).

(** *** Sufficient statistics *)

Definition _initialize_sufficient_statistics (m : MixHMM) : res Stats :=
  (hs <- get_hmms m ;;
   Ok (mkStats (zeros (n_components m))
               (map hmm_initialize_sufficient_statistics hs)))%res.

(** [_BaseMixHMM._initialize_inner_sufficient_statistics]. *)
Definition Base_initialize_inner_sufficient_statistics (m : MixHMM)
  : res InnerStats :=
  (hs <- get_hmms m ;;
   Ok (mkInnerStats
         (zeros (n_components m))
         (map (fun hmm => zeros (hmm_n_states hmm)) hs)
         (map (fun hmm => zeros2 (hmm_n_states hmm) (hmm_n_states hmm)) hs)
         []))%res.

(** [MultinomialMixHMM._initialize_inner_sufficient_statistics]. *)
Definition Multinomial_initialize_inner_sufficient_statistics (m : MixHMM)
  : res InnerStats :=
  (stats <- Base_initialize_inner_sufficient_statistics m ;;
   hs <- get_hmms m ;;
   Ok (mkInnerStats
         (inner_component_weights stats) (inner_start stats)
         (inner_trans stats)
         (map (fun hmm => zeros2 (hmm_n_states hmm) (hmm_n_symbols hmm)) hs)))%res.

(** Modelled from the spec: [_hmmc._compute_lneta], the compiled helper
    that fills [lneta], of shape [(n_observations - 1, n_states,
    n_states)], with
    [lneta[t, i, j] = fwd[t, i] + log_transmat[i, j]
                      + framelogprob[t + 1, j] + bwd[t + 1, j] - lnP]. *)
Definition _compute_lneta (n_observations n_states : nat)
  (fwdlattice log_transmat bwdlattice framelogprob : mat) (lnP : F)
  : res (list mat) :=
  mapM (fun t =>
    mapM (fun i =>
      mapM (fun j =>
        fwd_t <- index fwdlattice t ;;
        fwd_ti <- index fwd_t i ;;
        a_i <- index log_transmat i ;;
        a_ij <- index a_i j ;;
        frame_t1 <- index framelogprob (S t) ;;
        frame_t1j <- index frame_t1 j ;;
        bwd_t1 <- index bwdlattice (S t) ;;
        bwd_t1j <- index bwd_t1 j ;;
        Ok (fsub (fadd (fadd (fadd fwd_ti a_ij) frame_t1j) bwd_t1j) lnP))%res
        (seq 0 n_states))
      (seq 0 n_states))
    (seq 0 (n_observations - 1)).

(** [logsumexp(lneta, 0)]: the sum over [t], entry by entry. *)
Definition logsumexp_axis0 (n_states : nat) (lneta : list mat) : mat :=
  map (fun i =>
         map (fun j => logsumexp (map (fun l => nth j (nth i l []) NaN) lneta))
             (seq 0 n_states))
      (seq 0 n_states).

(** [posteriors = np.exp(gamma.T - logsumexp(gamma, axis=1)).T]. *)
Definition posteriors_row (gamma_t : vec) : vec :=
  map (fun g => fexp (fsub g (logsumexp gamma_t))) gamma_t.

Definition posteriors_of (gamma : mat) : mat := map posteriors_row gamma.

(** [_BaseMixHMM._accumulate_inner_sufficient_statistics]. *)
Definition Base_accumulate_inner_sufficient_statistics (m : MixHMM)
  (stats : InnerStats) (seq : ndarray)
  (framelogprob posteriors fwdlattice bwdlattice : mat)
  (params : string) (k : nat) (curr_logprob : F) : res InnerStats :=
  (c <- index (inner_component_weights stats) k ;;
   cw <- set_item (inner_component_weights stats) k (fadd c curr_logprob) ;;
   let stats :=
     mkInnerStats cw (inner_start stats) (inner_trans stats)
                  (inner_obs stats) in
   if char_in "h" params
   then
     start_k <- index (inner_start stats) k ;;
     posteriors_0 <- index posteriors 0 ;;
     start_k <- iadd start_k posteriors_0 ;;
     start <- set_item (inner_start stats) k start_k ;;
     let stats :=
       mkInnerStats (inner_component_weights stats) start
                    (inner_trans stats) (inner_obs stats) in
     let n_observations := length framelogprob in
     let n_states := length (hd [] framelogprob) in
     if (1 <? n_observations)%nat
     then
       fwd_last <- index_last fwdlattice ;;
       let lnP := logsumexp fwd_last in
       hs <- get_hmms m ;;
       hmm <- index hs k ;;
       lneta <- _compute_lneta n_observations n_states fwdlattice
                  (hmm_log_transmat hmm) bwdlattice framelogprob lnP ;;
       trans_k <- index (inner_trans stats) k ;;
       trans_k <- iadd2 trans_k
                    (map vexp (minimum2 (logsumexp_axis0 n_states lneta)
                                        (Fin 700))) ;;
       trans <- set_item (inner_trans stats) k trans_k ;;
       Ok (mkInnerStats (inner_component_weights stats) (inner_start stats)
                        trans (inner_obs stats))
     else Ok stats
   else Ok stats)%res.

(** [a[:, symbol] += v] on a two-dimensional array: a negative index
    counts from the end, an index out of range raises [IndexError]. *)
Definition column_index (n_columns : nat) (symbol : Z) : res nat :=
  if (0 <=? symbol)%Z && (symbol <? Z.of_nat n_columns)%Z
  then Ok (Z.to_nat symbol)
  else if (symbol <? 0)%Z && (- Z.of_nat n_columns <=? symbol)%Z
  then Ok (Z.to_nat (symbol + Z.of_nat n_columns))
  else Raise IndexError.

Definition iadd_column (a : mat) (symbol : Z) (v : vec) : res mat :=
  (j <- column_index (length (hd [] a)) symbol ;;
   v' <- broadcast_to (length a) v ;;
   mapM2 (fun row x =>
            c <- index row j ;;
            set_item row j (fadd c x)) a v')%res.

(** The loop [for t, symbol in enumerate(obs)] of
    [MultinomialMixHMM._accumulate_inner_sufficient_statistics]. *)
Fixpoint accumulate_symbols (obs_k : mat) (posteriors : mat) (t : nat)
  (symbols : list Z) : res mat :=
  match symbols with
  | [] => Ok obs_k
  | symbol :: symbols' =>
      (posteriors_t <- index posteriors t ;;
       obs_k <- iadd_column obs_k symbol posteriors_t ;;
       accumulate_symbols obs_k posteriors (S t) symbols')%res
  end.

(** [MultinomialMixHMM._accumulate_inner_sufficient_statistics]; a float
    is no array index. *)
Definition Multinomial_accumulate_inner_sufficient_statistics (m : MixHMM)
  (stats : InnerStats) (obs : ndarray)
  (framelogprob posteriors fwdlattice bwdlattice : mat)
  (params : string) (k : nat) (currlogprob : F) : res InnerStats :=
  (stats <- Base_accumulate_inner_sufficient_statistics m stats obs
              framelogprob posteriors fwdlattice bwdlattice params k
              currlogprob ;;
   if char_in "h" params
   then
     match obs with
     | IntArray symbols =>
         match symbols with
         | [] => Ok stats
         | _ =>
             obs_k <- index (inner_obs stats) k ;;
             obs_k <- accumulate_symbols obs_k posteriors 0 symbols ;;
             obs' <- set_item (inner_obs stats) k obs_k ;;
             Ok (mkInnerStats (inner_component_weights stats)
                              (inner_start stats) (inner_trans stats) obs')
         end
     | FloatArray [] => Ok stats
     | FloatArray _ => Raise IndexError
     end
   else Ok stats)%res.

(** The loop [for k in range(self.n_components)] of
    [_BaseMixHMM._accumulate_sufficient_statistics]. *)
Fixpoint Base_accumulate_loop (ks : list nat) (component_weights : vec)
  (inner_stats : InnerStats) (hstats : list HmmStats)
  : res (list HmmStats) :=
  match ks with
  | [] => Ok hstats
  | k :: ks' =>
      (st <- index hstats k ;;
       w <- index component_weights k ;;
       inner_start_k <- index (inner_start inner_stats) k ;;
       start <- iadd (hs_start st) (scale w inner_start_k) ;;
       hstats <- set_item hstats k
                   (mkHmmStats start (hs_trans st) (hs_obs st)) ;;
       st <- index hstats k ;;
       w <- index component_weights k ;;
       inner_trans_k <- index (inner_trans inner_stats) k ;;
       trans <- iadd2 (hs_trans st) (scale2 w inner_trans_k) ;;
       hstats <- set_item hstats k
                   (mkHmmStats (hs_start st) trans (hs_obs st)) ;;
       Base_accumulate_loop ks' component_weights inner_stats hstats)%res
  end.

(** [_BaseMixHMM._accumulate_sufficient_statistics]. *)
Definition Base_accumulate_sufficient_statistics (m : MixHMM)
  (stats : Stats) (inner_stats : InnerStats) (params : string) : res Stats :=
  (let component_weights :=
     log_normalize (inner_component_weights inner_stats) in
   stats <-
     (if char_in "p" params
      then
        cw <- iadd (stats_component_weights stats) component_weights ;;
        Ok (mkStats cw (stats_hmm_stats stats))
      else Ok stats) ;;
   if char_in "h" params
   then
     hstats <- Base_accumulate_loop (seq 0 (n_components m))
                 component_weights inner_stats (stats_hmm_stats stats) ;;
     Ok (mkStats (stats_component_weights stats) hstats)
   else Ok stats)%res.

(** The loop [for k in range(self.n_components)] of
    [MultinomialMixHMM._accumulate_sufficient_statistics]. *)
Fixpoint Multinomial_accumulate_loop (ks : list nat)
  (component_weights : vec) (inner_stats : InnerStats)
  (hstats : list HmmStats) : res (list HmmStats) :=
  match ks with
  | [] => Ok hstats
  | k :: ks' =>
      (st <- index hstats k ;;
       w <- index component_weights k ;;
       inner_obs_k <- index (inner_obs inner_stats) k ;;
       obs <- iadd2 (hs_obs st) (scale2 w inner_obs_k) ;;
       hstats <- set_item hstats k
                   (mkHmmStats (hs_start st) (hs_trans st) obs) ;;
       Multinomial_accumulate_loop ks' component_weights inner_stats
         hstats)%res
  end.

(** [MultinomialMixHMM._accumulate_sufficient_statistics]. *)
Definition Multinomial_accumulate_sufficient_statistics (m : MixHMM)
  (stats : Stats) (inner_stats : InnerStats) (params : string) : res Stats :=
  (stats <- Base_accumulate_sufficient_statistics m stats inner_stats
              params ;;
   let component_weights :=
     log_normalize (inner_component_weights inner_stats) in
   if char_in "h" params
   then
     hstats <- Multinomial_accumulate_loop (seq 0 (n_components m))
                 component_weights inner_stats (stats_hmm_stats stats) ;;
     Ok (mkStats (stats_component_weights stats) hstats)
   else Ok stats)%res.

(** *** Initialization *)

(** [np.random.dirichlet(alpha)] needs a sequence. *)
Definition np_random_dirichlet (alpha : option prior_value) : M world vec :=
  match alpha with
  | Some (PriorArray v) => np_random_draw (dirichlet v)
  | _ => throw TypeError
  end.

(** [_BaseMixHMM._init]. *)
Definition Base_init (obs : dataset) (params : string) : M world unit :=
  if char_in "p" params
  then
    m <~ get_self ;;
    v <~ np_random_dirichlet (component_weights_prior m) ;;
    _set_component_weights (Some v)
  else ret tt.

(** The loop [for hmm in self.hmms: hmm._init(obs)]. *)
Fixpoint init_hmms (k : nat) (todo : list HMM) (obs : dataset)
  : M world unit :=
  match todo with
  | [] => ret tt
  | hmm :: todo' =>
      hmm' <~ np_random_draw (hmm_init hmm obs) ;;
      put_hmm k hmm' ;;;
      init_hmms (S k) todo' obs
  end.

(** [MultinomialMixHMM._init]. *)
Definition Multinomial_init (obs : dataset) (params : string)
  : M world unit :=
  Base_init obs params ;;;
  m <~ get_self ;;
  put_self (with_random_state m (check_random_state (random_state m))) ;;;
  m <~ get_self ;;
  match hmms m with
  | None =>
      if char_in "h" params
      then
        let hs := repeat (MultinomialHMM (n_states m) (emissionprob_prior m))
                         (n_components m) in
        put_self (with_hmms m (Some hs)) ;;;
        init_hmms 0 hs obs
      else ret tt
  | Some _ => ret tt
  end.

(** *** The constructors *)

(** [_BaseMixHMM.__init__]: the instance it builds, or the exception the
    assignment to [component_weights_] raises, and the state it leaves
    the process-wide generator in.  The base class has no
    [emissionprob_prior]; [unset] stands for it.  The setter runs before
    [component_weights_prior], [random_state] and [verbose] are
    assigned. *)
Definition Base___init__ (n_components n_states : nat)
  (hmms : option (list HMM)) (component_weights : option vec)
  (component_weights_prior : option prior_value)
  (random_state : random_state_t) (n_iter : nat) (thresh : F)
  (params init_params : string) (verbose : nat) (unset : EmissionPrior)
  (g : RandomState) : res MixHMM * RandomState :=
  let self0 :=
    mkMixHMM n_components n_states hmms n_iter thresh params init_params
      [] None RsNone 0 unset in
  match _set_component_weights component_weights (mkWorld self0 g) with
  | (Ok _, w) =>
      let component_weights_prior :=
        match component_weights_prior with
        | None => PriorArray (ones n_components)
        | Some p => p
        end in
      (Ok (mkMixHMM n_components n_states hmms n_iter thresh params
             init_params (log_component_weights (self w))
             (Some component_weights_prior) random_state verbose unset),
       np_random w)
  | (Raise e, w) => (Raise e, np_random w)
  end.

(** [MultinomialMixHMM.__init__]: it has no [component_weights_prior]
    argument and passes none on. *)
Definition Multinomial___init__ (n_components n_states : nat)
  (hmms : option (list HMM)) (component_weights : option vec)
  (random_state : random_state_t) (n_iter : nat) (thresh : F)
  (params init_params : string) (verbose : nat)
  (emissionprob_prior : EmissionPrior)
  (g : RandomState) : res MixHMM * RandomState :=
  match Base___init__ n_components n_states hmms component_weights None
          random_state n_iter thresh params init_params verbose
          emissionprob_prior g with
  | (Ok (mkMixHMM nc ns hs n_it th ps ips lw prior rs vb _), g') =>
      (* self.emissionprob_prior = emissionprob_prior *)
      (Ok (mkMixHMM nc ns hs n_it th ps ips lw prior rs vb
             emissionprob_prior),
       g')
  | (Raise e, g') => (Raise e, g')
  end.

(** *** The EM loop *)

(** The methods [fit] reaches through [self]: the class of the
    instance decides which definitions run. *)
Record MixHMMClass : Type := mkClass {
  cls_init : dataset -> string -> M world unit;
  cls_initialize_inner_sufficient_statistics : MixHMM -> res InnerStats;
  cls_accumulate_inner_sufficient_statistics :
    MixHMM -> InnerStats -> ndarray -> mat -> mat -> mat -> mat ->
    string -> nat -> F -> res InnerStats;
  cls_accumulate_sufficient_statistics :
    MixHMM -> Stats -> InnerStats -> string -> res Stats
}.

Definition BaseMixHMM : MixHMMClass :=
  mkClass Base_init Base_initialize_inner_sufficient_statistics
    Base_accumulate_inner_sufficient_statistics
    Base_accumulate_sufficient_statistics.

Definition MultinomialMixHMM : MixHMMClass :=
  mkClass Multinomial_init Multinomial_initialize_inner_sufficient_statistics
    Multinomial_accumulate_inner_sufficient_statistics
    Multinomial_accumulate_sufficient_statistics.

(** The loop [for k, hmm in enumerate(self.hmms)] of [fit], for one
    sequence. *)
Fixpoint components_loop (cls : MixHMMClass) (m : MixHMM) (seq : ndarray)
  (framelogprob : list mat) (k : nat) (todo : list HMM)
  (curr_logprob : vec) (inner_stats : InnerStats)
  : res (vec * InnerStats) :=
  match todo with
  | [] => Ok (curr_logprob, inner_stats)
  | hmm :: todo' =>
      (framelogprob_k <- index framelogprob k ;;
       let '(lpr, fwdlattice) := hmm_do_forward_pass hmm framelogprob_k in
       let bwdlattice := hmm_do_backward_pass hmm framelogprob_k in
       gamma <- add2 fwdlattice bwdlattice ;;
       let posteriors := posteriors_of gamma in
       lw_k <- index (log_component_weights m) k ;;
       curr_logprob <- set_item curr_logprob k (fadd lpr lw_k) ;;
       curr_logprob_k <- index curr_logprob k ;;
       inner_stats <- cls_accumulate_inner_sufficient_statistics cls m
                        inner_stats seq framelogprob_k posteriors
                        fwdlattice bwdlattice (params m) k curr_logprob_k ;;
       components_loop cls m seq framelogprob (S k) todo' curr_logprob
         inner_stats)%res
  end.

(** What the expectation step carries from one sequence to the next:
    [stats], [curr_logprob] and [logprob[-1]]. *)
Record estep_state : Type := mkEstep {
  es_stats : Stats;
  es_curr_logprob : vec;
  es_logprob : F
}.

(** The body of the loop [for n, seq in enumerate(obs)] of [fit]. *)
Definition estep_sequence (cls : MixHMMClass) (m : MixHMM)
  (st : estep_state) (seq : ndarray) : res estep_state :=
  (inner_stats <- cls_initialize_inner_sufficient_statistics cls m ;;
   framelogprob <- _compute_log_likelihood m seq ;;
   hs <- get_hmms m ;;
   '(curr_logprob, inner_stats) <-
     components_loop cls m seq framelogprob 0 hs (es_curr_logprob st)
       inner_stats ;;
   stats <- cls_accumulate_sufficient_statistics cls m (es_stats st)
              inner_stats (params m) ;;
   Ok (mkEstep stats curr_logprob
               (fadd (es_logprob st) (logsumexp curr_logprob))))%res.

Fixpoint estep_sequences (cls : MixHMMClass) (m : MixHMM)
  (st : estep_state) (obs : dataset) : res estep_state :=
  match obs with
  | [] => Ok st
  | seq :: obs' =>
      (st <- estep_sequence cls m st seq ;;
       estep_sequences cls m st obs')%res
  end.

(** The expectation step of one iteration: the statistics and the
    log probability [logprob[-1]] it ends with. *)
Definition expectation (cls : MixHMMClass) (m : MixHMM) (obs : dataset)
  : res (Stats * F) :=
  (stats <- _initialize_sufficient_statistics m ;;
   st <- estep_sequences cls m
           (mkEstep stats (zeros (n_components m)) zero) obs ;;
   Ok (es_stats st, es_logprob st))%res.

(** How the loop [for i in range(self.n_iter)] ended: by the [break] of
    the convergence check in iteration [i], or by running out of
    iterations. *)
Inductive loop_exit : Type :=
| Converged (i : nat)
| MaxIterReached.

(** The loop [for i in range(self.n_iter)] of [fit], from iteration [i]
    on with [todo] iterations left; [logprob] is the list built so far.
    The progress report ([verbose]) prints and changes nothing. *)
Fixpoint em_loop (cls : MixHMMClass) (obs : dataset) (todo i : nat)
  (logprob : list F) : M world loop_exit :=
  match todo with
  | O => ret MaxIterReached
  | S todo' =>
      m <~ get_self ;;
      '(stats, lp) <~ lift (expectation cls m obs) ;;
      let logprob := logprob ++ [lp] in
      if (0 <? i)%nat
         && fltb (fabs (fsub (nth (length logprob - 1) logprob NaN)
                             (nth (length logprob - 2) logprob NaN)))
                 (thresh m)
      then ret (Converged i)
      else
        _do_mstep stats (params m) ;;;
        em_loop cls obs todo' (S i) logprob
  end.

(** [_BaseMixHMM.fit], run on an instance of class [cls]. *)
Definition fit (cls : MixHMMClass) (obs : dataset) : M world loop_exit :=
  m <~ get_self ;;
  cls_init cls obs (init_params m) ;;;
  m <~ get_self ;;
  em_loop cls obs (n_iter m) 0 [].

(** [MultinomialMixHMM.fit]. *)
Definition Multinomial_fit (obs : dataset) : M world loop_exit :=
  '(ok, obs) <~ lift (_check_input_symbols obs) ;;
  if negb ok
  then throw (ValueError (MsgInput obs))
  else fit MultinomialMixHMM obs.

(** *** Notions used by the statements *)

(** A model whose parts fit together: [hs] is the list [self.hmms], one
    HMM and one log weight per component. *)
Definition well_formed (m : MixHMM) (hs : list HMM) : Prop :=
  hmms m = Some hs
  /\ length hs = n_components m
  /\ length (log_component_weights m) = n_components m.

(** The forward log-likelihood of a sequence under one component HMM. *)
Definition forward_loglik (h : HMM) (seq : ndarray) : F :=
  fst (hmm_do_forward_pass h (hmm_compute_log_likelihood h seq)).

(** The vector [joint[k] = forward_loglik[k] + log_component_weights[k]]
    of a sequence. *)
Definition joint (hs : list HMM) (lw : vec) (seq : ndarray) : vec :=
  map2 fadd (map (fun h => forward_loglik h seq) hs) lw.

(** [c] is the lowest index at which [row] takes its maximum. *)
Definition first_maximum (row : vec) (c : nat) : Prop :=
  (c < length row)%nat
  /\ (forall j, (j < length row)%nat ->
                fltb (nth c row NaN) (nth j row NaN) = false)
  /\ (forall j, (j < c)%nat ->
                fltb (nth j row NaN) (nth c row NaN) = true).

(** [j] rounds of the loop of [fit], each an expectation step followed
    by its maximization step. *)
Fixpoint em_rounds (cls : MixHMMClass) (obs : dataset) (j : nat)
  : M world unit :=
  match j with
  | O => ret tt
  | S j' =>
      m <~ get_self ;;
      '(stats, lp) <~ lift (expectation cls m obs) ;;
      _do_mstep stats (params m) ;;;
      em_rounds cls obs j'
  end.

(** All the symbols of a dataset whose arrays all hold integers. *)
Fixpoint all_symbols (obs : dataset) : option (list Z) :=
  match obs with
  | [] => Some []
  | IntArray a :: obs' =>
      match all_symbols obs' with
      | Some s => Some (a ++ s)
      | None => None
      end
  | FloatArray _ :: _ => None
  end.

(** No integer is missing between two symbols. *)
Definition contiguous (l : list Z) : Prop :=
  forall x y z, In x l -> In z l -> (x <= y <= z)%Z -> In y l.

(** The precondition of the multinomial family: the symbols of the whole
    dataset are non-negative, contiguous integers. *)
Definition multinomial_precondition (obs : dataset) : Prop :=
  exists symbols,
    all_symbols obs = Some symbols
    /\ Forall (fun x => (0 <= x)%Z) symbols
    /\ contiguous symbols.

(** The whole dataset holds one symbol. *)
Definition single_symbol (obs : dataset) : Prop :=
  exists x, all_symbols obs = Some [x].

(** An exception other than the [ValueError] of the input check. *)
Definition not_input_error (e : exn) : Prop :=
  match e with
  | ValueError (MsgInput _) => False
  | _ => True
  end.

(** A result that is not the [ValueError] of the input check. *)
Definition clean {A : Type} (r : res A) : Prop :=
  match r with
  | Ok _ => True
  | Raise e => not_input_error e
  end.

Definition cleanM {A : Type} (c : M world A) : Prop :=
  forall w, clean (fst (c w)).

Definition clean_class (cls : MixHMMClass) : Prop :=
  (forall obs params, cleanM (cls_init cls obs params))
  /\ (forall m, clean (cls_initialize_inner_sufficient_statistics cls m))
  /\ (forall m stats seq fl p fwd bwd params k c,
         clean (cls_accumulate_inner_sufficient_statistics cls m stats seq
                  fl p fwd bwd params k c))
  /\ (forall m stats inner params,
         clean (cls_accumulate_sufficient_statistics cls m stats inner
                  params)).

(** Two two-dimensional arrays of one shape. *)
Definition same_shape2 (a b : mat) : Prop :=
  Forall2 (fun r s => length r = length s) a b.

(** The outer statistics have one entry per component, each of the shape
    of the inner statistics of that component. *)
Definition fold_shapes (K : nat) (stats : Stats) (inner_stats : InnerStats)
  : Prop :=
  length (stats_component_weights stats) = K
  /\ length (stats_hmm_stats stats) = K
  /\ length (inner_start inner_stats) = K
  /\ length (inner_trans inner_stats) = K
  /\ length (inner_obs inner_stats) = K
  /\ forall k st,
       nth_error (stats_hmm_stats stats) k = Some st ->
       length (hs_start st) = length (nth k (inner_start inner_stats) [])
       /\ same_shape2 (hs_trans st) (nth k (inner_trans inner_stats) [])
       /\ same_shape2 (hs_obs st) (nth k (inner_obs inner_stats) []).

(** [st + w * inner_stats[k]], field by field: the statistics [st] of
    component [k] after the inner statistics of a sequence have been
    folded in with weight [w]. *)
Definition folded (w : F) (inner_stats : InnerStats) (k : nat)
  (st : HmmStats) : HmmStats :=
  mkHmmStats
    (map2 fadd (hs_start st) (scale w (nth k (inner_start inner_stats) [])))
    (map2 (map2 fadd) (hs_trans st)
          (scale2 w (nth k (inner_trans inner_stats) [])))
    (map2 (map2 fadd) (hs_obs st)
          (scale2 w (nth k (inner_obs inner_stats) []))).

(** What no method of the mixture changes once the instance is built:
    the settings given to the constructor stay, a vector of
    [n_components] log weights stays one, and a list of component HMMs
    keeps its length. *)
Definition kept (w w' : world) : Prop :=
  n_components (self w') = n_components (self w)
  /\ n_states (self w') = n_states (self w)
  /\ n_iter (self w') = n_iter (self w)
  /\ thresh (self w') = thresh (self w)
  /\ params (self w') = params (self w)
  /\ init_params (self w') = init_params (self w)
  /\ verbose (self w') = verbose (self w)
  /\ emissionprob_prior (self w') = emissionprob_prior (self w)
  /\ (length (log_component_weights (self w)) = n_components (self w) ->
      length (log_component_weights (self w')) = n_components (self w))
  /\ (forall hs, hmms (self w) = Some hs ->
                 exists hs', hmms (self w') = Some hs'
                             /\ length hs' = length hs).

(** A method that keeps all of that, however it ends. *)
Definition keeps {A : Type} (c : M world A) : Prop :=
  forall w, kept w (snd (c w)).

(** The values of an array and of a whole dataset, integers read as
    floats. *)
Definition values_of (a : ndarray) : list F :=
  match a with
  | IntArray v => map to_float v
  | FloatArray v => v
  end.

Definition all_values (obs : dataset) : list F := flat_map values_of obs.

(** The dataset [_BaseMixHMM.fit] is run on once the check of
    [MultinomialMixHMM.fit] has passed: the check has sorted the array of
    a dataset that holds a single array. *)
Definition as_checked (obs : dataset) : dataset :=
  match obs with
  | [IntArray s] => [IntArray (sort s)]
  | _ => obs
  end.

(** [a[i, j]]. *)
Definition entry (a : mat) (i j : nat) : F := nth j (nth i a []) NaN.

(** What the observations of a sequence add to the emission count of
    state [i] and symbol [j]: the posteriors [posteriors[t, i]] of the
    times [t], from [t0] on, at which the sequence shows symbol [j], in
    the order of the sequence. *)
Fixpoint contributions (posteriors : mat) (t0 : nat) (symbols : list Z)
  (i j : nat) : list F :=
  match symbols with
  | [] => []
  | symbol :: symbols' =>
      (if (Z.to_nat symbol =? j)%nat then [entry posteriors t0 i] else [])
      ++ contributions posteriors (S t0) symbols' i j
  end.

(** An expected count as the clamp of [np.minimum(..., 700)] leaves it:
    a [nan], or a number between [0] and [exp(700)]. *)
Definition clamped_count (x : F) : Prop :=
  x = NaN \/ exists r, x = Fin r /\ (0 <= r <= exp 700)%R.

(** A prior of the component weights given by real numbers: left at
    [None], one number, or an array of numbers. *)
Inductive real_prior : Type :=
| PriorUnset
| PriorNumber (x : R)
| PriorNumbers (xs : list R).

Definition as_prior (p : real_prior) : option prior_value :=
  match p with
  | PriorUnset => None
  | PriorNumber x => Some (PriorScalar (Fin x))
  | PriorNumbers xs => Some (PriorArray (map Fin xs))
  end.

Definition prior_fits (p : real_prior) (K : nat) : Prop :=
  match p with
  | PriorNumbers xs => length xs = K
  | _ => True
  end.

(** [prior - 1 + statistics], entry by entry; a prior left at [None]
    counts as [1]. *)
Definition prior_and_statistics (p : real_prior) (s : vec) : vec :=
  match p with
  | PriorUnset => map (fun y => fadd (Fin (1 - 1)) y) s
  | PriorNumber x => map (fun y => fadd (Fin (x - 1)) y) s
  | PriorNumbers xs => map2 (fun x y => fadd (Fin (x - 1)) y) xs s
  end.

(** A statistic that is a number or [-inf]. *)
Definition below_posinf (x : F) : Prop := x <> NaN /\ x <> PosInf.

(** * Properties *)

(** ** Decisions on real numbers *)

Lemma Rltb_true (a b : R) : (a < b)%R -> Rltb a b = true.
Proof. intros H. unfold Rltb. destruct (Rlt_dec a b); [reflexivity | contradiction]. Qed.

Lemma Rltb_false (a b : R) : ~ (a < b)%R -> Rltb a b = false.
Proof. intros H. unfold Rltb. destruct (Rlt_dec a b); [contradiction | reflexivity]. Qed.

Lemma Rleb_true (a b : R) : (a <= b)%R -> Rleb a b = true.
Proof. intros H. unfold Rleb. destruct (Rle_dec a b); [reflexivity | contradiction]. Qed.

Lemma Rleb_false (a b : R) : ~ (a <= b)%R -> Rleb a b = false.
Proof. intros H. unfold Rleb. destruct (Rle_dec a b); [contradiction | reflexivity]. Qed.

Lemma Reqb_true (a b : R) : a = b -> Reqb a b = true.
Proof. intros H. unfold Reqb. destruct (Req_dec_T a b); [reflexivity | contradiction]. Qed.

Lemma Reqb_false (a b : R) : a <> b -> Reqb a b = false.
Proof. intros H. unfold Reqb. destruct (Req_dec_T a b); [contradiction | reflexivity]. Qed.

Lemma tolerance_value : (atol + rtol * Rabs 1 = 1e-8 + 1e-5)%R.
Proof. unfold atol, rtol. rewrite Rabs_R1. lra. Qed.

(** ** The setter of [component_weights_] *)

(** The zero test keeps the shape of the vector, and leaves a vector
    that holds no zero as it is. *)
Lemma after_zero_test_length (v : vec) :
  length (after_zero_test v) = length v.
Proof.
  unfold after_zero_test, normalized_in_place.
  destruct (alltrue v); simpl; [reflexivity|].
  rewrite length_map, length_seq. reflexivity.
Qed.

Lemma after_zero_test_alltrue (v : vec) :
  alltrue v = true -> after_zero_test v = v.
Proof. intros H. unfold after_zero_test. rewrite H. reflexivity. Qed.

Lemma alltrue_nonzero (rs : list R) :
  Forall (fun x => x <> 0%R) rs -> alltrue (map Fin rs) = true.
Proof.
  intros H. unfold alltrue. rewrite forallb_forall. intros x Hx.
  apply in_map_iff in Hx. destruct Hx as [r [<- Hr]].
  rewrite Forall_forall in H. simpl.
  rewrite Reqb_false by (apply H; exact Hr). reflexivity.
Qed.

Lemma alltrue_positive (rs : list R) :
  Forall (fun x => (0 < x)%R) rs -> alltrue (map Fin rs) = true.
Proof.
  intros H. apply alltrue_nonzero.
  eapply Forall_impl; [|exact H]. intros x Hx. simpl in Hx. lra.
Qed.

(** The setter on an explicit vector, check by check. *)
Lemma set_component_weights_Some (w : world) (v : vec) :
  _set_component_weights (Some v) w =
    if negb (length v =? n_components (self w))%nat
    then (Raise (ValueError MsgLength), w)
    else if negb (allclose_one (fsum (after_zero_test v)))
    then (Raise (ValueError MsgSum), w)
    else (Ok tt,
          mkWorld (with_log_component_weights (self w)
                     (vlog (after_zero_test v)))
                  (np_random w)).
Proof.
  destruct w as [m g].
  unfold _set_component_weights, bindM, get_self, ret, throw, put_self.
  simpl. rewrite after_zero_test_length.
  destruct (negb (length v =? n_components m)%nat); [reflexivity|].
  destruct (negb (allclose_one (fsum (after_zero_test v)))); reflexivity.
Qed.

(** The setter on an explicit vector that holds no zero. *)
Lemma set_component_weights_nonzero (w : world) (v : vec) :
  alltrue v = true ->
  _set_component_weights (Some v) w =
    if negb (length v =? n_components (self w))%nat
    then (Raise (ValueError MsgLength), w)
    else if negb (allclose_one (fsum v))
    then (Raise (ValueError MsgSum), w)
    else (Ok tt,
          mkWorld (with_log_component_weights (self w) (vlog v))
                  (np_random w)).
Proof.
  intros H. rewrite set_component_weights_Some.
  rewrite (after_zero_test_alltrue _ H). reflexivity.
Qed.

(** C5 (amended).  Setting [component_weights_] to an explicit vector
    raises [ValueError] (length message) when the length of the vector
    differs from [n_components]; raises [ValueError] (sum message) when
    the length is right and the sum of the entries is not within numpy's
    [allclose] tolerance of [1.0], that is when it is not a finite [s]
    with [|s - 1| <= 1e-8 + 1e-5]; and stores the elementwise logarithm
    of a vector that passes both checks.  A failed check leaves the
    instance as it was.  The sum is taken, and the logarithm stored, of
    the vector as the zero test before the checks leaves it: the vector
    itself when it holds no zero. *)
Theorem set_component_weights_validation (w : world) (v : vec) :
  (length v <> n_components (self w) ->
   _set_component_weights (Some v) w = (Raise (ValueError MsgLength), w))
  /\ (length v = n_components (self w) ->
      ~ (exists s, fsum (after_zero_test v) = Fin s
                   /\ (Rabs (s - 1) <= 1e-8 + 1e-5)%R) ->
      _set_component_weights (Some v) w = (Raise (ValueError MsgSum), w))
  /\ (length v = n_components (self w) ->
      (exists s, fsum (after_zero_test v) = Fin s
                 /\ (Rabs (s - 1) <= 1e-8 + 1e-5)%R) ->
      _set_component_weights (Some v) w =
        (Ok tt,
         mkWorld (with_log_component_weights (self w)
                    (vlog (after_zero_test v)))
                 (np_random w)))
  /\ (alltrue v = true -> after_zero_test v = v).
Proof.
  rewrite set_component_weights_Some.
  split; [|split; [|split]].
  - intros Hlen.
    apply Nat.eqb_neq in Hlen. rewrite Hlen. reflexivity.
  - intros Hlen Hsum.
    apply Nat.eqb_eq in Hlen. rewrite Hlen. simpl.
    assert (Hc : allclose_one (fsum (after_zero_test v)) = false).
    { unfold allclose_one.
      destruct (fsum (after_zero_test v)) as [s| | |]; try reflexivity.
      apply Rleb_false. intros Hle. apply Hsum. exists s. split; [reflexivity|].
      rewrite tolerance_value in Hle. exact Hle. }
    rewrite Hc. reflexivity.
  - intros Hlen [s [Hs Hle]].
    apply Nat.eqb_eq in Hlen. rewrite Hlen. simpl.
    assert (Hc : allclose_one (fsum (after_zero_test v)) = true).
    { rewrite Hs. unfold allclose_one. apply Rleb_true.
      rewrite tolerance_value. exact Hle. }
    rewrite Hc. reflexivity.
  - apply after_zero_test_alltrue.
Qed.

(** ** Finite vectors *)

Lemma fsum_Fin (l : list R) :
  fsum (map Fin l) = Fin (fold_right Rplus 0%R l).
Proof.
  induction l as [|x l IH]; [reflexivity|].
  unfold fsum in *. simpl. rewrite IH. reflexivity.
Qed.

Lemma fold_right_Rplus_pos (l : list R) :
  l <> [] -> Forall (fun x => (0 < x)%R) l ->
  (0 < fold_right Rplus 0%R l)%R.
Proof.
  intros Hne Hall.
  destruct l as [|x l]; [contradiction|].
  inversion Hall as [|? ? Hx Hl]; subst. simpl.
  assert (H0 : (0 <= fold_right Rplus 0%R l)%R).
  { clear Hne Hall Hx. induction Hl as [|y l Hy Hl IH]; simpl; lra. }
  lra.
Qed.

Lemma fold_right_Rplus_div (l : list R) (s : R) :
  fold_right Rplus 0%R (map (fun x => (x / s)%R) l)
  = (fold_right Rplus 0%R l / s)%R.
Proof.
  induction l as [|x l IH]; simpl.
  - unfold Rdiv. ring.
  - rewrite IH. unfold Rdiv. ring.
Qed.

(** [np.maximum(v, 1e-20)] of numbers and [-inf]s is finite and at least
    [1e-20]. *)
Lemma maximum_floor_below_posinf (v : vec) :
  Forall below_posinf v ->
  exists ps,
    maximum v floor_1e_20 = map Fin ps
    /\ length ps = length v
    /\ Forall (fun x => (1e-20 <= x)%R) ps.
Proof.
  induction 1 as [|x v [Hnan Hinf] _ [ps [Hps [Hlen Hall]]]].
  - exists []. repeat split. constructor.
  - unfold maximum in *. cbn [map]. rewrite Hps.
    destruct x as [x| | |]; try contradiction.
    + unfold fmaximum, floor_1e_20, fltb.
      destruct (Rlt_dec x 1e-20) as [Hlt|Hge].
      * exists (1e-20%R :: ps). rewrite Rltb_true by exact Hlt.
        repeat split; simpl; [congruence|].
        constructor; [lra | exact Hall].
      * exists (x :: ps). rewrite Rltb_false by exact Hge.
        repeat split; simpl; [congruence|].
        constructor; [lra | exact Hall].
    + exists (1e-20%R :: ps). cbn [fmaximum floor_1e_20 fltb].
      repeat split; simpl; [congruence|].
      constructor; [lra | exact Hall].
Qed.

(** [normalize] of a vector of positive numbers: every entry divided by
    the sum, positive, and summing to one. *)
Lemma normalize_positive (ps : list R) :
  ps <> [] -> Forall (fun x => (0 < x)%R) ps ->
  normalize (map Fin ps)
  = map Fin (map (fun x => (x / fold_right Rplus 0%R ps)%R) ps)
  /\ Forall (fun x => (0 < x)%R)
            (map (fun x => (x / fold_right Rplus 0%R ps)%R) ps)
  /\ fold_right Rplus 0%R
       (map (fun x => (x / fold_right Rplus 0%R ps)%R) ps) = 1%R.
Proof.
  intros Hne Hall.
  pose proof (fold_right_Rplus_pos Hne Hall) as Hs.
  repeat split.
  - unfold normalize. rewrite fsum_Fin, !map_map.
    apply map_ext. intros x. unfold fdiv.
    rewrite Reqb_false by lra. reflexivity.
  - rewrite Forall_forall. intros y Hy.
    apply in_map_iff in Hy. destruct Hy as [x [Hy Hx]]. subst y.
    rewrite Forall_forall in Hall.
    apply Rdiv_lt_0_compat; [apply Hall; exact Hx | exact Hs].
  - rewrite fold_right_Rplus_div. field. lra.
Qed.

(** [np.exp(np.log(v))] gives back a vector of positive numbers. *)
Lemma vexp_vlog_positive (ps : list R) :
  Forall (fun x => (0 < x)%R) ps ->
  vexp (vlog (map Fin ps)) = map Fin ps.
Proof.
  intros Hall. unfold vexp, vlog. rewrite !map_map.
  apply map_ext_in. intros x Hx.
  rewrite Forall_forall in Hall. specialize (Hall x Hx).
  unfold flog. rewrite Rltb_true by exact Hall.
  simpl. rewrite exp_ln by exact Hall. reflexivity.
Qed.

(** ** Maximization *)

(** The loop over the component HMMs changes [self.hmms] only. *)
Lemma put_hmm_frame (k : nat) (hmm : HMM) (w : world) :
  let w' := snd (put_hmm k hmm w) in
  log_component_weights (self w') = log_component_weights (self w)
  /\ np_random w' = np_random w.
Proof.
  destruct w as [m g].
  unfold put_hmm, bindM, get_self, throw, lift, put_self. simpl.
  destruct (hmms m) as [hs|]; simpl; [|split; reflexivity].
  destruct (set_item hs k hmm); simpl; split; reflexivity.
Qed.

Lemma mstep_hmms_frame (todo : list HMM) (hstats : list HmmStats) :
  forall (k : nat) (w : world),
    log_component_weights (self (snd (mstep_hmms k todo hstats w)))
    = log_component_weights (self w).
Proof.
  induction todo as [|hmm todo IH]; intros k w; [reflexivity|].
  simpl. unfold bindM at 1. unfold lift.
  destruct (index hstats k) as [st|e]; [|reflexivity].
  unfold bindM.
  pose proof (put_hmm_frame k (hmm_do_mstep hmm st (hmm_params hmm)) w)
    as [Hlw _].
  destruct (put_hmm k (hmm_do_mstep hmm st (hmm_params hmm)) w)
    as [[u|e] w1]; simpl in *.
  - rewrite IH. exact Hlw.
  - exact Hlw.
Qed.

(** The maximization of the weights, given the value [v] of
    [component_weights_prior - 1.0 + stats['component_weights']]. *)
Lemma do_mstep_weights_of_value (w : world) (stats : Stats)
  (params : string) (v : vec) :
  char_in "p" params = true ->
  prior_minus_one_plus
    (match component_weights_prior (self w) with
     | None => PriorScalar one
     | Some p => p
     end)
    (stats_component_weights stats) = Ok v ->
  Forall below_posinf v ->
  length v = n_components (self w) ->
  (0 < n_components (self w))%nat ->
  let w' := snd (_do_mstep stats params w) in
  _get_component_weights (self w')
  = normalize (maximum v floor_1e_20)
  /\ Forall (fun x => exists r, x = Fin r /\ (0 < r)%R)
            (_get_component_weights (self w'))
  /\ (char_in "h" params = false ->
      fst (_do_mstep stats params w) = Ok tt).
Proof.
  intros Hp Hv Hfin Hlen HK.
  destruct (maximum_floor_below_posinf Hfin) as [ps [Hps [Hlps Hfloor]]].
  assert (Hne : ps <> []).
  { intros ->. simpl in Hlps. lia. }
  assert (Hpos : Forall (fun x => (0 < x)%R) ps).
  { eapply Forall_impl; [|exact Hfloor]. intros x Hx. simpl in Hx. lra. }
  destruct (normalize_positive Hne Hpos) as [Hnorm [Hnpos Hnsum]].
  set (qs := map (fun x => (x / fold_right Rplus 0%R ps)%R) ps) in *.
  (* the state after the assignment to [component_weights_] *)
  assert (Hset : forall m0 g0,
            n_components m0 = n_components (self w) ->
            _set_component_weights
              (Some (normalize (maximum v floor_1e_20)))
              (mkWorld m0 g0)
            = (Ok tt,
               mkWorld (with_log_component_weights m0 (vlog (map Fin qs)))
                       g0)).
  { intros m0 g0 Hm0.
    rewrite Hps, Hnorm.
    rewrite set_component_weights_nonzero
      by (apply alltrue_positive; exact Hnpos).
    simpl self.
    rewrite length_map. unfold qs at 1. rewrite length_map.
    rewrite Hlps, Hlen, Hm0, Nat.eqb_refl. simpl negb.
    rewrite fsum_Fin, Hnsum. unfold allclose_one.
    rewrite Rleb_true.
    - reflexivity.
    - rewrite tolerance_value.
      replace (1 - 1)%R with 0%R by lra. rewrite Rabs_R0. lra. }
  assert (Hget : forall m0,
            _get_component_weights
              (with_log_component_weights m0 (vlog (map Fin qs)))
            = map Fin qs).
  { intros m0. unfold _get_component_weights. simpl.
    apply vexp_vlog_positive. exact Hnpos. }
  assert (Hgoal : forall w1,
            log_component_weights (self w1) = vlog (map Fin qs) ->
            _get_component_weights (self w1)
            = normalize (maximum v floor_1e_20)
            /\ Forall (fun x => exists r, x = Fin r /\ (0 < r)%R)
                      (_get_component_weights (self w1))).
  { intros w1 Hw1. unfold _get_component_weights. rewrite Hw1.
    rewrite vexp_vlog_positive by exact Hnpos.
    rewrite Hps, Hnorm. split; [reflexivity|].
    rewrite Forall_forall. intros x Hx.
    apply in_map_iff in Hx. destruct Hx as [r [Hx Hr]].
    exists r. split; [symmetry; exact Hx|].
    rewrite Forall_forall in Hnpos. apply Hnpos. exact Hr. }
  assert (Hrun : exists r w1,
            _do_mstep stats params w = (r, w1)
            /\ log_component_weights (self w1) = vlog (map Fin qs)
            /\ (char_in "h" params = false -> r = Ok tt)).
  { destruct w as [m g]. simpl in *.
    unfold _do_mstep.
    unfold bindM at 1. unfold get_self at 1. simpl self.
    assert (Hh : forall m0,
              log_component_weights m0 = vlog (map Fin qs) ->
              exists r w1,
                (if char_in "h" params
                 then
                   m1 <~ get_self ;;
                   match hmms m1 with
                   | None => throw TypeError
                   | Some hs => mstep_hmms 0 hs (stats_hmm_stats stats)
                   end
                 else ret tt) (mkWorld m0 g) = (r, w1)
                /\ log_component_weights (self w1) = vlog (map Fin qs)
                /\ (char_in "h" params = false -> r = Ok tt)).
    { intros m0 Hm0.
      destruct (char_in "h" params).
      - unfold bindM, get_self. simpl.
        destruct (hmms m0) as [hs|].
        + pose proof (mstep_hmms_frame hs (stats_hmm_stats stats) 0
                        (mkWorld m0 g)) as Hfr.
          destruct (mstep_hmms 0 hs (stats_hmm_stats stats) (mkWorld m0 g))
            as [r w1].
          exists r, w1. simpl in Hfr.
          split; [reflexivity|]. split; [congruence | discriminate].
        + exists (Raise TypeError), (mkWorld m0 g).
          split; [reflexivity|]. split; [exact Hm0 | discriminate].
      - exists (Ok tt), (mkWorld m0 g).
        split; [reflexivity|]. split; [exact Hm0 | reflexivity]. }
    destruct (component_weights_prior m) as [p|] eqn:Hprior.
    - unfold bindM at 1. unfold ret at 1.
      rewrite Hp.
      unfold bindM at 1. unfold bindM at 1. unfold lift at 1.
      rewrite Hv. rewrite Hset by reflexivity.
      apply Hh. reflexivity.
    - unfold bindM at 1. unfold bindM at 1. unfold put_self at 1.
      unfold ret at 1. simpl np_random.
      rewrite Hp.
      unfold bindM at 1. unfold bindM at 1. unfold lift at 1.
      rewrite Hv. rewrite Hset by reflexivity.
      apply Hh. reflexivity. }
  destruct Hrun as [r [w1 [Hrun [Hlw Hok]]]].
  cbv zeta. rewrite Hrun. simpl fst. simpl snd.
  destruct (Hgoal w1 Hlw) as [H1 H2].
  split; [exact H1|]. split; [exact H2 | exact Hok].
Qed.

Lemma add_prior_statistics (xs : list R) :
  forall s : vec,
    length xs = length s ->
    add (map (fun x => fsub x one) (map Fin xs)) s
    = Ok (map2 (fun x y => fadd (Fin (x - 1)) y) xs s).
Proof.
  unfold add, bzip. intros s Hlen.
  rewrite !length_map, Hlen, Nat.eqb_refl.
  revert s Hlen.
  induction xs as [|x xs IH]; intros [|y s] Hlen; try discriminate Hlen.
  - reflexivity.
  - cbn [map mapM2 map2 bind].
    rewrite IH by (cbn [length] in Hlen; lia). reflexivity.
Qed.

Lemma map2_keeps_length {A B C : Type} (f : A -> B -> C) (la : list A) :
  forall lb, length la = length lb -> length (map2 f la lb) = length la.
Proof.
  induction la as [|a la IH]; intros [|b lb] Hlen; try discriminate Hlen.
  - reflexivity.
  - cbn [map2 length]. rewrite IH by (cbn [length] in Hlen; lia).
    reflexivity.
Qed.

Lemma fadd_below_posinf (a : R) (y : F) :
  below_posinf y -> below_posinf (fadd (Fin a) y).
Proof.
  intros [Hnan Hinf].
  destruct y; try contradiction; split; discriminate.
Qed.

Lemma prior_and_statistics_below_posinf (p : real_prior) (s : vec) :
  Forall below_posinf s -> Forall below_posinf (prior_and_statistics p s).
Proof.
  intros Hs. destruct p as [|x|xs]; cbn [prior_and_statistics].
  - apply Forall_map. eapply Forall_impl; [|exact Hs].
    intros y. apply fadd_below_posinf.
  - apply Forall_map. eapply Forall_impl; [|exact Hs].
    intros y. apply fadd_below_posinf.
  - revert xs. induction Hs as [|y s Hy _ IH]; intros [|x xs];
      cbn [map2]; constructor.
    + apply fadd_below_posinf. exact Hy.
    + apply IH.
Qed.


(** ** Loops over [range(n)] *)

Lemma mapM_Ok {A B : Type} (g : A -> B) (l : list A) :
  mapM (fun x => Ok (g x)) l = Ok (map g l).
Proof.
  induction l as [|x l IH]; [reflexivity|].
  simpl. rewrite IH. reflexivity.
Qed.

Lemma mapM_ext_in {A B : Type} (f g : A -> res B) (l : list A) :
  (forall x, In x l -> f x = g x) -> mapM f l = mapM g l.
Proof.
  induction l as [|x l IH]; intros H; [reflexivity|].
  simpl. rewrite (H x) by (left; reflexivity).
  rewrite IH; [reflexivity|].
  intros y Hy. apply H. right. exact Hy.
Qed.

Lemma index_nth {A : Type} (l : list A) (i : nat) (d : A) :
  (i < length l)%nat -> index l i = Ok (nth i l d).
Proof.
  intros Hi. unfold index.
  rewrite (nth_error_nth' l d Hi). reflexivity.
Qed.

Lemma map_nth_seq {A : Type} (l : list A) (d : A) :
  map (fun i => nth i l d) (seq 0 (length l)) = l.
Proof.
  apply (nth_ext _ _ d d).
  - rewrite length_map, length_seq. reflexivity.
  - intros n Hn. rewrite length_map, length_seq in Hn.
    rewrite (nth_indep _ d (nth (length l) l d))
      by (rewrite length_map, length_seq; exact Hn).
    rewrite (map_nth (fun i => nth i l d) (seq 0 (length l)) (length l) n).
    rewrite seq_nth by exact Hn. reflexivity.
Qed.

(** A comprehension [[g(l[i]) for i in range(len(l))]]. *)
Lemma mapM_index_range {A B : Type} (l : list A) (g : A -> B) :
  mapM (fun i => x <- index l i ;; Ok (g x))%res (seq 0 (length l))
  = Ok (map g l).
Proof.
  destruct l as [|d l']; [reflexivity|].
  set (l := d :: l').
  rewrite (mapM_ext_in _ (fun i => Ok (g (nth i l d)))).
  - rewrite mapM_Ok. rewrite <- (map_map (fun i => nth i l d) g).
    rewrite map_nth_seq. reflexivity.
  - intros i Hi. apply in_seq in Hi.
    rewrite (index_nth l d) by lia. reflexivity.
Qed.

(** ** Scoring *)

Lemma compute_log_likelihood_well_formed (m : MixHMM) (hs : list HMM)
  (obs : ndarray) :
  well_formed m hs ->
  _compute_log_likelihood m obs
  = Ok (map (fun h => hmm_compute_log_likelihood h obs) hs).
Proof.
  intros [Hhs [Hlen _]].
  unfold _compute_log_likelihood, get_hmms. rewrite Hhs, <- Hlen.
  cbn [bind].
  apply (mapM_index_range hs (fun h => hmm_compute_log_likelihood h obs)).
Qed.

Lemma forward_logliks_well_formed (m : MixHMM) (hs : list HMM)
  (obs : ndarray) :
  well_formed m hs ->
  forward_logliks m (map (fun h => hmm_compute_log_likelihood h obs) hs)
  = Ok (map (fun h => forward_loglik h obs) hs).
Proof.
  intros [Hhs [Hlen _]].
  unfold forward_logliks, get_hmms. rewrite Hhs, <- Hlen.
  cbn [bind].
  destruct hs as [|d hs']; [reflexivity|].
  set (hs := d :: hs').
  rewrite (mapM_ext_in _
             (fun k => x <- index hs k ;; Ok (forward_loglik x obs))%res).
  - apply (mapM_index_range hs (fun h => forward_loglik h obs)).
  - intros k Hk. apply in_seq in Hk.
    rewrite (index_nth hs d) by lia. cbn [bind].
    rewrite (index_nth _ (hmm_compute_log_likelihood d obs))
      by (rewrite length_map; lia).
    cbn [bind].
    rewrite (map_nth (fun h => hmm_compute_log_likelihood h obs)).
    reflexivity.
Qed.

Lemma iadd_same_length (a b : vec) :
  length a = length b -> iadd a b = Ok (map2 fadd a b).
Proof.
  intros H. unfold iadd, broadcast_to.
  rewrite H, Nat.eqb_refl. reflexivity.
Qed.

(** One sequence through [score_samples] and through [score]. *)
Lemma score_samples_seq_well_formed (m : MixHMM) (hs : list HMM)
  (seq : ndarray) :
  well_formed m hs ->
  score_samples_seq m seq
  = Ok (logsumexp (joint hs (log_component_weights m) seq),
        log_normalize (joint hs (log_component_weights m) seq)).
Proof.
  intros Hwf. unfold score_samples_seq.
  rewrite (compute_log_likelihood_well_formed seq Hwf). cbn [bind].
  rewrite (forward_logliks_well_formed seq Hwf). cbn [bind].
  rewrite iadd_same_length.
  - reflexivity.
  - rewrite length_map. destruct Hwf as [_ [H1 H2]]. congruence.
Qed.

Lemma score_seq_well_formed (m : MixHMM) (hs : list HMM) (seq : ndarray) :
  well_formed m hs ->
  score_seq m seq = Ok (logsumexp (joint hs (log_component_weights m) seq)).
Proof.
  intros Hwf. unfold score_seq.
  rewrite (compute_log_likelihood_well_formed seq Hwf). cbn [bind].
  rewrite (forward_logliks_well_formed seq Hwf). cbn [bind].
  rewrite iadd_same_length.
  - reflexivity.
  - rewrite length_map. destruct Hwf as [_ [H1 H2]]. congruence.
Qed.

(** ** Log-space normalization *)

Lemma fadd_Fin_inv (a b : F) (s : R) :
  fadd a b = Fin s -> exists x y, a = Fin x /\ b = Fin y /\ (x + y)%R = s.
Proof.
  destruct a as [x| | |], b as [y| | |]; simpl; intros H;
    try discriminate H.
  injection H as H. exists x, y. repeat split. exact H.
Qed.

Lemma fsum_Fin_inv (l : vec) (s : R) :
  fsum l = Fin s ->
  exists rs, l = map Fin rs /\ fold_right Rplus 0%R rs = s.
Proof.
  revert s. induction l as [|a l IH]; intros s H.
  - exists []. split; [reflexivity|].
    unfold fsum in H. simpl in H. injection H as H. exact H.
  - unfold fsum in H. simpl in H.
    apply fadd_Fin_inv in H. destruct H as [x [y [Ha [Hl Hs]]]].
    destruct (IH y Hl) as [rs [Hrs Hsum]].
    exists (x :: rs). split.
    + simpl. rewrite Ha, Hrs. reflexivity.
    + simpl. rewrite Hsum. exact Hs.
Qed.

Lemma flog_Fin_inv (y : F) (L : R) :
  flog y = Fin L -> exists s, y = Fin s /\ (0 < s)%R /\ L = ln s.
Proof.
  destruct y as [s| | |]; simpl; intros H; try discriminate H.
  unfold Rltb in H. destruct (Rlt_dec 0 s) as [Hs|Hs].
  - injection H as H. exists s. repeat split; [exact Hs | symmetry; exact H].
  - destruct (Reqb s 0); discriminate H.
Qed.

(** Subtracting [ln s] in log space divides by [s]. *)
Lemma fexp_fsub_ln (x : F) (r s : R) :
  (0 < s)%R -> fexp x = Fin r ->
  fexp (fsub x (Fin (ln s))) = Fin (r / s).
Proof.
  intros Hs Hx.
  destruct x as [y| | |]; simpl in Hx; try discriminate Hx;
    injection Hx as Hx; subst r; simpl.
  - rewrite exp_plus, exp_Ropp, exp_ln by exact Hs. reflexivity.
  - unfold Rdiv. rewrite Rmult_0_l. reflexivity.
Qed.

(** When the log of the sum is finite, the exponentials of the
    log-normalized vector sum to one. *)
Lemma log_normalize_sums_to_one (a : vec) :
  is_fin (logsumexp a) = true ->
  fsum (vexp (log_normalize a)) = Fin 1.
Proof.
  intros Hfin.
  destruct (logsumexp a) as [L| | |] eqn:HL; try discriminate Hfin.
  pose proof HL as HL'. unfold logsumexp in HL'.
  apply flog_Fin_inv in HL'. destruct HL' as [s [Hsum [Hs HLs]]].
  apply fsum_Fin_inv in Hsum. destruct Hsum as [rs [Hrs Hsumrs]].
  assert (Hrow : vexp (log_normalize a)
                 = map Fin (map (fun r => (r / s)%R) rs)).
  { unfold log_normalize. rewrite HL, HLs. clear HL HLs Hsumrs Hfin.
    unfold vexp in *.
    revert rs Hrs. induction a as [|x a IH]; intros rs Hrs.
    - destruct rs; [reflexivity | discriminate Hrs].
    - destruct rs as [|r rs]; [discriminate Hrs|].
      simpl in Hrs. injection Hrs as Hx Ha.
      simpl. rewrite (fexp_fsub_ln x Hs Hx).
      rewrite (IH rs Ha). reflexivity. }
  rewrite Hrow, fsum_Fin, fold_right_Rplus_div, Hsumrs.
  f_equal. field. lra.
Qed.

Lemma log_normalize_no_nan (a : vec) :
  is_fin (logsumexp a) = true ->
  Forall (fun x => is_nan x = false) (log_normalize a).
Proof.
  intros Hfin.
  destruct (logsumexp a) as [L| | |] eqn:HL; try discriminate Hfin.
  pose proof HL as HL'. unfold logsumexp in HL'.
  apply flog_Fin_inv in HL'. destruct HL' as [s [Hsum [Hs HLs]]].
  apply fsum_Fin_inv in Hsum. destruct Hsum as [rs [Hrs _]].
  unfold log_normalize. rewrite HL. clear HL.
  unfold vexp in *.
  revert rs Hrs. induction a as [|x a IH]; intros rs Hrs; simpl.
  - constructor.
  - destruct rs as [|r rs]; [discriminate Hrs|].
    simpl in Hrs. injection Hrs as Hx Ha.
    constructor; [|exact (IH rs Ha)].
    destruct x; simpl in *; try discriminate Hx; reflexivity.
Qed.

(** [logsumexp] of a single value shifted by a zero log weight. *)
Lemma logsumexp_single (x : F) : logsumexp [fadd x (Fin 0)] = x.
Proof.
  unfold logsumexp, vexp, fsum. simpl.
  destruct x as [y| | |]; simpl; try reflexivity.
  - rewrite Rplus_0_r, Rplus_0_r.
    rewrite Rltb_true by apply exp_pos.
    rewrite ln_exp. reflexivity.
  - rewrite Rplus_0_r. rewrite Rltb_false by lra.
    rewrite Reqb_true by reflexivity. reflexivity.
Qed.

(** ** [argmax] *)

Lemma fltb_irrefl (a : F) : fltb a a = false.
Proof.
  destruct a; simpl; try reflexivity.
  apply Rltb_false. lra.
Qed.

Ltac order_cases :=
  repeat match goal with
         | H : Rltb _ _ = true |- _ =>
             unfold Rltb in H; destruct (Rlt_dec _ _); [|discriminate H]
         | H : Rltb _ _ = false |- _ =>
             unfold Rltb in H; destruct (Rlt_dec _ _); [discriminate H|]
         end.

(** [y <= best < x] gives [not (x < y)]. *)
Lemma fltb_below (best x y : F) :
  fltb best x = true -> fltb best y = false -> fltb x y = false.
Proof.
  destruct best, x, y; simpl; intros H1 H2;
    try reflexivity; try discriminate; order_cases.
  apply Rltb_false. lra.
Qed.

(** [y <= best < x] gives [y < x]. *)
Lemma fltb_above (best x y : F) :
  is_nan y = false ->
  fltb best x = true -> fltb best y = false -> fltb y x = true.
Proof.
  destruct best, x, y; simpl; intros Hy H1 H2;
    try reflexivity; try discriminate; order_cases.
  apply Rltb_true. lra.
Qed.

(** The scan of [argmax]: [pre] has been read, its first maximum [best]
    sits at [bi]. *)
Lemma argmax_from_first_maximum (a : vec) :
  forall (pre : vec) (bi : nat) (best : F),
    Forall (fun x => is_nan x = false) (pre ++ a) ->
    (bi < length pre)%nat ->
    nth bi (pre ++ a) NaN = best ->
    (forall j, (j < length pre)%nat ->
               fltb best (nth j (pre ++ a) NaN) = false) ->
    (forall j, (j < bi)%nat -> fltb (nth j (pre ++ a) NaN) best = true) ->
    first_maximum (pre ++ a) (argmax_from bi best (length pre) a).
Proof.
  induction a as [|x a IH]; intros pre bi best Hnan Hbi Hbest Hmax Hfirst.
  - simpl. rewrite app_nil_r in *. subst best.
    repeat split; assumption.
  - simpl.
    assert (Hbn : is_nan best = false).
    { rewrite Forall_forall in Hnan. apply Hnan. subst best.
      apply nth_In. rewrite length_app. lia. }
    assert (Hxn : is_nan x = false).
    { rewrite Forall_forall in Hnan. apply Hnan.
      apply in_or_app. right. left. reflexivity. }
    rewrite Hbn, Hxn. simpl orb.
    assert (Hx : nth (length pre) (pre ++ x :: a) NaN = x).
    { rewrite app_nth2 by lia. rewrite Nat.sub_diag. reflexivity. }
    assert (Happ : pre ++ x :: a = (pre ++ [x]) ++ a).
    { rewrite <- app_assoc. reflexivity. }
    assert (Hlen : S (length pre) = length (pre ++ [x])).
    { rewrite length_app. simpl. lia. }
    destruct (fltb best x) eqn:Hlt.
    + rewrite Happ, Hlen. apply IH.
      * rewrite <- Happ. exact Hnan.
      * rewrite <- Hlen. lia.
      * rewrite <- Happ. exact Hx.
      * rewrite <- Happ, <- Hlen. intros j Hj.
        destruct (Nat.eq_dec j (length pre)) as [->|Hne].
        -- rewrite Hx. apply fltb_irrefl.
        -- apply (@fltb_below best); [exact Hlt|]. apply Hmax. lia.
      * rewrite <- Happ. intros j Hj.
        apply (@fltb_above best).
        -- rewrite Forall_forall in Hnan. apply Hnan.
           apply nth_In. rewrite length_app. simpl. lia.
        -- exact Hlt.
        -- apply Hmax. exact Hj.
    + rewrite Happ, Hlen. apply IH.
      * rewrite <- Happ. exact Hnan.
      * rewrite <- Hlen. lia.
      * rewrite <- Happ. exact Hbest.
      * rewrite <- Happ, <- Hlen. intros j Hj.
        destruct (Nat.eq_dec j (length pre)) as [->|Hne].
        -- rewrite Hx. exact Hlt.
        -- apply Hmax. lia.
      * rewrite <- Happ. exact Hfirst.
Qed.

(** On an array without [nan], [argmax] is the lowest index of the
    maximum. *)
Lemma argmax_first_maximum (row : vec) :
  row <> [] ->
  Forall (fun x => is_nan x = false) row ->
  exists c, argmax row = Ok c /\ first_maximum row c.
Proof.
  intros Hne Hnan.
  destruct row as [|x a]; [contradiction|].
  exists (argmax_from 0 x 1 a). split; [reflexivity|].
  apply (@argmax_from_first_maximum a [x] 0%nat x).
  - exact Hnan.
  - simpl. lia.
  - reflexivity.
  - intros j Hj. simpl in Hj. assert (j = 0%nat) as -> by lia.
    simpl. apply fltb_irrefl.
  - intros j Hj. lia.
Qed.

Lemma score_samples_well_formed (m : MixHMM) (hs : list HMM)
  (obs : dataset) :
  well_formed m hs ->
  score_samples m obs
  = Ok (map (fun seq => logsumexp (joint hs (log_component_weights m) seq))
            obs,
        map (fun seq =>
               log_normalize (joint hs (log_component_weights m) seq))
            obs).
Proof.
  intros Hwf. unfold score_samples.
  rewrite (mapM_ext_in _
             (fun seq =>
                Ok (logsumexp (joint hs (log_component_weights m) seq),
                    log_normalize
                      (joint hs (log_component_weights m) seq)))).
  - rewrite mapM_Ok. cbn [bind]. rewrite !map_map. reflexivity.
  - intros seq _. apply score_samples_seq_well_formed. exact Hwf.
Qed.

Lemma score_well_formed (m : MixHMM) (hs : list HMM) (obs : dataset) :
  well_formed m hs ->
  score m obs
  = Ok (map (fun seq => logsumexp (joint hs (log_component_weights m) seq))
            obs).
Proof.
  intros Hwf. unfold score.
  rewrite (mapM_ext_in _
             (fun seq =>
                Ok (logsumexp (joint hs (log_component_weights m) seq)))).
  - apply mapM_Ok.
  - intros seq _. apply score_seq_well_formed. exact Hwf.
Qed.

(** C2.  On a model whose parts fit together, [score] and
    [score_samples] return, for every sequence, the log probability
    [logsumexp(joint)] of the vector
    [joint[k] = forward_loglik[k] + log_component_weights[k]];
    [score_samples] returns with it the row [joint - logprob] of
    responsibilities; and the exponentials of a row sum to one whenever
    the log probability of its sequence is a finite number. *)
Theorem score_samples_log_normalized (m : MixHMM) (hs : list HMM)
  (obs : dataset) :
  well_formed m hs ->
  let logprob seq := logsumexp (joint hs (log_component_weights m) seq) in
  let row seq :=
    map (fun x => fsub x (logprob seq))
        (joint hs (log_component_weights m) seq) in
  score m obs = Ok (map logprob obs)
  /\ score_samples m obs = Ok (map logprob obs, map row obs)
  /\ (forall seq, In seq obs -> is_fin (logprob seq) = true ->
                  fsum (vexp (row seq)) = Fin 1).
Proof.
  intros Hwf logprob row.
  split; [exact (score_well_formed obs Hwf)|].
  split; [exact (score_samples_well_formed obs Hwf)|].
  intros seq _ Hfin.
  exact (log_normalize_sums_to_one _ Hfin).
Qed.

Lemma mapM_argmax_rows (rows : list vec) :
  Forall (fun row => row <> []) rows ->
  exists comps,
    mapM argmax rows = Ok comps
    /\ Forall2 (fun row c => argmax row = Ok c) rows comps.
Proof.
  induction rows as [|row rows IH]; intros Hne.
  - exists []. split; [reflexivity | constructor].
  - inversion Hne as [|? ? Hrow Hrows]; subst.
    destruct (IH Hrows) as [comps [Hc Hall]].
    destruct row as [|x a]; [contradiction|].
    exists (argmax_from 0 x 1 a :: comps). split.
    + simpl. simpl in Hc. rewrite Hc. reflexivity.
    + constructor; [reflexivity | exact Hall].
Qed.

Lemma map2_length {A B C : Type} (f : A -> B -> C) (a : list A)
  (b : list B) :
  length a = length b -> length (map2 f a b) = length a.
Proof.
  revert b. induction a as [|x a IH]; intros [|y b] H; simpl in *;
    try discriminate; [reflexivity|].
  rewrite (IH b) by lia. reflexivity.
Qed.

Lemma joint_length (hs : list HMM) (lw : vec) (seq : ndarray) :
  length hs = length lw -> length (joint hs lw seq) = length hs.
Proof.
  intros H. unfold joint.
  rewrite map2_length; rewrite length_map; [reflexivity | exact H].
Qed.

(** C9.  On a model whose parts fit together, with at least one
    component, [predict] returns one component per sequence; for a
    sequence whose row of responsibilities holds no [nan], that component
    is the lowest index at which the row takes its maximum.  With one
    component [predict] returns [0] for every sequence, and, the single
    weight being one (the weights sum to [1.0]), [score] returns for
    every sequence the forward log-likelihood of the single HMM. *)
Theorem predict_first_maximum (m : MixHMM) (hs : list HMM) (obs : dataset) :
  well_formed m hs ->
  (0 < n_components m)%nat ->
  let row seq :=
    log_normalize (joint hs (log_component_weights m) seq) in
  (exists comps,
      predict m obs = Ok comps
      /\ Forall2 (fun seq c =>
                    Forall (fun x => is_nan x = false) (row seq) ->
                    first_maximum (row seq) c)
                 obs comps)
  /\ (n_components m = 1%nat ->
      predict m obs = Ok (map (fun _ => 0%nat) obs))
  /\ (forall h, hs = [h] ->
                fsum (_get_component_weights m) = Fin 1 ->
                score m obs = Ok (map (fun seq => forward_loglik h seq) obs)).
Proof.
  intros Hwf HK row.
  pose proof Hwf as [Hhs [Hlen Hlw]].
  assert (Hrowlen : forall seq, length (row seq) = n_components m).
  { intros seq. unfold row, log_normalize. rewrite length_map.
    rewrite joint_length by congruence. exact Hlen. }
  assert (Hpredict : predict m obs = mapM argmax (map row obs)).
  { unfold predict. rewrite (score_samples_well_formed obs Hwf).
    reflexivity. }
  split; [|split].
  - rewrite Hpredict.
    destruct (mapM_argmax_rows (rows := map row obs)) as [comps [Hc Hall]].
    { rewrite Forall_forall. intros r Hr.
      apply in_map_iff in Hr. destruct Hr as [seq [Hr _]]. subst r.
      intros Hnil. specialize (Hrowlen seq). rewrite Hnil in Hrowlen.
      simpl in Hrowlen. lia. }
    exists comps. split; [exact Hc|].
    clear Hc Hpredict. revert comps Hall.
    induction obs as [|seq obs IH]; intros comps Hall.
    + inversion Hall. constructor.
    + inversion Hall as [|? c ? comps' Hseq Hrest]; subst.
      constructor; [|exact (IH comps' Hrest)].
      intros Hnan.
      destruct (argmax_first_maximum (row := row seq)) as [c' [Hc' Hfm]].
      * intros Hnil. specialize (Hrowlen seq). rewrite Hnil in Hrowlen.
        simpl in Hrowlen. lia.
      * exact Hnan.
      * rewrite Hseq in Hc'. injection Hc' as <-. exact Hfm.
  - intros H1. rewrite Hpredict.
    rewrite (mapM_ext_in _ (fun _ => Ok 0%nat)).
    + rewrite mapM_Ok, map_map. reflexivity.
    + intros r Hr. apply in_map_iff in Hr. destruct Hr as [seq [Hr _]].
      subst r. specialize (Hrowlen seq). rewrite H1 in Hrowlen.
      destruct (row seq) as [|x [|y a]]; try discriminate Hrowlen.
      reflexivity.
  - intros h Hh Hsum. subst hs.
    rewrite (score_well_formed obs Hwf).
    f_equal. apply map_ext. intros seq.
    simpl in Hlen. rewrite <- Hlen in Hlw.
    destruct (log_component_weights m) as [|l [|l' lw]] eqn:Hl;
      try discriminate Hlw.
    assert (Hl0 : l = Fin 0).
    { unfold _get_component_weights in Hsum. rewrite Hl in Hsum.
      unfold vexp, fsum in Hsum. simpl in Hsum.
      destruct l as [y| | |]; simpl in Hsum; try discriminate Hsum.
      - injection Hsum as Hsum. f_equal.
        apply exp_inv. rewrite exp_0. lra.
      - injection Hsum as Hsum. lra. }
    subst l. unfold joint. simpl. apply logsumexp_single.
Qed.

(** ** The EM loop *)

(** A [break] in iteration [i] comes after [i - i0] full rounds, the
    expectation step of iteration [i] having run on the instance those
    rounds produced. *)
Lemma em_loop_converged (cls : MixHMMClass) (obs : dataset) (todo : nat) :
  forall (i0 : nat) (logprob : list F) (w w' : world) (i : nat),
    em_loop cls obs todo i0 logprob w = (Ok (Converged i), w') ->
    (i0 <= i < i0 + todo)%nat
    /\ (0 < i)%nat
    /\ em_rounds cls obs (i - i0) w = (Ok tt, w')
    /\ exists stats lp, expectation cls (self w') obs = Ok (stats, lp).
Proof.
  induction todo as [|todo IH]; intros i0 logprob w w' i H.
  - simpl in H. unfold ret in H. discriminate H.
  - destruct w as [m g].
    simpl in H. unfold bindM at 1 in H. unfold get_self at 1 in H.
    simpl self in H.
    unfold bindM at 1 in H. unfold lift at 1 in H.
    destruct (expectation cls m obs) as [[stats lp]|e] eqn:HE;
      [|discriminate H].
    match type of H with
    | (if ?c then _ else _) _ = _ => destruct c eqn:Hc
    end.
    + (* the convergence check breaks out of the loop *)
      unfold ret in H. injection H as Hi Hw. subst i w'.
      apply andb_prop in Hc. destruct Hc as [Hpos _].
      apply Nat.ltb_lt in Hpos.
      rewrite Nat.sub_diag.
      split; [lia|]. split; [exact Hpos|]. split; [reflexivity|].
      exists stats, lp. exact HE.
    + (* the maximization step runs and the loop goes on *)
      unfold bindM at 1 in H.
      destruct (_do_mstep stats (params m) (mkWorld m g)) as [[u|e] w1]
        eqn:HM; [|discriminate H].
      apply IH in H. destruct H as [Hrange [Hpos [Hrounds Hlast]]].
      split; [lia|]. split; [exact Hpos|]. split; [|exact Hlast].
      replace (i - i0)%nat with (S (i - S i0)) by lia.
      simpl. unfold bindM at 1. unfold get_self at 1. simpl self.
      unfold bindM at 1. unfold lift at 1. rewrite HE.
      unfold bindM at 1. rewrite HM. exact Hrounds.
Qed.

(** The last of [j + 1] rounds: its expectation step and its
    maximization step. *)
Lemma em_rounds_last (cls : MixHMMClass) (obs : dataset) (j : nat) :
  forall (w w' : world),
    em_rounds cls obs (S j) w = (Ok tt, w') ->
    exists w1 stats lp,
      em_rounds cls obs j w = (Ok tt, w1)
      /\ expectation cls (self w1) obs = Ok (stats, lp)
      /\ _do_mstep stats (params (self w1)) w1 = (Ok tt, w').
Proof.
  induction j as [|j IH]; intros w w' H.
  - destruct w as [m g].
    cbn [em_rounds] in H. unfold bindM at 1 in H. unfold get_self at 1 in H.
    simpl self in H.
    unfold bindM at 1 in H. unfold lift at 1 in H.
    destruct (expectation cls m obs) as [[stats lp]|e] eqn:HE;
      [|discriminate H].
    unfold bindM at 1 in H.
    destruct (_do_mstep stats (params m) (mkWorld m g)) as [[u|e] w1]
      eqn:HM; [|discriminate H].
    unfold ret in H. injection H as Hw. subst w1. destruct u.
    exists (mkWorld m g), stats, lp.
    split; [reflexivity|]. split; [exact HE | exact HM].
  - destruct w as [m g].
    remember (S j) as j1 eqn:Hj1.
    cbn [em_rounds] in H. unfold bindM at 1 in H. unfold get_self at 1 in H.
    simpl self in H.
    unfold bindM at 1 in H. unfold lift at 1 in H.
    destruct (expectation cls m obs) as [[stats lp]|e] eqn:HE;
      [|discriminate H].
    unfold bindM at 1 in H.
    destruct (_do_mstep stats (params m) (mkWorld m g)) as [[u|e] w1]
      eqn:HM; [|discriminate H].
    subst j1. apply IH in H.
    destruct H as [w2 [stats2 [lp2 [Hrounds [HE2 HM2]]]]].
    exists w2, stats2, lp2.
    split; [|split; [exact HE2 | exact HM2]].
    cbn [em_rounds]. unfold bindM at 1. unfold get_self at 1. simpl self.
    unfold bindM at 1. unfold lift at 1. rewrite HE.
    unfold bindM at 1. rewrite HM. exact Hrounds.
Qed.

(** C10.  When [fit] ends through the [break] of the convergence check
    in iteration [i], then [i > 0] and the maximization step is not run
    in iteration [i]: the instance [fit] returns is the one the
    maximization step of iteration [i - 1] produced, after the
    initialization and [i - 1] earlier rounds of expectation and
    maximization.  The expectation step of iteration [i] has run on it
    and left it as it was. *)
Theorem fit_converged_returns_last_mstep (cls : MixHMMClass)
  (obs : dataset) (w w' : world) (i : nat) :
  fit cls obs w = (Ok (Converged i), w') ->
  (0 < i)%nat
  /\ exists w0 w1 stats1 lp1,
       cls_init cls obs (init_params (self w)) w = (Ok tt, w0)
       /\ (i < n_iter (self w0))%nat
       /\ em_rounds cls obs (i - 1) w0 = (Ok tt, w1)
       /\ expectation cls (self w1) obs = Ok (stats1, lp1)
       /\ _do_mstep stats1 (params (self w1)) w1 = (Ok tt, w')
       /\ exists stats lp, expectation cls (self w') obs = Ok (stats, lp).
Proof.
  intros H. destruct w as [m g].
  unfold fit in H. unfold bindM at 1 in H. unfold get_self at 1 in H.
  simpl self in H. unfold bindM at 1 in H.
  destruct (cls_init cls obs (init_params m) (mkWorld m g)) as [[u|e] w0]
    eqn:Hinit; [|discriminate H].
  unfold bindM at 1 in H. unfold get_self at 1 in H.
  apply em_loop_converged in H.
  destruct H as [Hrange [Hpos [Hrounds Hlast]]].
  rewrite Nat.sub_0_r in Hrounds.
  split; [exact Hpos|].
  destruct i as [|j]; [lia|].
  apply em_rounds_last in Hrounds.
  destruct Hrounds as [w1 [stats1 [lp1 [Hrounds [HE HM]]]]].
  exists w0, w1, stats1, lp1. destruct u. simpl self.
  split; [exact Hinit|]. split; [lia|].
  replace (S j - 1)%nat with j by lia.
  split; [exact Hrounds|]. split; [exact HE|].
  split; [exact HM | exact Hlast].
Qed.

(** ** Item assignment *)

Lemma index_Some {A : Type} (l : list A) (k : nat) (x : A) :
  nth_error l k = Some x -> index l k = Ok x.
Proof. intros H. unfold index. rewrite H. reflexivity. Qed.

Lemma set_item_in_range {A : Type} (l : list A) (k : nat) (v : A) :
  (k < length l)%nat ->
  set_item l k v = Ok (firstn k l ++ v :: skipn (S k) l).
Proof.
  intros H. unfold set_item.
  apply Nat.ltb_lt in H. rewrite H. reflexivity.
Qed.

Lemma nth_error_set_same {A : Type} (l : list A) (k : nat) (v : A) :
  (k < length l)%nat ->
  nth_error (firstn k l ++ v :: skipn (S k) l) k = Some v.
Proof.
  intros H. rewrite nth_error_app2; rewrite length_firstn, Nat.min_l by lia.
  - rewrite Nat.sub_diag. reflexivity.
  - lia.
Qed.

Lemma nth_error_set_other {A : Type} (l : list A) (k j : nat) (v : A) :
  (k < length l)%nat -> j <> k ->
  nth_error (firstn k l ++ v :: skipn (S k) l) j = nth_error l j.
Proof.
  intros H Hj.
  rewrite <- (firstn_skipn k l) at 3.
  destruct (Nat.lt_ge_cases j k) as [Hlt|Hge].
  - rewrite !nth_error_app1 by (rewrite length_firstn; lia). reflexivity.
  - rewrite !nth_error_app2 by (rewrite length_firstn; lia).
    rewrite length_firstn, Nat.min_l by lia.
    destruct (j - k)%nat as [|d] eqn:Hd; [lia|].
    simpl.
    assert (Hs : skipn k l = nth k l v :: skipn (S k) l).
    { clear Hj Hge Hd. revert k H.
      induction l as [|a l IH]; intros k H; simpl in H; [lia|].
      destruct k as [|k]; [reflexivity|].
      simpl. rewrite (IH k) by lia. reflexivity. }
    rewrite Hs. reflexivity.
Qed.

Lemma length_set {A : Type} (l : list A) (k : nat) (v : A) :
  (k < length l)%nat ->
  length (firstn k l ++ v :: skipn (S k) l) = length l.
Proof.
  intros H. rewrite length_app, length_firstn. cbn [length].
  rewrite length_skipn. lia.
Qed.

(** ** Inner statistics *)

Lemma fsum_zeros (n : nat) : exists z, fsum (zeros n) = Fin z /\ z = 0%R.
Proof.
  induction n as [|n [z [Hz Hz0]]].
  - exists 0%R. split; reflexivity.
  - exists (0 + z)%R. split.
    + unfold zeros, fsum in *. simpl. rewrite Hz. reflexivity.
    + lra.
Qed.

(** The posterior row of a frame of finite log-likelihood is a
    probability vector. *)
Lemma posteriors_row_sums_to_one (gamma_t : vec) :
  is_fin (logsumexp gamma_t) = true ->
  fsum (posteriors_row gamma_t) = Fin 1
  /\ posteriors_row gamma_t <> zeros (length gamma_t).
Proof.
  intros Hfin.
  assert (Hsum : fsum (posteriors_row gamma_t) = Fin 1).
  { pose proof (log_normalize_sums_to_one gamma_t Hfin) as H.
    unfold vexp, log_normalize in H. rewrite map_map in H. exact H. }
  split; [exact Hsum|].
  intros Hz. rewrite Hz in Hsum.
  destruct (fsum_zeros (length gamma_t)) as [z [Hz1 Hz0]].
  rewrite Hz1 in Hsum. injection Hsum as Hsum. lra.
Qed.

(** C8.  With ['h'] in [params], the inner accumulation of a sequence of
    length one, for component [k] (an index of the inner statistics, with
    [start[k]] as long as the posterior row): the call returns; the
    [trans] statistics of every component are as they were; [start[k]]
    has grown by the posterior row of time [0], every other
    [start[j]] is as it was; and that row, the frame having a finite
    log-likelihood, sums to one and is not the zero vector. *)
Theorem length_one_sequence_inner_statistics (m : MixHMM)
  (stats : InnerStats) (seq : ndarray) (framelogprob fwdlattice bwdlattice : mat)
  (gamma_0 : vec) (params : string) (k : nat) (curr_logprob c : F)
  (start_k : vec) :
  char_in "h" params = true ->
  length framelogprob = 1%nat ->
  nth_error (inner_component_weights stats) k = Some c ->
  nth_error (inner_start stats) k = Some start_k ->
  length start_k = length gamma_0 ->
  is_fin (logsumexp gamma_0) = true ->
  exists stats',
    Base_accumulate_inner_sufficient_statistics m stats seq framelogprob
      (posteriors_of [gamma_0]) fwdlattice bwdlattice params k curr_logprob
    = Ok stats'
    /\ inner_trans stats' = inner_trans stats
    /\ nth_error (inner_start stats') k
       = Some (map2 fadd start_k (posteriors_row gamma_0))
    /\ (forall j, j <> k ->
                  nth_error (inner_start stats') j
                  = nth_error (inner_start stats) j)
    /\ fsum (posteriors_row gamma_0) = Fin 1
    /\ posteriors_row gamma_0 <> zeros (length gamma_0).
Proof.
  intros Hh HT Hc Hs Hlen Hfin.
  assert (Hkc : (k < length (inner_component_weights stats))%nat).
  { apply nth_error_Some. rewrite Hc. discriminate. }
  assert (Hks : (k < length (inner_start stats))%nat).
  { apply nth_error_Some. rewrite Hs. discriminate. }
  destruct (posteriors_row_sums_to_one gamma_0 Hfin) as [Hsum Hnz].
  eexists.
  split.
  - unfold Base_accumulate_inner_sufficient_statistics.
    rewrite (index_Some _ _ Hc). cbn [bind].
    rewrite (set_item_in_range _ _ Hkc). cbn [bind].
    rewrite Hh. cbn [inner_start inner_component_weights inner_trans
                     inner_obs].
    rewrite (index_Some _ _ Hs). cbn [bind].
    unfold posteriors_of. cbn [map index nth_error bind].
    rewrite iadd_same_length
      by (unfold posteriors_row; rewrite length_map; exact Hlen).
    cbn [bind].
    rewrite (set_item_in_range _ _ Hks). cbn [bind].
    rewrite HT. cbn [Nat.ltb Nat.leb].
    reflexivity.
  - cbn [inner_trans inner_start].
    split; [reflexivity|].
    split; [apply nth_error_set_same; exact Hks|].
    split; [|split; [exact Hsum | exact Hnz]].
    intros j Hj. apply nth_error_set_other; assumption.
Qed.

(** ** Sorting and contiguity *)

Lemma insert_perm (x : Z) (l : list Z) : Permutation (insert x l) (x :: l).
Proof.
  induction l as [|y l IH]; simpl; [apply Permutation_refl|].
  destruct (x <=? y)%Z; [apply Permutation_refl|].
  apply perm_trans with (y :: x :: l).
  - apply perm_skip. exact IH.
  - apply perm_swap.
Qed.

Lemma sort_perm (l : list Z) : Permutation (sort l) l.
Proof.
  induction l as [|x l IH]; simpl; [apply perm_nil|].
  apply perm_trans with (x :: sort l).
  - apply insert_perm.
  - apply perm_skip. exact IH.
Qed.

Lemma insert_sorted (x : Z) (l : list Z) :
  Sorted Z.le l -> Sorted Z.le (insert x l).
Proof.
  induction l as [|y l IH]; intros Hs; simpl.
  - repeat constructor.
  - destruct (x <=? y)%Z eqn:Hxy.
    + apply Z.leb_le in Hxy. constructor; [exact Hs|].
      constructor. exact Hxy.
    + apply Z.leb_gt in Hxy.
      inversion Hs as [|? ? Hl Hhd]; subst.
      constructor; [apply IH; exact Hl|].
      destruct l as [|z l]; simpl.
      * constructor. lia.
      * destruct (x <=? z)%Z; constructor; [lia|].
        inversion Hhd; subst. assumption.
Qed.

Lemma sort_sorted (l : list Z) : Sorted Z.le (sort l).
Proof.
  induction l as [|x l IH]; simpl; [constructor|].
  apply insert_sorted. exact IH.
Qed.

Lemma sorted_head_least (a : Z) (l : list Z) :
  Sorted Z.le (a :: l) -> forall x, In x l -> (a <= x)%Z.
Proof.
  intros Hs x Hx.
  apply Sorted_StronglySorted in Hs; [|intros p q r; apply Z.le_trans].
  inversion Hs as [|? ? _ Hall]; subst.
  rewrite Forall_forall in Hall. apply Hall. exact Hx.
Qed.

(** On a sorted array, [np.any(np.diff(symbols) > 1)] is false exactly
    when no integer is missing. *)
Lemma sorted_no_gap_contiguous (l : list Z) :
  Sorted Z.le l ->
  existsb (fun d => (1 <? d)%Z) (diff l) = false <-> contiguous l.
Proof.
  induction l as [|a l IH]; intros Hs.
  - split; [|reflexivity]. intros _ x y z Hx. destruct Hx.
  - inversion Hs as [|? ? Hl Hhd]; subst.
    destruct l as [|b l'].
    + split; [|reflexivity].
      intros _ x y z [Hx|[]] [Hz|[]] Hy. left. lia.
    + specialize (IH Hl).
      assert (Hab : (a <= b)%Z) by (inversion Hhd; assumption).
      pose proof (sorted_head_least Hs) as Hleast.
      pose proof (sorted_head_least Hl) as Hleast'.
      change (diff (a :: b :: l')) with ((b - a)%Z :: diff (b :: l')).
      cbn [existsb]. rewrite Bool.orb_false_iff.
      split.
      * intros [Hgap Hrest].
        apply Z.ltb_ge in Hgap.
        apply IH in Hrest.
        intros x y z Hx Hz Hy.
        destruct (Z.eq_dec y a) as [->|Hya]; [left; reflexivity|].
        right.
        assert (Hxa : (a <= x)%Z).
        { destruct Hx as [<-|Hx]; [lia | apply Hleast; exact Hx]. }
        assert (Hzl : In z (b :: l')).
        { destruct Hz as [<-|Hz]; [lia | exact Hz]. }
        apply (Hrest b y z); [left; reflexivity | exact Hzl | lia].
      * intros Hc. split.
        -- apply Z.ltb_ge.
           destruct (Z_le_gt_dec (b - a) 1) as [Hle|Hgt]; [exact Hle|].
           exfalso.
           assert (Hin : In (a + 1)%Z (a :: b :: l')).
           { apply (Hc a (a + 1)%Z b);
               [left; reflexivity | right; left; reflexivity | lia]. }
           destruct Hin as [Hin|[Hin|Hin]]; [lia | lia |].
           specialize (Hleast' _ Hin). lia.
        -- apply IH.
           intros x y z Hx Hz Hy.
           assert (Hin : In y (a :: b :: l')).
           { apply (Hc x y z); [right; exact Hx | right; exact Hz | exact Hy]. }
           destruct Hin as [Hin|Hin]; [|exact Hin].
           subst y.
           assert (Hxb : (b <= x)%Z).
           { destruct Hx as [<-|Hx]; [lia | apply Hleast'; exact Hx]. }
           assert (x = a) by lia. subst x. exact Hx.
Qed.

Lemma contiguous_perm (l l' : list Z) :
  Permutation l l' -> contiguous l -> contiguous l'.
Proof.
  intros Hp Hc x y z Hx Hz Hy.
  apply (Permutation_in _ Hp).
  apply (Hc x y z); [| |exact Hy];
    apply (Permutation_in _ (Permutation_sym Hp)); assumption.
Qed.

Lemma sort_no_gap_contiguous (l : list Z) :
  existsb (fun d => (1 <? d)%Z) (diff (sort l)) = false <-> contiguous l.
Proof.
  rewrite (sorted_no_gap_contiguous (sort_sorted l)).
  split; apply contiguous_perm;
    [apply sort_perm | apply Permutation_sym; apply sort_perm].
Qed.

Lemma no_negative_Forall (l : list Z) :
  existsb (fun x => (x <? 0)%Z) l = false
  <-> Forall (fun x => (0 <= x)%Z) l.
Proof.
  induction l as [|x l IH]; simpl.
  - split; [constructor | reflexivity].
  - rewrite Bool.orb_false_iff, IH, Z.ltb_ge. split.
    + intros [Hx Hl]. constructor; assumption.
    + intros H. inversion H; subst. split; assumption.
Qed.

(** ** The input check *)

Lemma fold_concatenate_float (rest : dataset) (a : list F) :
  exists b, fold_left concatenate rest (FloatArray a) = FloatArray b.
Proof.
  revert a. induction rest as [|x rest IH]; intros a; simpl.
  - exists a. reflexivity.
  - destruct x; apply IH.
Qed.

Lemma fold_concatenate_int (rest : dataset) (a : list Z) :
  match all_symbols rest with
  | Some s => fold_left concatenate rest (IntArray a) = IntArray (a ++ s)
  | None => exists b, fold_left concatenate rest (IntArray a) = FloatArray b
  end.
Proof.
  revert a. induction rest as [|x rest IH]; intros a; simpl.
  - rewrite app_nil_r. reflexivity.
  - destruct x as [c|c]; simpl.
    + specialize (IH (a ++ c)).
      destruct (all_symbols rest) as [s|].
      * rewrite IH, <- app_assoc. reflexivity.
      * exact IH.
    + apply fold_concatenate_float.
Qed.

Lemma reduce_concatenate_symbols (obs : dataset) :
  obs <> [] ->
  match all_symbols obs with
  | Some s => reduce_concatenate obs = Ok (IntArray s)
  | None => exists b, reduce_concatenate obs = Ok (FloatArray b)
  end.
Proof.
  intros Hne. destruct obs as [|x rest]; [contradiction|].
  destruct x as [a|a]; simpl.
  - pose proof (fold_concatenate_int rest a) as H.
    destruct (all_symbols rest) as [s|].
    + rewrite H. reflexivity.
    + destruct H as [b H]. exists b. rewrite H. reflexivity.
  - destruct (fold_concatenate_float rest a) as [b H].
    exists b. rewrite H. reflexivity.
Qed.

(** What [_check_input_symbols] answers, and how it leaves the
    dataset. *)
Lemma check_input_symbols_spec (obs : dataset) :
  obs <> [] ->
  exists b obs',
    _check_input_symbols obs = Ok (b, obs')
    /\ (b = true <-> multinomial_precondition obs /\ ~ single_symbol obs)
    /\ (obs' = obs
        \/ exists s, obs = [IntArray s] /\ obs' = [IntArray (sort s)]).
Proof.
  intros Hne.
  pose proof (reduce_concatenate_symbols Hne) as Hred.
  unfold _check_input_symbols.
  destruct (all_symbols obs) as [s|] eqn:Hall.
  - rewrite Hred. cbn [bind].
    destruct (length s =? 1)%nat eqn:Hone.
    + exists false, obs. split; [reflexivity|]. split; [|left; reflexivity].
      split; [discriminate|].
      intros [_ Hns]. exfalso. apply Hns.
      apply Nat.eqb_eq in Hone.
      destruct s as [|x [|y s]]; try discriminate Hone.
      exists x. exact Hall.
    + assert (Hns : ~ single_symbol obs).
      { intros [x Hx]. rewrite Hall in Hx. injection Hx as Hx. subst s.
        discriminate Hone. }
      destruct (existsb (fun x => (x <? 0)%Z) s) eqn:Hneg.
      * exists false, obs. split; [reflexivity|].
        split; [|left; reflexivity].
        split; [discriminate|].
        intros [[s' [Hs' [Hpos _]]] _].
        rewrite Hall in Hs'. injection Hs' as <-.
        apply no_negative_Forall in Hpos. congruence.
      * apply no_negative_Forall in Hneg.
        assert (Hobs' :
                  match obs with [_] => [IntArray (sort s)] | _ => obs end
                  = obs
                  \/ exists s0, obs = [IntArray s0]
                                /\ match obs with
                                   | [_] => [IntArray (sort s)]
                                   | _ => obs
                                   end = [IntArray (sort s0)]).
        { destruct obs as [|x [|y rest]]; [left; reflexivity | | left; reflexivity].
          right. destruct x as [a|a]; simpl in Hall; [|discriminate Hall].
          injection Hall as Hall. rewrite app_nil_r in Hall. subst a.
          exists s. split; reflexivity. }
        destruct (existsb (fun d => (1 <? d)%Z) (diff (sort s))) eqn:Hgap.
        -- eexists false, _. split; [reflexivity|].
           split; [|exact Hobs'].
           split; [discriminate|].
           intros [[s' [Hs' [_ Hc]]] _].
           rewrite Hall in Hs'. injection Hs' as <-.
           apply sort_no_gap_contiguous in Hc. congruence.
        -- eexists true, _. split; [reflexivity|].
           split; [|exact Hobs'].
           split; [|reflexivity].
           intros _. split; [|exact Hns].
           exists s. split; [exact Hall|]. split; [exact Hneg|].
           apply sort_no_gap_contiguous. exact Hgap.
  - destruct Hred as [b Hred]. rewrite Hred. cbn [bind].
    exists false, obs. split; [reflexivity|]. split; [|left; reflexivity].
    split; [discriminate|].
    intros [[s [Hs _]] _]. rewrite Hall in Hs. discriminate Hs.
Qed.

(** ** No other exception echoes the dataset

    Past its input check, [fit] raises nothing that could be taken for
    the [ValueError] of the check. *)

Lemma clean_bind {A B : Type} (m : res A) (k : A -> res B) :
  clean m -> (forall a, clean (k a)) -> clean (bind m k).
Proof. intros Hm Hk. destruct m; simpl; [apply Hk | exact Hm]. Qed.

Lemma cleanM_bind {A B : Type} (m : M world A) (k : A -> M world B) :
  cleanM m -> (forall a, cleanM (k a)) -> cleanM (bindM m k).
Proof.
  intros Hm Hk w. unfold bindM. specialize (Hm w).
  destruct (m w) as [[a|e] w1]; simpl in *; [apply Hk | exact Hm].
Qed.

Lemma cleanM_lift {A : Type} (r : res A) : clean r -> cleanM (lift r).
Proof. intros H w. exact H. Qed.

Lemma cleanM_ret {A : Type} (a : A) : cleanM (ret a).
Proof. intros w. exact I. Qed.

Lemma cleanM_throw {A : Type} (e : exn) :
  not_input_error e -> cleanM (@throw world A e).
Proof. intros H w. exact H. Qed.

Lemma cleanM_get_self : cleanM get_self.
Proof. intros w. exact I. Qed.

Lemma cleanM_put_self (m : MixHMM) : cleanM (put_self m).
Proof. intros w. exact I. Qed.

Lemma cleanM_np_random_draw {A : Type}
  (draw : RandomState -> A * RandomState) : cleanM (np_random_draw draw).
Proof. intros w. unfold np_random_draw. destruct (draw _). exact I. Qed.

Lemma clean_mapM {A B : Type} (f : A -> res B) (l : list A) :
  (forall a, clean (f a)) -> clean (mapM f l).
Proof.
  intros H. induction l as [|a l IH]; simpl; [exact I|].
  apply clean_bind; [apply H|]. intros b.
  apply clean_bind; [exact IH|]. intros bs. exact I.
Qed.

Lemma clean_mapM2 {A B C : Type} (f : A -> B -> res C) (la : list A)
  (lb : list B) :
  (forall a b, clean (f a b)) -> clean (mapM2 f la lb).
Proof.
  intros H. revert lb.
  induction la as [|a la IH]; intros [|b lb]; simpl; try exact I.
  apply clean_bind; [apply H|]. intros c.
  apply clean_bind; [apply IH|]. intros cs. exact I.
Qed.

Ltac clean_res :=
  repeat first
    [ exact I
    | assumption
    | apply clean_bind; [|intros; cbv beta]
    | apply clean_mapM; intros; cbv beta
    | apply clean_mapM2; intros; cbv beta
    | match goal with
      | |- clean (if ?b then _ else _) => destruct b
      | |- clean (match ?x with _ => _ end) => destruct x
      end
    | solve [auto with clean]
    | progress (unfold vec, mat) ].

Ltac clean_M :=
  repeat first
    [ apply cleanM_ret
    | apply cleanM_get_self
    | apply cleanM_put_self
    | apply cleanM_np_random_draw
    | apply cleanM_throw; exact I
    | apply cleanM_lift; clean_res
    | apply cleanM_bind; [|intros]
    | assumption
    | match goal with
      | |- cleanM (if ?b then _ else _) => destruct b
      | |- cleanM (match ?x with _ => _ end) => destruct x
      end
    | solve [auto with clean]
    | progress (lazy zeta) ].

Create HintDb clean.

Lemma clean_index {A : Type} (l : list A) (i : nat) : clean (index l i).
Proof. unfold index. clean_res. Qed.

Lemma clean_index_last {A : Type} (l : list A) : clean (index_last l).
Proof. unfold index_last. clean_res. Qed.

Lemma clean_set_item {A : Type} (l : list A) (i : nat) (v : A) :
  clean (set_item l i v).
Proof. unfold set_item. clean_res. Qed.

Lemma clean_broadcast_to {A : Type} (n : nat) (b : list A) :
  clean (broadcast_to n b).
Proof. unfold broadcast_to. clean_res. Qed.

#[local] Hint Resolve clean_index clean_index_last clean_set_item
  clean_broadcast_to : clean.

Lemma clean_iadd (a b : vec) : clean (iadd a b).
Proof. unfold iadd. clean_res. Qed.

#[local] Hint Resolve clean_iadd : clean.

Lemma clean_iadd2 (a b : mat) : clean (iadd2 a b).
Proof. unfold iadd2. clean_res. Qed.

Lemma clean_bzip {A B : Type} (f : A -> A -> res B) (a b : list A) :
  (forall x y, clean (f x y)) -> clean (bzip f a b).
Proof. intros H. unfold bzip. clean_res; apply H. Qed.

Lemma clean_add (a b : vec) : clean (add a b).
Proof. unfold add. apply clean_bzip. intros x y. exact I. Qed.

Lemma clean_add2 (a b : mat) : clean (add2 a b).
Proof. unfold add2. apply clean_bzip. apply clean_add. Qed.

Lemma clean_get_hmms (m : MixHMM) : clean (get_hmms m).
Proof. unfold get_hmms. clean_res. Qed.

#[local] Hint Resolve clean_iadd2 clean_add clean_add2 clean_get_hmms
  : clean.

Lemma clean_compute_log_likelihood (m : MixHMM) (obs : ndarray) :
  clean (_compute_log_likelihood m obs).
Proof. unfold _compute_log_likelihood. clean_res. Qed.

Lemma clean_initialize_sufficient_statistics (m : MixHMM) :
  clean (_initialize_sufficient_statistics m).
Proof. unfold _initialize_sufficient_statistics. clean_res. Qed.

Lemma clean_Base_initialize_inner (m : MixHMM) :
  clean (Base_initialize_inner_sufficient_statistics m).
Proof. unfold Base_initialize_inner_sufficient_statistics. clean_res. Qed.

#[local] Hint Resolve clean_compute_log_likelihood
  clean_initialize_sufficient_statistics clean_Base_initialize_inner
  : clean.

Lemma clean_Multinomial_initialize_inner (m : MixHMM) :
  clean (Multinomial_initialize_inner_sufficient_statistics m).
Proof.
  unfold Multinomial_initialize_inner_sufficient_statistics. clean_res.
Qed.

Lemma clean_compute_lneta (n_observations n_states : nat)
  (fwd a bwd fl : mat) (lnP : F) :
  clean (_compute_lneta n_observations n_states fwd a bwd fl lnP).
Proof. unfold _compute_lneta. clean_res. Qed.

#[local] Hint Resolve clean_compute_lneta : clean.

Lemma clean_Base_accumulate_inner (m : MixHMM) (stats : InnerStats)
  (seq : ndarray) (fl p fwd bwd : mat) (params : string) (k : nat)
  (c : F) :
  clean (Base_accumulate_inner_sufficient_statistics m stats seq fl p fwd
           bwd params k c).
Proof. unfold Base_accumulate_inner_sufficient_statistics. clean_res. Qed.

Lemma clean_column_index (n : nat) (symbol : Z) :
  clean (column_index n symbol).
Proof. unfold column_index. clean_res. Qed.

#[local] Hint Resolve clean_Base_accumulate_inner clean_column_index
  : clean.

Lemma clean_iadd_column (a : mat) (symbol : Z) (v : vec) :
  clean (iadd_column a symbol v).
Proof. unfold iadd_column. clean_res. Qed.

#[local] Hint Resolve clean_iadd_column : clean.

Lemma clean_accumulate_symbols (posteriors : mat) (symbols : list Z) :
  forall (obs_k : mat) (t : nat),
    clean (accumulate_symbols obs_k posteriors t symbols).
Proof.
  induction symbols as [|s symbols IH]; intros obs_k t; simpl;
    [exact I|].
  clean_res; try apply IH.
Qed.

#[local] Hint Resolve clean_accumulate_symbols : clean.

Lemma clean_Multinomial_accumulate_inner (m : MixHMM) (stats : InnerStats)
  (seq : ndarray) (fl p fwd bwd : mat) (params : string) (k : nat)
  (c : F) :
  clean (Multinomial_accumulate_inner_sufficient_statistics m stats seq fl
           p fwd bwd params k c).
Proof.
  unfold Multinomial_accumulate_inner_sufficient_statistics. clean_res.
Qed.

Lemma clean_Base_accumulate_loop (w : vec) (inner : InnerStats)
  (ks : list nat) :
  forall hstats, clean (Base_accumulate_loop ks w inner hstats).
Proof.
  induction ks as [|k ks IH]; intros hstats; simpl; [exact I|].
  clean_res; try apply IH.
Qed.

#[local] Hint Resolve clean_Base_accumulate_loop : clean.

Lemma clean_Base_accumulate (m : MixHMM) (stats : Stats)
  (inner : InnerStats) (params : string) :
  clean (Base_accumulate_sufficient_statistics m stats inner params).
Proof.
  unfold Base_accumulate_sufficient_statistics. lazy zeta. clean_res.
Qed.

Lemma clean_Multinomial_accumulate_loop (w : vec) (inner : InnerStats)
  (ks : list nat) :
  forall hstats, clean (Multinomial_accumulate_loop ks w inner hstats).
Proof.
  induction ks as [|k ks IH]; intros hstats; simpl; [exact I|].
  clean_res; try apply IH.
Qed.

#[local] Hint Resolve clean_Base_accumulate
  clean_Multinomial_accumulate_loop : clean.

Lemma clean_Multinomial_accumulate (m : MixHMM) (stats : Stats)
  (inner : InnerStats) (params : string) :
  clean (Multinomial_accumulate_sufficient_statistics m stats inner
           params).
Proof.
  unfold Multinomial_accumulate_sufficient_statistics. lazy zeta.
  clean_res.
Qed.

Lemma clean_components_loop (cls : MixHMMClass) (m : MixHMM)
  (seq : ndarray) (fl : list mat) (todo : list HMM) :
  clean_class cls ->
  forall (k : nat) (curr : vec) (inner : InnerStats),
    clean (components_loop cls m seq fl k todo curr inner).
Proof.
  intros [_ [_ [Hacc _]]].
  induction todo as [|hmm todo IH]; intros k curr inner; simpl;
    [exact I|].
  apply clean_bind; [apply clean_index|]. intros fl_k.
  destruct (hmm_do_forward_pass hmm fl_k) as [lpr fwd].
  clean_res; first [apply Hacc | apply IH].
Qed.

Lemma clean_estep_sequence (cls : MixHMMClass) (m : MixHMM)
  (st : estep_state) (seq : ndarray) :
  clean_class cls -> clean (estep_sequence cls m st seq).
Proof.
  intros Hcls. pose proof Hcls as [_ [Hinit [_ Hfold]]].
  unfold estep_sequence.
  apply clean_bind; [apply Hinit|]. intros inner.
  apply clean_bind; [apply clean_compute_log_likelihood|]. intros fl.
  apply clean_bind; [apply clean_get_hmms|]. intros hs.
  apply clean_bind; [apply clean_components_loop; exact Hcls|].
  intros [curr inner'].
  apply clean_bind; [apply Hfold|]. intros stats. exact I.
Qed.

Lemma clean_estep_sequences (cls : MixHMMClass) (m : MixHMM)
  (obs : dataset) :
  clean_class cls ->
  forall st, clean (estep_sequences cls m st obs).
Proof.
  intros Hcls. induction obs as [|seq obs IH]; intros st; simpl;
    [exact I|].
  apply clean_bind; [apply clean_estep_sequence; exact Hcls|].
  intros st'. apply IH.
Qed.

Lemma clean_expectation (cls : MixHMMClass) (m : MixHMM) (obs : dataset) :
  clean_class cls -> clean (expectation cls m obs).
Proof.
  intros Hcls. unfold expectation.
  apply clean_bind; [apply clean_initialize_sufficient_statistics|].
  intros stats.
  apply clean_bind; [apply clean_estep_sequences; exact Hcls|].
  intros st. exact I.
Qed.

Lemma clean_prior_minus_one_plus (p : prior_value) (s : vec) :
  clean (prior_minus_one_plus p s).
Proof. unfold prior_minus_one_plus. clean_res. Qed.

#[local] Hint Resolve clean_prior_minus_one_plus : clean.

Lemma cleanM_set_component_weights (v : option vec) :
  cleanM (_set_component_weights v).
Proof. unfold _set_component_weights. clean_M. Qed.

Lemma cleanM_put_hmm (k : nat) (hmm : HMM) : cleanM (put_hmm k hmm).
Proof. unfold put_hmm. clean_M. Qed.

#[local] Hint Resolve cleanM_set_component_weights cleanM_put_hmm : clean.

Lemma cleanM_mstep_hmms (hstats : list HmmStats) (todo : list HMM) :
  forall k, cleanM (mstep_hmms k todo hstats).
Proof.
  induction todo as [|hmm todo IH]; intros k; simpl.
  - apply cleanM_ret.
  - clean_M; try apply IH.
Qed.

#[local] Hint Resolve cleanM_mstep_hmms : clean.

Lemma cleanM_do_mstep (stats : Stats) (params : string) :
  cleanM (_do_mstep stats params).
Proof. unfold _do_mstep. clean_M. Qed.

Lemma cleanM_np_random_dirichlet (alpha : option prior_value) :
  cleanM (np_random_dirichlet alpha).
Proof. unfold np_random_dirichlet. clean_M. Qed.

#[local] Hint Resolve cleanM_do_mstep cleanM_np_random_dirichlet : clean.

Lemma cleanM_Base_init (obs : dataset) (params : string) :
  cleanM (Base_init obs params).
Proof. unfold Base_init. clean_M. Qed.

Lemma cleanM_init_hmms (obs : dataset) (todo : list HMM) :
  forall k, cleanM (init_hmms k todo obs).
Proof.
  induction todo as [|hmm todo IH]; intros k; simpl.
  - apply cleanM_ret.
  - clean_M; try apply IH.
Qed.

#[local] Hint Resolve cleanM_Base_init cleanM_init_hmms : clean.

Lemma cleanM_Multinomial_init (obs : dataset) (params : string) :
  cleanM (Multinomial_init obs params).
Proof. unfold Multinomial_init. clean_M. Qed.

Lemma clean_class_Multinomial : clean_class MultinomialMixHMM.
Proof.
  repeat split; intros; simpl.
  - apply cleanM_Multinomial_init.
  - apply clean_Multinomial_initialize_inner.
  - apply clean_Multinomial_accumulate_inner.
  - apply clean_Multinomial_accumulate.
Qed.

Lemma cleanM_em_loop (cls : MixHMMClass) (obs : dataset) (todo : nat) :
  clean_class cls ->
  forall i logprob, cleanM (em_loop cls obs todo i logprob).
Proof.
  intros Hcls. induction todo as [|todo IH]; intros i logprob; simpl.
  - apply cleanM_ret.
  - apply cleanM_bind; [apply cleanM_get_self|]. intros m.
    apply cleanM_bind;
      [apply cleanM_lift; apply clean_expectation; exact Hcls|].
    intros [stats lp].
    match goal with
    | |- cleanM (if ?c then _ else _) => destruct c
    end.
    + apply cleanM_ret.
    + apply cleanM_bind; [apply cleanM_do_mstep|]. intros _. apply IH.
Qed.

Lemma cleanM_fit (cls : MixHMMClass) (obs : dataset) :
  clean_class cls -> cleanM (fit cls obs).
Proof.
  intros Hcls. unfold fit.
  apply cleanM_bind; [apply cleanM_get_self|]. intros m.
  apply cleanM_bind; [apply (proj1 Hcls)|]. intros _.
  apply cleanM_bind; [apply cleanM_get_self|]. intros m'.
  apply cleanM_em_loop. exact Hcls.
Qed.

Lemma multinomial_precondition_nil : multinomial_precondition [].
Proof.
  exists []. split; [reflexivity|]. split; [constructor|].
  intros x y z Hx. destruct Hx.
Qed.


(** ** The expectation step of one sequence *)

Lemma index_Ok_inv {A : Type} (l : list A) (k : nat) (x : A) :
  index l k = Ok x -> nth_error l k = Some x.
Proof.
  unfold index. destruct (nth_error l k); intros H;
    [injection H as ->; reflexivity | discriminate H].
Qed.

Lemma set_item_Ok_inv {A : Type} (l l' : list A) (k : nat) (v : A) :
  set_item l k v = Ok l' ->
  (k < length l)%nat /\ l' = firstn k l ++ v :: skipn (S k) l.
Proof.
  unfold set_item. destruct (k <? length l)%nat eqn:Hk; intros H;
    [|discriminate H].
  apply Nat.ltb_lt in Hk. injection H as <-. split; [exact Hk | reflexivity].
Qed.

Ltac inv_res H :=
  repeat match type of H with
         | bind ?m _ = Ok _ =>
             let E := fresh "E" in
             destruct m eqn:E; cbn [bind] in H; [|discriminate H]
         | (if ?b then _ else _) = Ok _ => destruct b
         | match ?x with _ => _ end = Ok _ => destruct x
         | Ok _ = Ok _ => injection H as H
         | Raise _ = Ok _ => discriminate H
         end.

(** The inner accumulation of component [k] adds [curr_logprob] to
    [stats['component_weights'][k]] and leaves the other entries. *)
Lemma Base_accumulate_inner_component_weights (m : MixHMM)
  (stats stats' : InnerStats) (seq : ndarray) (fl p fwd bwd : mat)
  (params : string) (k : nat) (c : F) :
  Base_accumulate_inner_sufficient_statistics m stats seq fl p fwd bwd
    params k c = Ok stats' ->
  exists c0,
    nth_error (inner_component_weights stats) k = Some c0
    /\ inner_component_weights stats'
       = firstn k (inner_component_weights stats)
         ++ fadd c0 c :: skipn (S k) (inner_component_weights stats).
Proof.
  intros H. unfold Base_accumulate_inner_sufficient_statistics in H.
  destruct (index (inner_component_weights stats) k) as [c0|] eqn:Hc0;
    cbn [bind] in H; [|discriminate H].
  destruct (set_item (inner_component_weights stats) k (fadd c0 c))
    as [cw|] eqn:Hcw; cbn [bind] in H; [|discriminate H].
  apply index_Ok_inv in Hc0. apply set_item_Ok_inv in Hcw.
  destruct Hcw as [_ Hcw].
  exists c0. split; [exact Hc0|]. rewrite <- Hcw.
  cbn [inner_start inner_trans inner_obs inner_component_weights] in H.
  inv_res H; subst stats'; reflexivity.
Qed.

Lemma Multinomial_accumulate_inner_component_weights (m : MixHMM)
  (stats stats' : InnerStats) (seq : ndarray) (fl p fwd bwd : mat)
  (params : string) (k : nat) (c : F) :
  Multinomial_accumulate_inner_sufficient_statistics m stats seq fl p fwd
    bwd params k c = Ok stats' ->
  exists c0,
    nth_error (inner_component_weights stats) k = Some c0
    /\ inner_component_weights stats'
       = firstn k (inner_component_weights stats)
         ++ fadd c0 c :: skipn (S k) (inner_component_weights stats).
Proof.
  intros H. unfold Multinomial_accumulate_inner_sufficient_statistics in H.
  destruct (Base_accumulate_inner_sufficient_statistics m stats seq fl p
              fwd bwd params k c) as [stats1|] eqn:Hbase;
    cbn [bind] in H; [|discriminate H].
  apply Base_accumulate_inner_component_weights in Hbase.
  destruct Hbase as [c0 [Hc0 Hcw]].
  exists c0. split; [exact Hc0|]. rewrite <- Hcw.
  inv_res H; subst stats'; reflexivity.
Qed.

(** The loop over the components: when it finishes, [curr_logprob[j]]
    and the inner [component_weights[j]] of every component [j] it went
    through hold the forward log-likelihood of the sequence under
    [hmms[j]] plus the log weight of [j]. *)
Lemma components_loop_joint (cls : MixHMMClass) (m : MixHMM)
  (seq : ndarray) (hs : list HMM) :
  (forall stats stats' fl p fwd bwd params k c,
      cls_accumulate_inner_sufficient_statistics cls m stats seq fl p fwd
        bwd params k c = Ok stats' ->
      exists c0,
        nth_error (inner_component_weights stats) k = Some c0
        /\ inner_component_weights stats'
           = firstn k (inner_component_weights stats)
             ++ fadd c0 c :: skipn (S k) (inner_component_weights stats)) ->
  forall (todo done : list HMM) (curr : vec) (inner : InnerStats)
         (curr' : vec) (inner' : InnerStats),
    hs = done ++ todo ->
    components_loop cls m seq
      (map (fun h => hmm_compute_log_likelihood h seq) hs)
      (length done) todo curr inner = Ok (curr', inner') ->
    forall j,
      ((j < length done \/ length hs <= j)%nat ->
       nth_error curr' j = nth_error curr j
       /\ nth_error (inner_component_weights inner') j
          = nth_error (inner_component_weights inner) j)
      /\ ((length done <= j < length hs)%nat ->
          exists c0 h lw_j,
            nth_error (inner_component_weights inner) j = Some c0
            /\ nth_error hs j = Some h
            /\ nth_error (log_component_weights m) j = Some lw_j
            /\ nth_error curr' j = Some (fadd (forward_loglik h seq) lw_j)
            /\ nth_error (inner_component_weights inner') j
               = Some (fadd c0 (fadd (forward_loglik h seq) lw_j))).
Proof.
  intros Hcls.
  induction todo as [|h todo IH];
    intros done curr inner curr' inner' Hhs H j.
  - simpl in H. injection H as <- <-.
    rewrite app_nil_r in Hhs. subst hs.
    split; [intros _; split; reflexivity | intros Hj; lia].
  - cbn [components_loop] in H.
    assert (Hk : nth_error hs (length done) = Some h).
    { subst hs. rewrite nth_error_app2 by lia.
      rewrite Nat.sub_diag. reflexivity. }
    assert (Hfl : index (map (fun h => hmm_compute_log_likelihood h seq) hs)
                    (length done)
                  = Ok (hmm_compute_log_likelihood h seq)).
    { apply index_Some. rewrite nth_error_map, Hk. reflexivity. }
    rewrite Hfl in H. cbn [bind] in H.
    fold (forward_loglik h seq) in H.
    destruct (hmm_do_forward_pass h (hmm_compute_log_likelihood h seq))
      as [lpr fwd] eqn:Hfwd.
    assert (Hlpr : lpr = forward_loglik h seq).
    { unfold forward_loglik. rewrite Hfwd. reflexivity. }
    destruct (add2 fwd
                (hmm_do_backward_pass h (hmm_compute_log_likelihood h seq)))
      as [gamma|] eqn:Hgamma; cbn [bind] in H; [|discriminate H].
    destruct (index (log_component_weights m) (length done)) as [lw_k|]
      eqn:Hlw; cbn [bind] in H; [|discriminate H].
    destruct (set_item curr (length done) (fadd lpr lw_k)) as [curr1|]
      eqn:Hcurr1; cbn [bind] in H; [|discriminate H].
    destruct (index curr1 (length done)) as [c_k|] eqn:Hck;
      cbn [bind] in H; [|discriminate H].
    match type of H with
    | bind ?acc _ = _ => destruct acc as [inner1|] eqn:Hacc
    end; cbn [bind] in H; [|discriminate H].
    apply index_Ok_inv in Hlw. apply index_Ok_inv in Hck.
    apply set_item_Ok_inv in Hcurr1. destruct Hcurr1 as [Hkc Hcurr1].
    apply Hcls in Hacc. destruct Hacc as [c0 [Hc0 Hcw1]].
    assert (Hkcw : (length done < length (inner_component_weights inner))%nat).
    { apply nth_error_Some. rewrite Hc0. discriminate. }
    assert (Hck' : c_k = fadd lpr lw_k).
    { rewrite Hcurr1, nth_error_set_same in Hck by exact Hkc.
      injection Hck as <-. reflexivity. }
    subst c_k.
    assert (Hlen' : length (done ++ [h]) = S (length done)).
    { rewrite length_app. simpl. lia. }
    assert (Hhs' : hs = (done ++ [h]) ++ todo).
    { rewrite <- app_assoc. exact Hhs. }
    replace (S (length done)) with (length (done ++ [h])) in H
      by exact Hlen'.
    specialize (IH (done ++ [h]) curr1 inner1 curr' inner' Hhs' H j).
    destruct IH as [IHout IHin]. rewrite Hlen' in IHout, IHin.
    assert (Hhslen : (length done < length hs)%nat).
    { apply nth_error_Some. rewrite Hk. discriminate. }
    split.
    + intros Hj.
      destruct (IHout ltac:(lia)) as [H1 H2].
      rewrite H1, H2, Hcurr1, Hcw1.
      split; apply nth_error_set_other; solve [assumption | lia].
    + intros Hj.
      destruct (Nat.eq_dec j (length done)) as [->|Hne].
      * destruct (IHout ltac:(lia)) as [H1 H2].
        exists c0, h, lw_k.
        split; [exact Hc0|]. split; [exact Hk|]. split; [exact Hlw|].
        rewrite H1, H2, Hcurr1, Hcw1, <- Hlpr.
        split; apply nth_error_set_same; assumption.
      * destruct (IHin ltac:(lia)) as [c1 [h1 [lw1 [Hc1 [Hh1 [Hlw1 [Hcu Hcw]]]]]]].
        exists c1, h1, lw1.
        rewrite Hcw1, nth_error_set_other in Hc1 by (assumption || lia).
        repeat split; assumption.
Qed.

(** ** Folding the inner statistics into the outer ones *)

Lemma same_shape2_length (a b : mat) :
  same_shape2 a b -> length a = length b.
Proof. intros H. induction H; simpl; congruence. Qed.

Lemma iadd2_same_shape (a b : mat) :
  same_shape2 a b -> iadd2 a b = Ok (map2 (map2 fadd) a b).
Proof.
  intros H. unfold iadd2, broadcast_to.
  rewrite <- (same_shape2_length H), Nat.eqb_refl. cbn [bind].
  induction H as [|r s a b Hrs Hab IH]; [reflexivity|].
  simpl. rewrite (iadd_same_length _ _ Hrs). cbn [bind].
  rewrite IH. reflexivity.
Qed.

Lemma same_shape2_scale2 (w : F) (a b : mat) :
  same_shape2 a b -> same_shape2 a (scale2 w b).
Proof.
  intros H. induction H as [|r s a b Hrs Hab IH]; simpl.
  - constructor.
  - constructor; [|exact IH].
    unfold scale. rewrite length_map. exact Hrs.
Qed.

Lemma same_shape2_map2 (a b : mat) :
  same_shape2 a b -> same_shape2 (map2 (map2 fadd) a b) b.
Proof.
  intros H. induction H as [|r s a b Hrs Hab IH]; simpl.
  - constructor.
  - constructor; [|exact IH].
    rewrite map2_length by exact Hrs. exact Hrs.
Qed.

Lemma index_in_range {A : Type} (l : list A) (k : nat) (d : A) :
  (k < length l)%nat -> index l k = Ok (nth k l d).
Proof. apply index_nth. Qed.

(** One round of the loop of
    [_BaseMixHMM._accumulate_sufficient_statistics]. *)
Lemma Base_accumulate_loop_folds (w : vec) (inner : InnerStats)
  (ks : list nat) :
  NoDup ks ->
  forall hstats,
    (forall k, In k ks ->
               (k < length w)%nat
               /\ (k < length (inner_start inner))%nat
               /\ (k < length (inner_trans inner))%nat
               /\ exists st,
                    nth_error hstats k = Some st
                    /\ length (hs_start st)
                       = length (nth k (inner_start inner) [])
                    /\ same_shape2 (hs_trans st)
                                   (nth k (inner_trans inner) [])) ->
    exists hstats',
      Base_accumulate_loop ks w inner hstats = Ok hstats'
      /\ length hstats' = length hstats
      /\ forall k,
           (In k ks ->
            forall st, nth_error hstats k = Some st ->
                       nth_error hstats' k
                       = Some (mkHmmStats
                                 (hs_start (folded (nth k w NaN) inner k st))
                                 (hs_trans (folded (nth k w NaN) inner k st))
                                 (hs_obs st)))
           /\ (~ In k ks -> nth_error hstats' k = nth_error hstats k).
Proof.
  intros Hnd. induction Hnd as [|k ks Hnotin Hnd IH]; intros hstats Hsh.
  - exists hstats. split; [reflexivity|]. split; [reflexivity|].
    intros k. split; [intros []|reflexivity].
  - destruct (Hsh k (or_introl eq_refl))
      as [Hkw [Hks [Hkt [st [Hst [Hstart Htrans]]]]]].
    assert (Hk : (k < length hstats)%nat).
    { apply nth_error_Some. rewrite Hst. discriminate. }
    set (st1 := mkHmmStats
                  (map2 fadd (hs_start st)
                        (scale (nth k w NaN) (nth k (inner_start inner) [])))
                  (hs_trans st) (hs_obs st)).
    set (hstats1 := firstn k hstats ++ st1 :: skipn (S k) hstats).
    set (st2 := mkHmmStats (hs_start st1)
                  (map2 (map2 fadd) (hs_trans st1)
                        (scale2 (nth k w NaN)
                                (nth k (inner_trans inner) [])))
                  (hs_obs st1)).
    set (hstats2 := firstn k hstats1 ++ st2 :: skipn (S k) hstats1).
    assert (Hlen1 : length hstats1 = length hstats)
      by (apply length_set; exact Hk).
    assert (Hk1 : (k < length hstats1)%nat) by lia.
    assert (Hlen2 : length hstats2 = length hstats)
      by (unfold hstats2; rewrite length_set by exact Hk1; exact Hlen1).
    assert (Hother : forall j, j <> k ->
                               nth_error hstats2 j = nth_error hstats j).
    { intros j Hj. unfold hstats2, hstats1.
      rewrite nth_error_set_other by assumption.
      apply nth_error_set_other; assumption. }
    assert (Hsame : nth_error hstats2 k = Some st2).
    { apply nth_error_set_same. exact Hk1. }
    assert (Hstep : Base_accumulate_loop (k :: ks) w inner hstats
                    = Base_accumulate_loop ks w inner hstats2).
    { cbn [Base_accumulate_loop].
      rewrite (index_Some _ _ Hst). cbn [bind].
      rewrite (index_in_range w NaN Hkw). cbn [bind].
      rewrite (index_in_range (inner_start inner) [] Hks). cbn [bind].
      rewrite iadd_same_length
        by (unfold scale; rewrite length_map; exact Hstart).
      cbn [bind].
      rewrite (set_item_in_range _ _ Hk). cbn [bind].
      fold st1. fold hstats1.
      rewrite (index_Some hstats1 k (x := st1))
        by (apply nth_error_set_same; exact Hk).
      cbn [bind].
      rewrite (index_in_range (inner_trans inner) [] Hkt). cbn [bind].
      rewrite iadd2_same_shape
        by (apply same_shape2_scale2; exact Htrans).
      cbn [bind].
      rewrite (set_item_in_range _ _ Hk1). cbn [bind].
      reflexivity. }
    destruct (IH hstats2) as [hstats' [Hrun [Hlen' Hres]]].
    { intros j Hj.
      destruct (Hsh j (or_intror Hj))
        as [Hjw [Hjs [Hjt [stj [Hstj Hshj]]]]].
      split; [exact Hjw|]. split; [exact Hjs|]. split; [exact Hjt|].
      exists stj. split; [|exact Hshj].
      rewrite Hother; [exact Hstj|].
      intros ->. contradiction. }
    exists hstats'. rewrite Hstep. split; [exact Hrun|].
    split; [lia|].
    intros j. split.
    + intros [<-|Hj] stj Hstj.
      * rewrite (proj2 (Hres k) Hnotin), Hsame.
        rewrite Hst in Hstj. injection Hstj as <-. reflexivity.
      * assert (Hjk : j <> k) by (intros ->; contradiction).
        apply (proj1 (Hres j) Hj). rewrite Hother by exact Hjk. exact Hstj.
    + intros Hj.
      assert (Hjk : j <> k) by (intros ->; apply Hj; left; reflexivity).
      rewrite (proj2 (Hres j)) by (intros Hin; apply Hj; right; exact Hin).
      apply Hother. exact Hjk.
Qed.

(** One round of the loop of
    [MultinomialMixHMM._accumulate_sufficient_statistics]. *)
Lemma Multinomial_accumulate_loop_folds (w : vec) (inner : InnerStats)
  (ks : list nat) :
  NoDup ks ->
  forall hstats,
    (forall k, In k ks ->
               (k < length w)%nat
               /\ (k < length (inner_obs inner))%nat
               /\ exists st,
                    nth_error hstats k = Some st
                    /\ same_shape2 (hs_obs st)
                                   (nth k (inner_obs inner) [])) ->
    exists hstats',
      Multinomial_accumulate_loop ks w inner hstats = Ok hstats'
      /\ length hstats' = length hstats
      /\ forall k,
           (In k ks ->
            forall st, nth_error hstats k = Some st ->
                       nth_error hstats' k
                       = Some (mkHmmStats
                                 (hs_start st) (hs_trans st)
                                 (hs_obs (folded (nth k w NaN) inner k st))))
           /\ (~ In k ks -> nth_error hstats' k = nth_error hstats k).
Proof.
  intros Hnd. induction Hnd as [|k ks Hnotin Hnd IH]; intros hstats Hsh.
  - exists hstats. split; [reflexivity|]. split; [reflexivity|].
    intros k. split; [intros []|reflexivity].
  - destruct (Hsh k (or_introl eq_refl)) as [Hkw [Hko [st [Hst Hobs]]]].
    assert (Hk : (k < length hstats)%nat).
    { apply nth_error_Some. rewrite Hst. discriminate. }
    set (st1 := mkHmmStats (hs_start st) (hs_trans st)
                  (map2 (map2 fadd) (hs_obs st)
                        (scale2 (nth k w NaN)
                                (nth k (inner_obs inner) [])))).
    set (hstats1 := firstn k hstats ++ st1 :: skipn (S k) hstats).
    assert (Hlen1 : length hstats1 = length hstats)
      by (apply length_set; exact Hk).
    assert (Hother : forall j, j <> k ->
                               nth_error hstats1 j = nth_error hstats j).
    { intros j Hj. apply nth_error_set_other; assumption. }
    assert (Hsame : nth_error hstats1 k = Some st1).
    { apply nth_error_set_same. exact Hk. }
    assert (Hstep : Multinomial_accumulate_loop (k :: ks) w inner hstats
                    = Multinomial_accumulate_loop ks w inner hstats1).
    { cbn [Multinomial_accumulate_loop].
      rewrite (index_Some _ _ Hst). cbn [bind].
      rewrite (index_in_range w NaN Hkw). cbn [bind].
      rewrite (index_in_range (inner_obs inner) [] Hko). cbn [bind].
      rewrite iadd2_same_shape
        by (apply same_shape2_scale2; exact Hobs).
      cbn [bind].
      rewrite (set_item_in_range _ _ Hk). cbn [bind].
      reflexivity. }
    destruct (IH hstats1) as [hstats' [Hrun [Hlen' Hres]]].
    { intros j Hj.
      destruct (Hsh j (or_intror Hj)) as [Hjw [Hjo [stj [Hstj Hshj]]]].
      split; [exact Hjw|]. split; [exact Hjo|].
      exists stj. split; [|exact Hshj].
      rewrite Hother; [exact Hstj|].
      intros ->. contradiction. }
    exists hstats'. rewrite Hstep. split; [exact Hrun|].
    split; [lia|].
    intros j. split.
    + intros [<-|Hj] stj Hstj.
      * rewrite (proj2 (Hres k) Hnotin), Hsame.
        rewrite Hst in Hstj. injection Hstj as <-. reflexivity.
      * assert (Hjk : j <> k) by (intros ->; contradiction).
        apply (proj1 (Hres j) Hj). rewrite Hother by exact Hjk. exact Hstj.
    + intros Hj.
      assert (Hjk : j <> k) by (intros ->; apply Hj; left; reflexivity).
      rewrite (proj2 (Hres j)) by (intros Hin; apply Hj; right; exact Hin).
      apply Hother. exact Hjk.
Qed.

(** [MultinomialMixHMM._accumulate_sufficient_statistics] with ['p'] and
    ['h'] in [params], on statistics of fitting shapes: every outer
    statistic grows by the inner statistic of its component times the
    entry of that component in
    [log_normalize(inner_stats['component_weights'])]. *)
Lemma Multinomial_accumulate_folds (m : MixHMM) (stats : Stats)
  (inner : InnerStats) (params : string) :
  char_in "p" params = true ->
  char_in "h" params = true ->
  length (inner_component_weights inner) = n_components m ->
  fold_shapes (n_components m) stats inner ->
  let w := log_normalize (inner_component_weights inner) in
  exists stats',
    Multinomial_accumulate_sufficient_statistics m stats inner params
    = Ok stats'
    /\ stats_component_weights stats'
       = map2 fadd (stats_component_weights stats) w
    /\ length (stats_hmm_stats stats') = n_components m
    /\ forall k st,
         nth_error (stats_hmm_stats stats) k = Some st ->
         nth_error (stats_hmm_stats stats') k
         = Some (folded (nth k w NaN) inner k st).
Proof.
  intros Hp Hh Hcw [Hlcw [Hlh [Hls [Hlt [Hlo Hsh]]]]] w.
  assert (Hlw : length w = n_components m).
  { unfold w, log_normalize. rewrite length_map. exact Hcw. }
  destruct (@Base_accumulate_loop_folds w inner (seq 0 (n_components m))
              (seq_NoDup _ _) (stats_hmm_stats stats))
    as [hstats1 [Hrun1 [Hlen1 Hres1]]].
  { intros k Hk. apply in_seq in Hk.
    split; [lia|]. split; [lia|]. split; [lia|].
    destruct (nth_error (stats_hmm_stats stats) k) as [st|] eqn:Hst.
    - exists st. split; [reflexivity|].
      destruct (Hsh k st Hst) as [H1 [H2 _]]. split; assumption.
    - apply nth_error_None in Hst. lia. }
  destruct (@Multinomial_accumulate_loop_folds w inner
              (seq 0 (n_components m)) (seq_NoDup _ _) hstats1)
    as [hstats2 [Hrun2 [Hlen2 Hres2]]].
  { intros k Hk. pose proof Hk as Hk'. apply in_seq in Hk'.
    split; [lia|]. split; [lia|].
    destruct (nth_error (stats_hmm_stats stats) k) as [st|] eqn:Hst.
    - eexists. split; [apply (proj1 (Hres1 k) Hk st Hst)|].
      cbn [hs_obs]. apply (Hsh k st Hst).
    - apply nth_error_None in Hst. lia. }
  exists (mkStats (map2 fadd (stats_component_weights stats) w) hstats2).
  split.
  - unfold Multinomial_accumulate_sufficient_statistics,
      Base_accumulate_sufficient_statistics.
    lazy zeta. fold w. rewrite Hp, Hh.
    rewrite iadd_same_length by congruence.
    cbn [bind stats_hmm_stats stats_component_weights].
    rewrite Hrun1. cbn [bind stats_hmm_stats stats_component_weights].
    rewrite Hrun2. reflexivity.
  - cbn [stats_component_weights stats_hmm_stats].
    split; [reflexivity|]. split; [lia|].
    intros k st Hst.
    assert (Hk : In k (seq 0 (n_components m))).
    { apply in_seq. split; [lia|]. simpl. rewrite <- Hlh.
      apply nth_error_Some. rewrite Hst. discriminate. }
    rewrite (proj1 (Hres2 k) Hk _ (proj1 (Hres1 k) Hk st Hst)).
    reflexivity.
Qed.

Lemma fadd_zero_l (x : F) : fadd zero x = x.
Proof.
  destruct x; simpl; try reflexivity. f_equal. apply Rplus_0_l.
Qed.

Lemma nth_error_map2 {A B C : Type} (f : A -> B -> C) (a : list A)
  (b : list B) (j : nat) :
  nth_error (map2 f a b) j
  = match nth_error a j, nth_error b j with
    | Some x, Some y => Some (f x y)
    | _, _ => None
    end.
Proof.
  revert b j. induction a as [|x a IH]; intros b j.
  - destruct j; reflexivity.
  - destruct b as [|y b].
    + destruct j; simpl; [reflexivity|].
      destruct (nth_error a j); reflexivity.
    + destruct j; simpl; [reflexivity | apply IH].
Qed.

Lemma nth_error_joint (hs : list HMM) (lw : vec) (seq : ndarray) (j : nat) :
  nth_error (joint hs lw seq) j
  = match nth_error hs j, nth_error lw j with
    | Some h, Some l => Some (fadd (forward_loglik h seq) l)
    | _, _ => None
    end.
Proof.
  unfold joint. rewrite nth_error_map2, nth_error_map.
  destruct (nth_error hs j); reflexivity.
Qed.


(** ** Scoring: what the three public methods share *)

Lemma mapM_bind_map {A B C : Type} (f : A -> res B) (g : B -> C)
  (l : list A) :
  mapM (fun a => b <- f a ;; Ok (g b))%res l
  = (bs <- mapM f l ;; Ok (map g bs))%res.
Proof.
  induction l as [|a l IH]; [reflexivity|].
  cbn [mapM]. rewrite IH.
  destruct (f a) as [b|e]; [|reflexivity]. cbn [bind].
  destruct (mapM f l) as [bs|e]; reflexivity.
Qed.

Lemma mapM_Forall2 {A B : Type} (f : A -> res B) (l : list A)
  (bs : list B) :
  mapM f l = Ok bs -> Forall2 (fun a b => f a = Ok b) l bs.
Proof.
  revert bs. induction l as [|a l IH]; intros bs H.
  - injection H as <-. constructor.
  - cbn [mapM] in H. destruct (f a) as [b|e] eqn:Hb; [|discriminate H].
    cbn [bind] in H. destruct (mapM f l) as [bs'|e]; [|discriminate H].
    injection H as <-. constructor; [exact Hb | apply IH; reflexivity].
Qed.

Lemma mapM_length {A B : Type} (f : A -> res B) (l : list A)
  (bs : list B) :
  mapM f l = Ok bs -> length bs = length l.
Proof.
  intros H. apply mapM_Forall2 in H.
  induction H; [reflexivity | cbn [length]; congruence].
Qed.

Lemma score_seq_of_score_samples_seq (m : MixHMM) (seq : ndarray) :
  score_seq m seq = (p <- score_samples_seq m seq ;; Ok (fst p))%res.
Proof.
  unfold score_seq, score_samples_seq.
  destruct (_compute_log_likelihood m seq) as [fl|e]; [|reflexivity].
  cbn [bind].
  destruct (forward_logliks m fl) as [p|e]; [|reflexivity].
  cbn [bind].
  destruct (iadd p (log_component_weights m)); reflexivity.
Qed.

Lemma score_via_score_samples (m : MixHMM) (obs : dataset) :
  score m obs = (p <- score_samples m obs ;; Ok (fst p))%res.
Proof.
  unfold score, score_samples.
  rewrite (mapM_ext_in (score_seq m)
             (fun seq => p <- score_samples_seq m seq ;; Ok (fst p))%res)
    by (intros seq _; apply score_seq_of_score_samples_seq).
  rewrite mapM_bind_map.
  destruct (mapM (score_samples_seq m) obs); reflexivity.
Qed.

(** [score] and [score_samples] run the same loop: on every model and
    every dataset [score] returns the log probabilities that
    [score_samples] returns, and raises what [score_samples] raises. *)
Theorem score_is_first_of_score_samples (m : MixHMM) (obs : dataset) :
  score m obs = (p <- score_samples m obs ;; Ok (fst p))%res.
Proof.
  exact (score_via_score_samples m obs).
Qed.

Lemma argmax_from_bound (a : vec) :
  forall bi best i,
    (bi < i)%nat -> (argmax_from bi best i a < i + length a)%nat.
Proof.
  induction a as [|x a IH]; intros bi best i Hlt; cbn [argmax_from length].
  - lia.
  - destruct (is_nan best); [lia|].
    destruct (is_nan x || fltb best x).
    + specialize (IH i x (S i) ltac:(lia)). lia.
    + specialize (IH bi best (S i) ltac:(lia)). lia.
Qed.

Lemma argmax_in_range (a : vec) (c : nat) :
  argmax a = Ok c -> (c < length a)%nat.
Proof.
  destruct a as [|x a]; intros H; [discriminate H|].
  injection H as <-. cbn [length].
  pose proof (@argmax_from_bound a 0 x 1 ltac:(lia)). lia.
Qed.

Lemma forward_logliks_length (m : MixHMM) (fl : list mat) (p : vec) :
  forward_logliks m fl = Ok p -> length p = n_components m.
Proof.
  intros H. apply mapM_length in H. rewrite H. apply length_seq.
Qed.

Lemma iadd_length (a b c : vec) :
  iadd a b = Ok c -> length c = length a.
Proof.
  unfold iadd, broadcast_to. intros H.
  destruct (length b =? length a)%nat eqn:Hlen.
  - apply Nat.eqb_eq in Hlen. cbn [bind] in H. injection H as <-.
    apply map2_length. congruence.
  - destruct b as [|x [|y b]]; try discriminate H.
    cbn [bind] in H. injection H as <-.
    apply map2_length. rewrite repeat_length. reflexivity.
Qed.

Lemma score_samples_seq_row_length (m : MixHMM) (seq : ndarray)
  (lp : F) (row : vec) :
  score_samples_seq m seq = Ok (lp, row) -> length row = n_components m.
Proof.
  unfold score_samples_seq. intros H.
  destruct (_compute_log_likelihood m seq) as [fl|e]; [|discriminate H].
  cbn [bind] in H.
  destruct (forward_logliks m fl) as [p|e] eqn:Hp; [|discriminate H].
  cbn [bind] in H.
  destruct (iadd p (log_component_weights m)) as [q|e] eqn:Hq;
    [|discriminate H].
  cbn [bind] in H. injection H as _ <-.
  unfold log_normalize. rewrite length_map.
  rewrite (iadd_length _ _ Hq). exact (forward_logliks_length _ _ Hp).
Qed.

(** When [predict] returns, it returns one label per sequence and every
    label is the index of a component: a number below
    [n_components]. *)
Theorem predict_labels_in_range (m : MixHMM) (obs : dataset)
  (comps : list nat) :
  predict m obs = Ok comps ->
  length comps = length obs
  /\ Forall (fun c => (c < n_components m)%nat) comps.
Proof.
  unfold predict, score_samples. intros H.
  destruct (mapM (score_samples_seq m) obs) as [rows|e] eqn:Hrows;
    [|discriminate H].
  cbn [bind] in H.
  pose proof (mapM_length _ _ Hrows) as Hlen.
  pose proof (mapM_length _ _ H) as Hlen'.
  rewrite length_map in Hlen'.
  split; [congruence|].
  apply mapM_Forall2 in Hrows. apply mapM_Forall2 in H.
  clear Hlen Hlen'.
  revert comps H. induction Hrows as [|seq [lp row] obs' rows' Hrow _ IH];
    intros comps H; cbn [map] in H; inversion H as [|? c ? comps' Hc Hcs];
    subst.
  - constructor.
  - constructor; [|apply IH; exact Hcs].
    cbn [snd] in Hc. apply argmax_in_range in Hc.
    rewrite (score_samples_seq_row_length _ _ Hrow) in Hc. exact Hc.
Qed.

Lemma mapM_seq_first_failure {B : Type} (f : nat -> res B) (e : exn)
  (n : nat) :
  forall K start,
    (n < K)%nat ->
    (forall i, (i < n)%nat -> exists b, f (start + i)%nat = Ok b) ->
    f (start + n)%nat = Raise e ->
    mapM f (seq start K) = Raise e.
Proof.
  induction n as [|n IH]; intros K start HK Hbefore Hfail.
  - destruct K as [|K]; [lia|]. cbn [seq mapM].
    rewrite Nat.add_0_r in Hfail. rewrite Hfail. reflexivity.
  - destruct K as [|K]; [lia|]. cbn [seq mapM].
    destruct (Hbefore 0%nat ltac:(lia)) as [b Hb].
    rewrite Nat.add_0_r in Hb. rewrite Hb. cbn [bind].
    rewrite (IH K (S start)); [reflexivity | lia | |].
    + intros i Hi. destruct (Hbefore (S i) ltac:(lia)) as [b' Hb'].
      exists b'. rewrite <- Hb'. f_equal. lia.
    + rewrite <- Hfail. f_equal. lia.
Qed.

Lemma compute_log_likelihood_missing_hmm (m : MixHMM) (seq : ndarray) :
  (0 < n_components m)%nat ->
  (hmms m = None -> _compute_log_likelihood m seq = Raise TypeError)
  /\ (forall hs, hmms m = Some hs ->
                 (length hs < n_components m)%nat ->
                 _compute_log_likelihood m seq = Raise IndexError).
Proof.
  intros HK. unfold _compute_log_likelihood, get_hmms. split.
  - intros Hnone. rewrite Hnone.
    apply (@mapM_seq_first_failure _ _ TypeError 0);
      [exact HK | intros i Hi; lia | reflexivity].
  - intros hs Hhs Hlen. rewrite Hhs.
    apply (@mapM_seq_first_failure _ _ IndexError (length hs)).
    + exact Hlen.
    + intros i Hi. cbn [bind Nat.add]. unfold index.
      destruct (nth_error hs i) as [h|] eqn:Hh.
      * eexists. reflexivity.
      * apply nth_error_None in Hh. lia.
    + cbn [bind Nat.add]. unfold index.
      rewrite (proj2 (nth_error_None hs (length hs)) (le_n _)).
      reflexivity.
Qed.

(** Scoring a model that has no component HMMs yet, or fewer than
    [n_components]: on a dataset that is not empty, [score],
    [score_samples], [predict] and [predict_proba] raise [TypeError] when
    [hmms] is [None] (the instance was never fitted), and [IndexError]
    when [hmms] holds fewer than [n_components] HMMs. *)
Theorem scoring_without_component_hmms (m : MixHMM) (obs : dataset)
  (e : exn) :
  (0 < n_components m)%nat ->
  obs <> [] ->
  (hmms m = None /\ e = TypeError)
  \/ (exists hs, hmms m = Some hs
                 /\ (length hs < n_components m)%nat /\ e = IndexError) ->
  score m obs = Raise e
  /\ score_samples m obs = Raise e
  /\ predict m obs = Raise e
  /\ predict_proba m obs = Raise e.
Proof.
  intros HK Hobs Hcase.
  destruct obs as [|seq obs]; [contradiction|].
  destruct (compute_log_likelihood_missing_hmm m seq HK) as [Hnone Hfew].
  assert (Hfl : _compute_log_likelihood m seq = Raise e).
  { destruct Hcase as [[Hh ->]|[hs [Hh [Hlen ->]]]];
      [apply Hnone; exact Hh | apply (Hfew hs); assumption]. }
  assert (Hss : score_samples m (seq :: obs) = Raise e).
  { unfold score_samples. cbn [mapM]. unfold score_samples_seq.
    rewrite Hfl. reflexivity. }
  split.
  - rewrite score_via_score_samples. rewrite Hss. reflexivity.
  - unfold predict, predict_proba. rewrite Hss. repeat split; reflexivity.
Qed.

(** ** The [component_weights_] property, read after write *)

Lemma fexp_flog_Fin (x : R) :
  fexp (flog (Fin x)) = if Rltb x 0 then NaN else Fin x.
Proof.
  unfold flog.
  destruct (Rlt_dec 0 x) as [Hpos|Hnpos].
  - rewrite (Rltb_true Hpos). rewrite Rltb_false by lra.
    cbn [fexp]. rewrite exp_ln by exact Hpos. reflexivity.
  - rewrite (Rltb_false Hnpos).
    destruct (Req_dec_T x 0) as [Hz|Hnz].
    + rewrite (Reqb_true Hz). rewrite Rltb_false by lra.
      cbn [fexp]. congruence.
    + rewrite (Reqb_false Hnz). rewrite Rltb_true by lra. reflexivity.
Qed.


(** ** Maximization: what it touches *)

Lemma set_component_weights_frame (v : vec) (w : world) :
  let w' := snd (_set_component_weights (Some v) w) in
  hmms (self w') = hmms (self w)
  /\ component_weights_prior (self w') = component_weights_prior (self w)
  /\ random_state (self w') = random_state (self w)
  /\ np_random w' = np_random w.
Proof.
  rewrite set_component_weights_Some.
  destruct (negb (length v =? n_components (self w))%nat);
    [repeat split|].
  destruct (negb (allclose_one (fsum (after_zero_test v)))); repeat split.
Qed.

Lemma put_hmm_frame_prior (k : nat) (hmm : HMM) (w : world) :
  let w' := snd (put_hmm k hmm w) in
  component_weights_prior (self w') = component_weights_prior (self w)
  /\ random_state (self w') = random_state (self w).
Proof.
  destruct w as [m g].
  unfold put_hmm, bindM, get_self, throw, lift, put_self. simpl.
  destruct (hmms m) as [hs|]; simpl; [|split; reflexivity].
  destruct (set_item hs k hmm); simpl; split; reflexivity.
Qed.

Lemma mstep_hmms_frame_all (todo : list HMM) (hstats : list HmmStats) :
  forall (k : nat) (w : world),
    let w' := snd (mstep_hmms k todo hstats w) in
    log_component_weights (self w') = log_component_weights (self w)
    /\ component_weights_prior (self w') = component_weights_prior (self w)
    /\ random_state (self w') = random_state (self w)
    /\ np_random w' = np_random w.
Proof.
  induction todo as [|hmm todo IH]; intros k w; [repeat split|].
  cbn [mstep_hmms]. unfold bindM at 1. unfold lift.
  destruct (index hstats k) as [st|e]; [|repeat split].
  unfold bindM.
  pose proof (put_hmm_frame k (hmm_do_mstep hmm st (hmm_params hmm)) w)
    as [Hlw Hg].
  pose proof (put_hmm_frame_prior k
                (hmm_do_mstep hmm st (hmm_params hmm)) w) as [Hp Hr].
  destruct (put_hmm k (hmm_do_mstep hmm st (hmm_params hmm)) w)
    as [[u|e] w1]; cbn [snd] in *.
  - destruct (IH (S k) w1) as [H1 [H2 [H3 H4]]].
    repeat split; congruence.
  - repeat split; assumption.
Qed.

Lemma do_mstep_after_prior_frame (prior : prior_value) (stats : Stats)
  (params : string) (w0 : world) :
  let w' :=
    snd (((if char_in "p" params
           then
             v <~ lift (prior_minus_one_plus prior
                          (stats_component_weights stats)) ;;
             _set_component_weights
               (Some (normalize (maximum v floor_1e_20)))
           else ret tt) ;;;
          (if char_in "h" params
           then
             m <~ get_self ;;
             match hmms m with
             | None => throw TypeError
             | Some hs => mstep_hmms 0 hs (stats_hmm_stats stats)
             end
           else ret tt)) w0) in
  np_random w' = np_random w0
  /\ random_state (self w') = random_state (self w0)
  /\ component_weights_prior (self w') = component_weights_prior (self w0)
  /\ (char_in "p" params = false ->
      log_component_weights (self w') = log_component_weights (self w0))
  /\ (char_in "h" params = false -> hmms (self w') = hmms (self w0)).
Proof.
  cbv zeta.
  set (first := if char_in "p" params
                then
                  v <~ lift (prior_minus_one_plus prior
                               (stats_component_weights stats)) ;;
                  _set_component_weights
                    (Some (normalize (maximum v floor_1e_20)))
                else ret tt).
  unfold bindM.
  assert (H1 : hmms (self (snd (first w0))) = hmms (self w0)
               /\ component_weights_prior (self (snd (first w0)))
                  = component_weights_prior (self w0)
               /\ random_state (self (snd (first w0)))
                  = random_state (self w0)
               /\ np_random (snd (first w0)) = np_random w0
               /\ (char_in "p" params = false ->
                   log_component_weights (self (snd (first w0)))
                   = log_component_weights (self w0))).
  { unfold first. destruct (char_in "p" params).
    - unfold bindM, lift.
      destruct (prior_minus_one_plus prior (stats_component_weights stats))
        as [v|e]; [|repeat split; discriminate].
      destruct (set_component_weights_frame
                  (normalize (maximum v floor_1e_20)) w0)
        as [Ha [Hb [Hc Hd]]].
      repeat split; try assumption. discriminate.
    - repeat split. }
  destruct H1 as [Hh1 [Hp1 [Hr1 [Hg1 Hlw1]]]].
  destruct (first w0) as [[u|e] w1]; cbn [snd] in *.
  - (* the loop over the component HMMs *)
    destruct (char_in "h" params).
    + unfold bindM, get_self. cbn [self].
      destruct (hmms (self w1)) as [hs|] eqn:Hhs.
      * destruct (mstep_hmms_frame_all hs (stats_hmm_stats stats) 0 w1)
          as [Ha [Hb [Hc Hd]]].
        repeat split; try congruence.
        intros Hp. rewrite Ha. apply Hlw1. exact Hp.
      * unfold throw. cbn [snd].
        repeat split; try congruence; auto.
    + unfold ret. cbn [snd]. repeat split; try congruence; auto.
  - repeat split; try congruence; auto.
Qed.

(** [_do_mstep] once the prior has been looked at. *)
Lemma do_mstep_after_prior (stats : Stats) (params : string) (w : world) :
  let prior := match component_weights_prior (self w) with
               | None => PriorScalar one
               | Some p => p
               end in
  _do_mstep stats params w
  = ((if char_in "p" params
      then
        v <~ lift (prior_minus_one_plus prior
                     (stats_component_weights stats)) ;;
        _set_component_weights (Some (normalize (maximum v floor_1e_20)))
      else ret tt) ;;;
     (if char_in "h" params
      then
        m <~ get_self ;;
        match hmms m with
        | None => throw TypeError
        | Some hs => mstep_hmms 0 hs (stats_hmm_stats stats)
        end
      else ret tt))
      (mkWorld (with_component_weights_prior (self w) (Some prior))
               (np_random w)).
Proof.
  destruct w as [m g]. cbv zeta. cbn [self np_random].
  unfold _do_mstep. unfold bindM at 1. unfold get_self at 1.
  cbn [self]. unfold bindM at 1.
  destruct (component_weights_prior m) as [p|] eqn:Hp.
  - unfold ret at 1. destruct m; cbn in Hp; subst; reflexivity.
  - unfold bindM at 1. unfold put_self at 1. unfold ret at 1.
    reflexivity.
Qed.

Lemma do_mstep_touches (stats : Stats) (params : string) (w : world) :
  let w' := snd (_do_mstep stats params w) in
  np_random w' = np_random w
  /\ random_state (self w') = random_state (self w)
  /\ component_weights_prior (self w')
     = Some (match component_weights_prior (self w) with
             | None => PriorScalar one
             | Some p => p
             end)
  /\ (char_in "p" params = false ->
      log_component_weights (self w') = log_component_weights (self w))
  /\ (char_in "h" params = false -> hmms (self w') = hmms (self w)).
Proof.
  cbv zeta. rewrite do_mstep_after_prior. cbv zeta.
  match goal with
  | |- context [snd (?c ?w0)] =>
      pose proof (do_mstep_after_prior_frame
                    (match component_weights_prior (self w) with
                     | None => PriorScalar one
                     | Some p => p
                     end) stats params w0) as H
  end.
  cbv zeta in H. destruct H as [Hg [Hr [Hp [Hlw Hh]]]].
  rewrite Hg, Hr, Hp. repeat split.
  - intros H. rewrite (Hlw H). reflexivity.
  - intros H. rewrite (Hh H). reflexivity.
Qed.

(** [_do_mstep], on every input and whether it returns or raises: the
    process-wide generator and [random_state] are as they were;
    [component_weights_prior] is not [None] afterwards (a prior found at
    [None] is replaced by [1.0] for good, any other is kept); without
    ['p'] in [params] the component weights are as they were; without
    ['h'] in [params] the component HMMs are as they were. *)
Theorem do_mstep_frame (stats : Stats) (params : string) (w : world) :
  let w' := snd (_do_mstep stats params w) in
  np_random w' = np_random w
  /\ random_state (self w') = random_state (self w)
  /\ component_weights_prior (self w')
     = Some (match component_weights_prior (self w) with
             | None => PriorScalar one
             | Some p => p
             end)
  /\ (char_in "p" params = false ->
      log_component_weights (self w') = log_component_weights (self w))
  /\ (char_in "h" params = false -> hmms (self w') = hmms (self w)).
Proof.
  exact (do_mstep_touches stats params w).
Qed.

(** ** Maximization: the component HMMs *)

Lemma with_hmms_twice (m : MixHMM) (a b : option (list HMM)) :
  with_hmms (with_hmms m a) b = with_hmms m b.
Proof. reflexivity. Qed.

Lemma skipn_cons_nth_error {A : Type} (l : list A) (k : nat) (x : A) :
  nth_error l k = Some x -> skipn k l = x :: skipn (S k) l.
Proof.
  revert l. induction k as [|k IH]; intros [|y l] H; try discriminate H.
  - injection H as ->. reflexivity.
  - cbn [nth_error] in H. cbn [skipn]. rewrite (IH l H). reflexivity.
Qed.

Lemma set_item_middle {A : Type} (done todo : list A) (x v : A) :
  set_item (done ++ x :: todo) (length done) v = Ok (done ++ v :: todo).
Proof.
  unfold set_item.
  assert (Hlt : (length done <? length (done ++ x :: todo))%nat = true).
  { apply Nat.ltb_lt. rewrite length_app. cbn [length]. lia. }
  rewrite Hlt. f_equal.
  rewrite firstn_app, Nat.sub_diag, firstn_all. cbn [firstn].
  rewrite app_nil_r. f_equal.
  rewrite skipn_app.
  rewrite (skipn_all2 done) by lia.
  replace (S (length done) - length done)%nat with 1%nat by lia.
  reflexivity.
Qed.

(** The loop of [_do_mstep] over the component HMMs, from component
    [length done] on. *)
Lemma mstep_hmms_run (hstats : list HmmStats) (todo : list HMM) :
  forall (done : list HMM) (w : world),
    hmms (self w) = Some (done ++ todo) ->
    (length done + length todo <= length hstats)%nat ->
    mstep_hmms (length done) todo hstats w
    = (Ok tt,
       mkWorld
         (with_hmms (self w)
            (Some (done
                   ++ map2 (fun hmm st =>
                              hmm_do_mstep hmm st (hmm_params hmm))
                           todo (skipn (length done) hstats))))
         (np_random w)).
Proof.
  induction todo as [|hmm todo IH]; intros done w Hhs Hlen.
  - cbn [mstep_hmms map2]. unfold ret. rewrite <- Hhs.
    destruct w as [m g]. destruct m. reflexivity.
  - cbn [mstep_hmms]. cbn [length] in Hlen.
    destruct (nth_error hstats (length done)) as [st|] eqn:Hst;
      [|apply nth_error_None in Hst; lia].
    unfold bindM at 1. unfold lift. rewrite (index_Some _ _ Hst).
    unfold bindM at 1.
    assert (Hput : put_hmm (length done)
                     (hmm_do_mstep hmm st (hmm_params hmm)) w
                   = (Ok tt,
                      mkWorld
                        (with_hmms (self w)
                           (Some (done
                                  ++ hmm_do_mstep hmm st (hmm_params hmm)
                                  :: todo)))
                        (np_random w))).
    { unfold put_hmm, bindM, get_self, lift. rewrite Hhs.
      rewrite set_item_middle. reflexivity. }
    rewrite Hput.
    replace (S (length done))
      with (length (done ++ [hmm_do_mstep hmm st (hmm_params hmm)]))
      by (rewrite length_app; cbn [length]; lia).
    rewrite IH.
    + cbn [self np_random]. rewrite with_hmms_twice.
      rewrite (skipn_cons_nth_error _ _ Hst). cbn [map2].
      rewrite <- app_assoc. cbn [app].
      rewrite length_app. cbn [length].
      replace (length done + 1)%nat with (S (length done)) by lia.
      reflexivity.
    + cbn [self with_hmms hmms]. rewrite <- app_assoc. reflexivity.
    + rewrite length_app. cbn [length]. lia.
Qed.

(** With ['h'] in [params], on a model that has its component HMMs and
    statistics for each of them: when [_do_mstep] returns, every
    component HMM [hmms[k]] has been replaced by the outcome of its own
    [_do_mstep] on its own statistics [stats['hmm_stats'][k]], run with
    that HMM's own [params] and not with those of the mixture; and
    [_do_mstep] does return when ['p'] is not in [params]. *)
Theorem do_mstep_component_hmms (stats : Stats) (params : string)
  (w : world) (hs : list HMM) :
  char_in "h" params = true ->
  hmms (self w) = Some hs ->
  (length hs <= length (stats_hmm_stats stats))%nat ->
  let r := _do_mstep stats params w in
  (fst r = Ok tt ->
   hmms (self (snd r))
   = Some (map2 (fun hmm st => hmm_do_mstep hmm st (hmm_params hmm))
                hs (stats_hmm_stats stats)))
  /\ (char_in "p" params = false -> fst r = Ok tt).
Proof.
  intros Hh Hhs Hlen r.
  assert (Hcases :
            (exists w',
                r = (Ok tt, w')
                /\ hmms (self w')
                   = Some (map2 (fun hmm st =>
                                   hmm_do_mstep hmm st (hmm_params hmm))
                                hs (stats_hmm_stats stats)))
            \/ (exists e w',
                   r = (Raise e, w') /\ char_in "p" params = true)).
  { unfold r. rewrite do_mstep_after_prior. cbv zeta.
    set (prior := match component_weights_prior (self w) with
                  | None => PriorScalar one
                  | Some p => p
                  end).
    set (w0 := mkWorld (with_component_weights_prior (self w) (Some prior))
                       (np_random w)).
    assert (Hhs0 : hmms (self w0) = Some hs) by exact Hhs.
    clearbody w0.
    rewrite Hh.
    set (first := if char_in "p" params
                  then
                    v <~ lift (prior_minus_one_plus prior
                                 (stats_component_weights stats)) ;;
                    _set_component_weights
                      (Some (normalize (maximum v floor_1e_20)))
                  else ret tt).
    assert (H1 : hmms (self (snd (first w0))) = Some hs
                 /\ (char_in "p" params = false ->
                     fst (first w0) = Ok tt)).
    { unfold first. destruct (char_in "p" params).
      - split; [|discriminate].
        unfold bindM, lift.
        destruct (prior_minus_one_plus prior
                    (stats_component_weights stats))
          as [v|e]; [|exact Hhs0].
        destruct (set_component_weights_frame
                    (normalize (maximum v floor_1e_20)) w0) as [Ha _].
        rewrite Ha. exact Hhs0.
      - split; [exact Hhs0 | reflexivity]. }
    destruct H1 as [Hhs1 Hok1].
    unfold bindM at 1.
    destruct (first w0) as [[u|e] w1] eqn:Hfirst; cbn [fst snd] in *.
    - left. unfold bindM, get_self. cbn [self]. rewrite Hhs1.
      pose proof (@mstep_hmms_run (stats_hmm_stats stats) hs [] w1 Hhs1
                    ltac:(cbn [length]; lia)) as Hrun.
      cbn [length app skipn] in Hrun. rewrite Hrun.
      eexists. split; reflexivity.
    - right. exists e, w1.
      split; [unfold bindM at 1; rewrite Hfirst; reflexivity|].
      destruct (char_in "p" params); [reflexivity|].
      specialize (Hok1 eq_refl). discriminate Hok1. }
  destruct Hcases as [[w' [Hr Hhmms]]|[e [w' [Hr Hp]]]]; rewrite Hr;
    cbn [fst snd].
  - split; intros _; [exact Hhmms | reflexivity].
  - split; [discriminate|]. rewrite Hp. discriminate.
Qed.

(** ** What every method keeps *)

Lemma kept_refl (w : world) : kept w w.
Proof.
  unfold kept. repeat split; auto.
  intros hs H. exists hs. split; [exact H | reflexivity].
Qed.

Lemma kept_trans (w1 w2 w3 : world) :
  kept w1 w2 -> kept w2 w3 -> kept w1 w3.
Proof.
  unfold kept.
  intros [A1 [A2 [A3 [A4 [A5 [A6 [A7 [A8 [A9 A10]]]]]]]]]
         [B1 [B2 [B3 [B4 [B5 [B6 [B7 [B8 [B9 B10]]]]]]]]].
  repeat split; try congruence.
  - intros H. rewrite <- A1. apply B9. rewrite A1. apply A9. exact H.
  - intros hs H. destruct (A10 hs H) as [hs2 [H2 L2]].
    destruct (B10 hs2 H2) as [hs3 [H3 L3]].
    exists hs3. split; [exact H3 | congruence].
Qed.

Lemma kept_np_random (m : MixHMM) (g g' : RandomState) :
  kept (mkWorld m g) (mkWorld m g').
Proof. apply (kept_refl (mkWorld m g)). Qed.

Lemma keeps_bindM_at {A B : Type} (c : M world A) (k : A -> M world B)
  (w : world) :
  kept w (snd (c w)) -> (forall a, keeps (k a)) ->
  kept w (snd (bindM c k w)).
Proof.
  intros Hc Hk. unfold bindM.
  destruct (c w) as [[a|e] w1]; cbn [snd] in *; [|exact Hc].
  apply (kept_trans Hc). apply Hk.
Qed.

Lemma keeps_bindM {A B : Type} (c : M world A) (k : A -> M world B) :
  keeps c -> (forall a, keeps (k a)) -> keeps (bindM c k).
Proof.
  intros Hc Hk w. apply keeps_bindM_at; [apply Hc | exact Hk].
Qed.

Lemma keeps_ret {A : Type} (a : A) : keeps (ret a).
Proof. intros w. apply kept_refl. Qed.

Lemma keeps_throw {A : Type} (e : exn) : keeps (@throw world A e).
Proof. intros w. apply kept_refl. Qed.

Lemma keeps_lift {A : Type} (r : res A) : keeps (lift r).
Proof. intros w. apply kept_refl. Qed.

Lemma keeps_get_self : keeps get_self.
Proof. intros w. apply kept_refl. Qed.

Lemma keeps_np_random_draw {A : Type}
  (draw : RandomState -> A * RandomState) : keeps (np_random_draw draw).
Proof.
  intros [m g]. unfold np_random_draw. cbn [np_random self].
  destruct (draw g) as [a g']. apply kept_np_random.
Qed.

(** Reading the instance and going on from what was read. *)
Lemma keeps_get_self_bind {A : Type} (k : MixHMM -> M world A) :
  (forall w, kept w (snd (k (self w) w))) -> keeps (bindM get_self k).
Proof.
  intros H w. unfold bindM, get_self. apply H.
Qed.

Lemma keeps_set_component_weights (v : option vec) :
  keeps (_set_component_weights v).
Proof.
  intros [m g]. destruct v as [v|].
  - rewrite set_component_weights_Some. cbn [self np_random].
    destruct (length v =? n_components m)%nat eqn:Hlen; cbn [negb];
      [|apply kept_refl].
    destruct (allclose_one (fsum (after_zero_test v))); cbn [negb];
      [|apply kept_refl].
    apply Nat.eqb_eq in Hlen.
    unfold kept. cbn. repeat split.
    + intros _. unfold vlog.
      rewrite length_map, after_zero_test_length. exact Hlen.
    + intros hs H. exists hs. split; [exact H | reflexivity].
  - unfold _set_component_weights, bindM, get_self. cbn [self].
    destruct (n_components m =? 0)%nat; [apply kept_refl|].
    unfold np_random_draw. cbn [np_random self].
    destruct (randomize _ g) as [v g'].
    rewrite after_zero_test_length.
    destruct (negb (length v =? n_components m)%nat) eqn:Hlen;
      [apply kept_np_random|].
    destruct (negb (allclose_one (fsum (after_zero_test v))));
      [apply kept_np_random|].
    apply Bool.negb_false_iff, Nat.eqb_eq in Hlen.
    unfold put_self, kept. cbn. repeat split.
    + intros _. unfold vlog.
      rewrite length_map, after_zero_test_length. exact Hlen.
    + intros hs H. exists hs. split; [exact H | reflexivity].
Qed.

Lemma keeps_put_hmm (k : nat) (hmm : HMM) : keeps (put_hmm k hmm).
Proof.
  intros [m g]. unfold put_hmm, bindM, get_self, lift. cbn [self].
  destruct (hmms m) as [hs|] eqn:Hhs; [|apply kept_refl].
  destruct (set_item hs k hmm) as [hs'|e] eqn:Hset; [|apply kept_refl].
  apply set_item_Ok_inv in Hset. destruct Hset as [Hk ->].
  unfold put_self, kept. cbn. repeat split; auto.
  intros hs0 H. rewrite Hhs in H. injection H as <-.
  eexists. split; [reflexivity|]. apply length_set. exact Hk.
Qed.

Lemma keeps_mstep_hmms (hstats : list HmmStats) (todo : list HMM) :
  forall k, keeps (mstep_hmms k todo hstats).
Proof.
  induction todo as [|hmm todo IH]; intros k; cbn [mstep_hmms].
  - apply keeps_ret.
  - apply keeps_bindM; [apply keeps_lift|]. intros st.
    apply keeps_bindM; [apply keeps_put_hmm|]. intros _. apply IH.
Qed.

Lemma keeps_do_mstep (stats : Stats) (params : string) :
  keeps (_do_mstep stats params).
Proof.
  intros w. rewrite do_mstep_after_prior. cbv zeta.
  match goal with
  | |- kept w (snd (?c ?w0)) =>
      assert (H0 : kept w w0);
      [|apply (kept_trans H0); generalize w0; change (keeps c)]
  end.
  { unfold kept. cbn. repeat split; auto.
    intros hs H. exists hs. split; [exact H | reflexivity]. }
  apply keeps_bindM.
  - destruct (char_in "p" params); [|apply keeps_ret].
    apply keeps_bindM; [apply keeps_lift|]. intros v.
    apply keeps_set_component_weights.
  - intros _. destruct (char_in "h" params); [|apply keeps_ret].
    apply keeps_get_self_bind. intros w1.
    destruct (hmms (self w1)); [apply keeps_mstep_hmms | apply kept_refl].
Qed.

Lemma keeps_Base_init (obs : dataset) (params : string) :
  keeps (Base_init obs params).
Proof.
  unfold Base_init. destruct (char_in "p" params); [|apply keeps_ret].
  apply keeps_get_self_bind. intros w.
  apply keeps_bindM_at.
  - unfold np_random_dirichlet.
    destruct (component_weights_prior (self w)) as [[x|v]|];
      try apply kept_refl.
    apply keeps_np_random_draw.
  - intros v. apply keeps_set_component_weights.
Qed.

Lemma keeps_init_hmms (obs : dataset) (todo : list HMM) :
  forall k, keeps (init_hmms k todo obs).
Proof.
  induction todo as [|hmm todo IH]; intros k; cbn [init_hmms].
  - apply keeps_ret.
  - apply keeps_bindM; [apply keeps_np_random_draw|]. intros hmm'.
    apply keeps_bindM; [apply keeps_put_hmm|]. intros _. apply IH.
Qed.

Lemma keeps_Multinomial_init (obs : dataset) (params : string) :
  keeps (Multinomial_init obs params).
Proof.
  unfold Multinomial_init.
  apply keeps_bindM; [apply keeps_Base_init|]. intros _.
  apply keeps_get_self_bind. intros [m0 g0]. cbn [self].
  apply keeps_bindM_at.
  - unfold put_self, kept. cbn.
    repeat split; auto.
    intros hs H. exists hs. split; [exact H | reflexivity].
  - intros _. apply keeps_get_self_bind. intros [m g]. cbn [self].
    destruct (hmms m) as [hs|] eqn:Hhs; [apply kept_refl|].
    destruct (char_in "h" params); [|apply kept_refl].
    apply keeps_bindM_at.
    + unfold put_self, kept. cbn. repeat split; auto.
      intros hs H. rewrite Hhs in H. discriminate H.
    + intros _. apply keeps_init_hmms.
Qed.

Lemma keeps_em_loop (cls : MixHMMClass) (obs : dataset) (todo : nat) :
  forall i logprob, keeps (em_loop cls obs todo i logprob).
Proof.
  induction todo as [|todo IH]; intros i logprob; cbn [em_loop].
  - apply keeps_ret.
  - apply keeps_get_self_bind. intros w.
    apply keeps_bindM_at; [apply kept_refl|]. intros [stats lp].
    match goal with
    | |- keeps (if ?c then _ else _) => destruct c
    end; [apply keeps_ret|].
    apply keeps_bindM; [apply keeps_do_mstep|]. intros _. apply IH.
Qed.

Lemma keeps_fit (cls : MixHMMClass) (obs : dataset) :
  (forall params, keeps (cls_init cls obs params)) ->
  keeps (fit cls obs).
Proof.
  intros Hinit. unfold fit.
  apply keeps_get_self_bind. intros w.
  apply keeps_bindM_at; [apply Hinit|]. intros _.
  apply keeps_get_self_bind. intros w1. apply keeps_em_loop.
Qed.

Lemma keeps_Multinomial_fit (obs : dataset) : keeps (Multinomial_fit obs).
Proof.
  unfold Multinomial_fit.
  apply keeps_bindM; [apply keeps_lift|]. intros [ok obs'].
  destruct (negb ok); [apply keeps_throw|].
  apply keeps_fit. intros params. apply keeps_Multinomial_init.
Qed.

(** Whatever the dataset and however the call ends (returning or
    raising), the setter of [component_weights_], [_do_mstep],
    [_BaseMixHMM.fit] on an instance of the base class or of
    [MultinomialMixHMM], and [MultinomialMixHMM.fit] leave
    [n_components], [n_states], [n_iter], [thresh], [params],
    [init_params], [verbose] and [emissionprob_prior] as they were; an
    instance that had [n_components] log weights has [n_components] log
    weights afterwards; and an instance that had component HMMs has as
    many afterwards. *)
Theorem methods_keep_the_settings (obs : dataset) (v : option vec)
  (stats : Stats) (params : string) (w : world) :
  kept w (snd (_set_component_weights v w))
  /\ kept w (snd (_do_mstep stats params w))
  /\ kept w (snd (fit BaseMixHMM obs w))
  /\ kept w (snd (fit MultinomialMixHMM obs w))
  /\ kept w (snd (Multinomial_fit obs w)).
Proof.
  split; [apply keeps_set_component_weights|].
  split; [apply keeps_do_mstep|].
  split; [apply keeps_fit; intros p; apply keeps_Base_init|].
  split; [apply keeps_fit; intros p; apply keeps_Multinomial_init|].
  apply keeps_Multinomial_fit.
Qed.

(** ** The EM loop run to its end *)

(** A loop that runs out of iterations has run [todo] full rounds. *)
Lemma em_loop_exhausted (cls : MixHMMClass) (obs : dataset) (todo : nat) :
  forall (i : nat) (logprob : list F) (w w' : world),
    em_loop cls obs todo i logprob w = (Ok MaxIterReached, w') ->
    em_rounds cls obs todo w = (Ok tt, w').
Proof.
  induction todo as [|todo IH]; intros i logprob w w' H.
  - cbn [em_loop] in H. unfold ret in H. injection H as <-. reflexivity.
  - destruct w as [m g].
    cbn [em_loop] in H. unfold bindM at 1 in H. unfold get_self at 1 in H.
    cbn [self] in H.
    unfold bindM at 1 in H. unfold lift at 1 in H.
    destruct (expectation cls m obs) as [[stats lp]|e] eqn:HE;
      [|discriminate H].
    match type of H with
    | (if ?c then _ else _) _ = _ => destruct c
    end; [unfold ret in H; discriminate H|].
    unfold bindM at 1 in H.
    destruct (_do_mstep stats (params m) (mkWorld m g)) as [[u|e] w1]
      eqn:HM; [|discriminate H].
    apply IH in H.
    cbn [em_rounds]. unfold bindM at 1. unfold get_self at 1. cbn [self].
    unfold bindM at 1. unfold lift at 1. rewrite HE.
    unfold bindM at 1. rewrite HM. exact H.
Qed.

(** When [fit] ends because the loop [for i in range(self.n_iter)] ran
    out, the instance it leaves is the one the initialization produced,
    taken through exactly [n_iter] rounds of an expectation step followed
    by its maximization step; with [n_iter = 0] it is the initialized
    instance itself, no expectation step having run. *)
Theorem fit_exhausted_runs_n_iter_rounds (cls : MixHMMClass)
  (obs : dataset) (w : world) :
  (forall w',
      fit cls obs w = (Ok MaxIterReached, w') ->
      exists w0,
        cls_init cls obs (init_params (self w)) w = (Ok tt, w0)
        /\ em_rounds cls obs (n_iter (self w0)) w0 = (Ok tt, w'))
  /\ (forall w0,
         cls_init cls obs (init_params (self w)) w = (Ok tt, w0) ->
         n_iter (self w0) = 0%nat ->
         fit cls obs w = (Ok MaxIterReached, w0)).
Proof.
  split.
  - intros w' H. unfold fit in H.
    unfold bindM at 1 in H. unfold get_self at 1 in H.
    unfold bindM at 1 in H.
    destruct (cls_init cls obs (init_params (self w)) w) as [[u|e] w0]
      eqn:Hinit; [|discriminate H].
    unfold bindM at 1 in H. unfold get_self at 1 in H.
    apply em_loop_exhausted in H.
    exists w0. destruct u. split; [reflexivity | exact H].
  - intros w0 Hinit Hn. unfold fit.
    unfold bindM at 1. unfold get_self at 1.
    unfold bindM at 1. rewrite Hinit.
    unfold bindM at 1. unfold get_self at 1.
    rewrite Hn. reflexivity.
Qed.

(** ** The log probability the expectation step reports *)

Lemma components_loop_curr (cls : MixHMMClass) (m : MixHMM)
  (seq : ndarray) (hs : list HMM) :
  forall (todo done : list HMM) (curr : vec) (inner : InnerStats)
         (curr' : vec) (inner' : InnerStats),
    hs = done ++ todo ->
    components_loop cls m seq
      (map (fun h => hmm_compute_log_likelihood h seq) hs)
      (length done) todo curr inner = Ok (curr', inner') ->
    forall j,
      ((j < length done \/ length hs <= j)%nat ->
       nth_error curr' j = nth_error curr j)
      /\ ((length done <= j < length hs)%nat ->
          exists h lw_j,
            nth_error hs j = Some h
            /\ nth_error (log_component_weights m) j = Some lw_j
            /\ nth_error curr' j
               = Some (fadd (forward_loglik h seq) lw_j)).
Proof.
  induction todo as [|h todo IH];
    intros done curr inner curr' inner' Hhs H j.
  - cbn [components_loop] in H. injection H as <- <-.
    rewrite app_nil_r in Hhs. subst hs.
    split; [intros _; reflexivity | intros Hj; lia].
  - cbn [components_loop] in H.
    assert (Hk : nth_error hs (length done) = Some h).
    { subst hs. rewrite nth_error_app2 by lia.
      rewrite Nat.sub_diag. reflexivity. }
    assert (Hfl : index (map (fun h => hmm_compute_log_likelihood h seq) hs)
                    (length done)
                  = Ok (hmm_compute_log_likelihood h seq)).
    { apply index_Some. rewrite nth_error_map, Hk. reflexivity. }
    rewrite Hfl in H. cbn [bind] in H.
    fold (forward_loglik h seq) in H.
    destruct (hmm_do_forward_pass h (hmm_compute_log_likelihood h seq))
      as [lpr fwd] eqn:Hfwd.
    assert (Hlpr : lpr = forward_loglik h seq).
    { unfold forward_loglik. rewrite Hfwd. reflexivity. }
    destruct (add2 fwd
                (hmm_do_backward_pass h (hmm_compute_log_likelihood h seq)))
      as [gamma|] eqn:Hgamma; cbn [bind] in H; [|discriminate H].
    destruct (index (log_component_weights m) (length done)) as [lw_k|]
      eqn:Hlw; cbn [bind] in H; [|discriminate H].
    destruct (set_item curr (length done) (fadd lpr lw_k)) as [curr1|]
      eqn:Hcurr1; cbn [bind] in H; [|discriminate H].
    destruct (index curr1 (length done)) as [c_k|] eqn:Hck;
      cbn [bind] in H; [|discriminate H].
    match type of H with
    | bind ?acc _ = _ => destruct acc as [inner1|] eqn:Hacc
    end; cbn [bind] in H; [|discriminate H].
    apply index_Ok_inv in Hlw.
    apply set_item_Ok_inv in Hcurr1. destruct Hcurr1 as [Hkc Hcurr1].
    assert (Hlen' : length (done ++ [h]) = S (length done)).
    { rewrite length_app. cbn [length]. lia. }
    assert (Hhs' : hs = (done ++ [h]) ++ todo).
    { rewrite <- app_assoc. exact Hhs. }
    replace (S (length done)) with (length (done ++ [h])) in H
      by exact Hlen'.
    specialize (IH (done ++ [h]) curr1 inner1 curr' inner' Hhs' H j).
    destruct IH as [IHout IHin]. rewrite Hlen' in IHout, IHin.
    assert (Hhslen : (length done < length hs)%nat).
    { apply nth_error_Some. rewrite Hk. discriminate. }
    split.
    + intros Hj. rewrite (IHout ltac:(lia)), Hcurr1.
      apply nth_error_set_other; solve [assumption | lia].
    + intros Hj.
      destruct (Nat.eq_dec j (length done)) as [->|Hne].
      * exists h, lw_k.
        split; [exact Hk|]. split; [exact Hlw|].
        rewrite (IHout ltac:(lia)), Hcurr1, <- Hlpr.
        apply nth_error_set_same; assumption.
      * apply IHin. lia.
Qed.

(** One sequence of the expectation step, on a model whose parts fit
    together: [curr_logprob] ends as the joint vector of the sequence and
    [logprob[-1]] has grown by its [logsumexp]. *)
Lemma estep_sequence_logprob (cls : MixHMMClass) (m : MixHMM)
  (hs : list HMM) (st st' : estep_state) (seq : ndarray) :
  well_formed m hs ->
  length (es_curr_logprob st) = n_components m ->
  estep_sequence cls m st seq = Ok st' ->
  es_curr_logprob st' = joint hs (log_component_weights m) seq
  /\ es_logprob st'
     = fadd (es_logprob st)
            (logsumexp (joint hs (log_component_weights m) seq)).
Proof.
  intros Hwf Hcurr0 H. pose proof Hwf as [Hhs [Hlen Hlw]].
  unfold estep_sequence in H.
  destruct (cls_initialize_inner_sufficient_statistics cls m)
    as [inner0|e]; [|discriminate H]. cbn [bind] in H.
  rewrite (compute_log_likelihood_well_formed seq Hwf) in H.
  cbn [bind] in H. unfold get_hmms in H. rewrite Hhs in H.
  cbn [bind] in H.
  destruct (components_loop cls m seq
              (map (fun h => hmm_compute_log_likelihood h seq) hs) 0 hs
              (es_curr_logprob st) inner0) as [[curr inner]|e] eqn:Hloop;
    [|discriminate H]. cbn [bind] in H.
  destruct (cls_accumulate_sufficient_statistics cls m (es_stats st) inner
              (params m)) as [stats|e]; [|discriminate H].
  cbn [bind] in H. injection H as <-. cbn [es_curr_logprob es_logprob].
  pose proof (@components_loop_curr cls m seq hs hs [] (es_curr_logprob st)
                inner0 curr inner eq_refl Hloop) as Hj.
  cbn [length] in Hj.
  assert (Hcurr : curr = joint hs (log_component_weights m) seq).
  { apply nth_error_ext. intros j. rewrite nth_error_joint.
    destruct (Hj j) as [Hout Hin].
    destruct (Nat.lt_ge_cases j (length hs)) as [Hlt|Hge].
    - destruct (Hin ltac:(lia)) as [h [l [Hh' [Hl Hc]]]].
      rewrite Hh', Hl. exact Hc.
    - assert (Hn : nth_error hs j = None) by (apply nth_error_None; lia).
      rewrite Hn, (Hout ltac:(lia)).
      apply nth_error_None. lia. }
  rewrite Hcurr. split; reflexivity.
Qed.

Lemma estep_sequences_logprob (cls : MixHMMClass) (m : MixHMM)
  (hs : list HMM) (obs : dataset) :
  well_formed m hs ->
  forall st st',
    length (es_curr_logprob st) = n_components m ->
    estep_sequences cls m st obs = Ok st' ->
    es_logprob st'
    = fold_left fadd
        (map (fun seq => logsumexp (joint hs (log_component_weights m) seq))
             obs)
        (es_logprob st).
Proof.
  intros Hwf. induction obs as [|seq obs IH]; intros st st' Hlen H.
  - cbn [estep_sequences] in H. injection H as <-. reflexivity.
  - cbn [estep_sequences] in H.
    destruct (estep_sequence cls m st seq) as [st1|e] eqn:H1;
      [|discriminate H]. cbn [bind] in H.
    destruct (@estep_sequence_logprob cls m hs st st1 seq Hwf Hlen H1)
      as [Hc Hl].
    cbn [map fold_left]. rewrite <- Hl. apply IH; [|exact H].
    rewrite Hc. rewrite joint_length by (destruct Hwf as [_ [? ?]]; congruence).
    destruct Hwf as [_ [? _]]. assumption.
Qed.

(** On a model whose parts fit together, the log probability an
    expectation step reports (the [logprob[-1]] whose change [fit]
    watches for convergence) is the sum, taken from [0] in the order of
    the dataset, of the log probabilities [score] returns for the
    sequences under that same model. *)
Theorem expectation_logprob_is_total_score (cls : MixHMMClass)
  (m : MixHMM) (hs : list HMM) (obs : dataset) (stats : Stats) (lp : F) :
  well_formed m hs ->
  expectation cls m obs = Ok (stats, lp) ->
  exists scores,
    score m obs = Ok scores /\ lp = fold_left fadd scores zero.
Proof.
  intros Hwf H.
  exists (map (fun seq => logsumexp (joint hs (log_component_weights m) seq))
              obs).
  split; [exact (score_well_formed obs Hwf)|].
  unfold expectation in H.
  destruct (_initialize_sufficient_statistics m) as [stats0|e];
    [|discriminate H]. cbn [bind] in H.
  destruct (estep_sequences cls m
              (mkEstep stats0 (zeros (n_components m)) zero) obs)
    as [st|e] eqn:Hst; [|discriminate H].
  cbn [bind] in H. injection H as _ <-.
  apply (@estep_sequences_logprob cls m hs obs Hwf) in Hst; [exact Hst|].
  cbn [es_curr_logprob]. unfold zeros. apply repeat_length.
Qed.

(** ** The input checks of the emission families *)

Lemma reduce_concatenate_raises (obs : dataset) (e : exn) :
  reduce_concatenate obs = Raise e <-> obs = [] /\ e = TypeError.
Proof.
  destruct obs as [|x rest]; cbn [reduce_concatenate].
  - split; [intros H; injection H as <-; split; reflexivity|].
    intros [_ ->]. reflexivity.
  - split; [discriminate | intros [H _]; discriminate H].
Qed.

(** The checks nest: a dataset [MultinomialMixHMM] accepts is accepted
    by [PoissonMixHMM], and a dataset [PoissonMixHMM] accepts is accepted
    by [ExponentialMixHMM]. *)
Theorem input_checks_nest (obs : dataset) :
  (forall obs', _check_input_symbols obs = Ok (true, obs') ->
                Poisson_check_input_symbols obs = Ok true)
  /\ (Poisson_check_input_symbols obs = Ok true ->
      Exponential_check_input_symbols obs = Ok true).
Proof.
  unfold _check_input_symbols, Poisson_check_input_symbols,
    Exponential_check_input_symbols.
  destruct (reduce_concatenate obs) as [[s|s]|e]; cbn [bind];
    (split; [intros obs' H | intros H]); try discriminate H.
  - destruct (length s =? 1)%nat; [discriminate H|].
    destruct (existsb (fun x => (x <? 0)%Z) s); [discriminate H|].
    reflexivity.
  - exact H.
Qed.

Lemma values_of_concatenate (x y : ndarray) :
  values_of (concatenate x y) = values_of x ++ values_of y.
Proof.
  destruct x, y; cbn [concatenate values_of]; rewrite ?map_app;
    reflexivity.
Qed.

Lemma values_of_fold_concatenate (rest : dataset) :
  forall x,
    values_of (fold_left concatenate rest x)
    = values_of x ++ all_values rest.
Proof.
  induction rest as [|y rest IH]; intros x; cbn [fold_left].
  - unfold all_values. cbn [flat_map]. rewrite app_nil_r. reflexivity.
  - rewrite IH, values_of_concatenate, <- app_assoc. reflexivity.
Qed.

Lemma negative_to_float (l : list Z) :
  existsb (fun x => fltb x zero) (map to_float l)
  = existsb (fun x => (x <? 0)%Z) l.
Proof.
  induction l as [|x l IH]; [reflexivity|].
  cbn [map existsb]. rewrite IH. f_equal.
  unfold to_float, zero, fltb.
  destruct (x <? 0)%Z eqn:Hx.
  - apply Rltb_true. apply Z.ltb_lt in Hx. apply (IZR_lt x 0). exact Hx.
  - apply Rltb_false. apply Z.ltb_ge in Hx. intros H.
    apply (lt_IZR x 0) in H. lia.
Qed.

Lemma existsb_false_Forall {A : Type} (f : A -> bool) (l : list A) :
  existsb f l = false <-> Forall (fun x => f x = false) l.
Proof.
  induction l as [|x l IH]; cbn [existsb].
  - split; [constructor | reflexivity].
  - rewrite Bool.orb_false_iff, IH. split.
    + intros [Hx Hl]. constructor; assumption.
    + intros H. inversion H; subst. split; assumption.
Qed.


(** [ExponentialMixHMM._check_input_symbols] answers for every dataset
    of integer and float arrays that is not empty, and answers [True]
    exactly when the dataset does not consist of one value only and no
    value compares below zero; a [nan] compares below nothing and
    passes. *)
Theorem exponential_check_accepts (obs : dataset) :
  obs <> [] ->
  exists b,
    Exponential_check_input_symbols obs = Ok b
    /\ (b = true
        <-> length (all_values obs) <> 1%nat
            /\ Forall (fun x => fltb x zero = false) (all_values obs)).
Proof.
  intros Hne. destruct obs as [|x rest]; [contradiction|].
  unfold Exponential_check_input_symbols. cbn [reduce_concatenate bind].
  assert (Hvals : values_of (fold_left concatenate rest x)
                  = all_values (x :: rest)).
  { rewrite values_of_fold_concatenate. reflexivity. }
  rewrite <- Hvals.
  destruct (fold_left concatenate rest x) as [s|s]; cbn [values_of].
  - assert (HF : Forall (fun x => fltb x zero = false) (map to_float s)
                 <-> existsb (fun x => (x <? 0)%Z) s = false).
    { rewrite <- existsb_false_Forall, negative_to_float. reflexivity. }
    rewrite length_map in *.
    destruct (length s =? 1)%nat eqn:Hone.
    + exists false. split; [reflexivity|]. split; [discriminate|].
      apply Nat.eqb_eq in Hone. intros [H _]. contradiction.
    + apply Nat.eqb_neq in Hone.
      destruct (existsb (fun x => (x <? 0)%Z) s).
      * exists false. split; [reflexivity|]. split; [discriminate|].
        intros [_ H]. apply HF in H. discriminate H.
      * exists true. split; [reflexivity|].
        split; [intros _; split; [exact Hone | apply HF; reflexivity]
               | reflexivity].
  - assert (HF : Forall (fun x => fltb x zero = false) s
                 <-> existsb (fun x => fltb x zero) s = false).
    { rewrite <- existsb_false_Forall. reflexivity. }
    destruct (length s =? 1)%nat eqn:Hone.
    + exists false. split; [reflexivity|]. split; [discriminate|].
      apply Nat.eqb_eq in Hone. intros [H _]. contradiction.
    + apply Nat.eqb_neq in Hone.
      destruct (existsb (fun x => fltb x zero) s).
      * exists false. split; [reflexivity|]. split; [discriminate|].
        intros [_ H]. apply HF in H. discriminate H.
      * exists true. split; [reflexivity|].
        split; [intros _; split; [exact Hone | apply HF; reflexivity]
               | reflexivity].
Qed.

(** ** What [MultinomialMixHMM.fit] trains on *)

Lemma check_input_symbols_passed (obs obs' : dataset) :
  _check_input_symbols obs = Ok (true, obs') -> obs' = as_checked obs.
Proof.
  unfold _check_input_symbols. intros H.
  destruct obs as [|x rest]; [discriminate H|].
  cbn [reduce_concatenate bind] in H.
  destruct (fold_left concatenate rest x) as [s|s] eqn:Hfold;
    [|discriminate H].
  destruct (length s =? 1)%nat; [discriminate H|].
  destruct (existsb (fun x => (x <? 0)%Z) s); [discriminate H|].
  destruct (existsb (fun d => (1 <? d)%Z) (diff (sort s)));
    [discriminate H|].
  injection H as <-.
  destruct rest as [|y rest]; [|destruct x; reflexivity].
  cbn [fold_left] in Hfold. subst x. reflexivity.
Qed.

(** Once its check has passed, [MultinomialMixHMM.fit] is
    [_BaseMixHMM.fit] on the dataset as the check left it: a dataset of
    several arrays as it was given, a dataset of a single array with that
    array sorted, the order of its observations gone (the check sorts
    [symbols] in place, and [reduce] over one array returns that array
    itself). *)
Theorem multinomial_fit_runs_on_checked_dataset (obs : dataset)
  (w : world) :
  obs <> [] ->
  multinomial_precondition obs ->
  ~ single_symbol obs ->
  Multinomial_fit obs w = fit MultinomialMixHMM (as_checked obs) w.
Proof.
  intros Hne Hpre Hns.
  destruct (check_input_symbols_spec Hne) as [b [obs' [Hcheck [Hb _]]]].
  assert (Htrue : b = true) by (apply Hb; split; assumption).
  subst b.
  unfold Multinomial_fit, bindM, lift. rewrite Hcheck. cbn [negb].
  rewrite (check_input_symbols_passed _ Hcheck). reflexivity.
Qed.

(** ** Sampling *)

Lemma draw_from_self {A : Type} (rs : random_state_t)
  (draw : RandomState -> A * RandomState) (w : world) :
  self (snd (draw_from rs draw w)) = self w.
Proof.
  unfold draw_from.
  destruct rs as [| seed | | g];
    try (unfold bindM, np_random_draw, ret;
         destruct (draw (np_random w)); reflexivity).
  destruct (draw g). reflexivity.
Qed.

Lemma draw_from_returns {A : Type} (rs : random_state_t)
  (draw : RandomState -> A * RandomState) (w : world) :
  exists a rs' w', draw_from rs draw w = (Ok (a, rs'), w').
Proof.
  unfold draw_from.
  destruct rs as [| seed | | g];
    try (unfold bindM, np_random_draw, ret;
         destruct (draw (np_random w)); eexists _, _, _; reflexivity).
  destruct (draw g). eexists _, _, _. reflexivity.
Qed.

(** A draw of [sample]: it returns, and writes the state of the
    generator back when the generator is the one the model holds. *)
Lemma draw_held_run {A : Type} (held : bool) (rs : random_state_t)
  (draw : RandomState -> A * RandomState) (w : world) :
  exists a rs' w',
    draw_held held rs draw w = (Ok (a, rs'), w')
    /\ self w' = if held then with_random_state (self w) rs' else self w.
Proof.
  unfold draw_held. unfold bindM at 1.
  pose proof (draw_from_self rs draw w) as Hself.
  destruct (draw_from_returns rs draw w) as [a [rs' [w' Hd]]].
  rewrite Hd in Hself |- *. cbn [snd] in Hself.
  destruct held.
  - eexists a, rs', _. unfold bindM, get_self, put_self, ret.
    split; [reflexivity|]. cbn [self]. rewrite Hself. reflexivity.
  - exists a, rs', w'. unfold bindM, ret. split; [reflexivity|exact Hself].
Qed.

Lemma first_true_bound (a : list bool) :
  forall i c, first_true i a = Some c -> (i <= c < i + length a)%nat.
Proof.
  induction a as [|b a IH]; intros i c H; cbn [first_true] in H.
  - discriminate H.
  - cbn [length]. destruct b.
    + injection H as <-. lia.
    + apply IH in H. lia.
Qed.

Lemma argmax_bool_in_range (a : list bool) (c : nat) :
  argmax_bool a = Ok c -> (c < length a)%nat.
Proof.
  unfold argmax_bool. intros H.
  assert (Hpos : (0 < length a)%nat).
  { destruct a; [discriminate H | cbn [length]; lia]. }
  assert (Hc : c = match first_true 0 a with Some i => i | None => 0%nat end).
  { destruct a; [discriminate H | injection H as <-; reflexivity]. }
  subst c.
  destruct (first_true 0 a) as [i|] eqn:Hi; [|exact Hpos].
  apply first_true_bound in Hi. lia.
Qed.

Lemma cumsum_from_length (a : vec) :
  forall acc, length (cumsum_from acc a) = length a.
Proof.
  induction a as [|x a IH]; intros acc; cbn [cumsum_from length];
    [reflexivity | rewrite IH; reflexivity].
Qed.

(** The loop of [sample], from any state of its accumulators. *)
Lemma sample_loop_run (held : bool) (n_min n_max : Z) (cdf : vec)
  (n_seq : nat) :
  forall (rs : random_state_t) (acc : samples) (w : world) r,
    sample_loop held n_seq n_min n_max cdf rs acc w = r ->
    self (snd r) = with_random_state (self w) (random_state (self (snd r)))
    /\ (held = false -> self (snd r) = self w)
    /\ (forall out rs',
           fst r = Ok (out, rs') ->
           length (sampled_components out)
           = (length (sampled_components acc) + n_seq)%nat
           /\ length (sampled_obs out)
              = (length (sampled_obs acc) + n_seq)%nat
           /\ length (sampled_states out)
              = (length (sampled_states acc) + n_seq)%nat
           /\ (Forall (fun c => (c < length cdf)%nat)
                      (sampled_components acc) ->
               Forall (fun c => (c < length cdf)%nat)
                      (sampled_components out))
           /\ (held = true -> random_state (self w) = rs ->
               random_state (self (snd r)) = rs'))
    /\ ((0 < n_seq)%nat -> (n_max <= n_min)%Z ->
        fst r = Raise (ValueError MsgNumpy))
    /\ (forall hs,
           hmms (self w) = Some hs -> length cdf = length hs ->
           (0 < length hs)%nat -> (n_min < n_max)%Z ->
           exists out rs', fst r = Ok (out, rs')).
Proof.
  assert (Hrefl : forall m : MixHMM,
            m = with_random_state m (random_state m)).
  { intros []. reflexivity. }
  induction n_seq as [|n_seq IH]; intros rs acc w r Hr.
  - cbn [sample_loop] in Hr. unfold ret in Hr. subst r. cbn [fst snd].
    split; [apply Hrefl|]. split; [reflexivity|]. split.
    + intros out rs' H. injection H as <- <-.
      rewrite !Nat.add_0_r. repeat split; auto.
    + split; [intros H; lia|]. intros hs _ _ _ _.
      eexists _, _. reflexivity.
  - cbn [sample_loop] in Hr.
    unfold bindM at 1 in Hr.
    destruct (draw_held_run held rs rand w) as [x [rs1b [w1 [Hd Hself1]]]].
    rewrite Hd in Hr.
    assert (Hkeep1 : self w1
                     = with_random_state (self w) (random_state (self w1))).
    { rewrite Hself1. destruct held; [reflexivity | apply Hrefl]. }
    assert (Hhm1 : hmms (self w1) = hmms (self w)).
    { rewrite Hself1. destruct held; reflexivity. }
    assert (Hfalse1 : held = false -> self w1 = self w).
    { intros ->. exact Hself1. }
    unfold bindM at 1 in Hr. unfold lift at 1 in Hr.
    destruct (argmax_bool (map (fun c => fgtb c x) cdf)) as [c|e] eqn:Hc.
    2:{ subst r. cbn [fst snd].
        split; [exact Hkeep1|]. split; [exact Hfalse1|].
        split; [intros out rs' H; discriminate H|].
        unfold argmax_bool in Hc.
        destruct (map (fun c => fgtb c x) cdf) as [|b l] eqn:Hmap;
          [|discriminate Hc].
        injection Hc as <-.
        split; [reflexivity|].
        intros hs _ Hlen Hpos _. exfalso.
        apply (f_equal (@length bool)) in Hmap.
        rewrite length_map in Hmap. cbn [length] in Hmap. lia. }
    pose proof (argmax_bool_in_range _ Hc) as Hcr.
    rewrite length_map in Hcr.
    unfold bindM at 1 in Hr. unfold np_random_randint at 1 in Hr.
    destruct (n_min <? n_max)%Z eqn:Hrange.
    2:{ unfold throw in Hr. subst r. cbn [fst snd].
        split; [exact Hkeep1|]. split; [exact Hfalse1|].
        split; [intros out rs' H; discriminate H|].
        split; [reflexivity|].
        intros hs _ _ _ Hlt. apply Z.ltb_ge in Hrange. lia. }
    apply Z.ltb_lt in Hrange.
    unfold np_random_draw at 1 in Hr.
    destruct (randint n_min n_max (np_random w1)) as [n g2].
    unfold bindM at 1 in Hr. unfold get_self at 1 in Hr.
    cbn [self] in Hr.
    unfold bindM at 1 in Hr. unfold lift at 1 in Hr.
    unfold get_hmms in Hr. rewrite Hhm1 in Hr.
    destruct (hmms (self w)) as [hs|] eqn:Hhs.
    2:{ subst r. cbn [fst snd self].
        split; [exact Hkeep1|]. split; [exact Hfalse1|].
        split; [intros out rs' H; discriminate H|].
        split; [intros; lia|]. intros hs H. discriminate H. }
    unfold bindM at 1 in Hr. unfold lift at 1 in Hr.
    destruct (index hs c) as [h|e] eqn:Hh.
    2:{ subst r. cbn [fst snd self].
        split; [exact Hkeep1|]. split; [exact Hfalse1|].
        split; [intros out rs' H; discriminate H|].
        split; [intros; lia|].
        intros hs' H Hlen _ _. injection H as <-.
        unfold index in Hh.
        destruct (nth_error hs c) eqn:Hn; [discriminate Hh|].
        apply nth_error_None in Hn. lia. }
    unfold bindM at 1 in Hr. unfold bindM at 1 in Hr.
    set (w2 := mkWorld (self w1) g2) in Hr.
    destruct (draw_held_run held rs1b (hmm_sample h n) w2)
      as [[obs_seq state_seq] [rs3b [w3 [Hd3 Hself3]]]].
    rewrite Hd3 in Hr.
    unfold ret at 1 in Hr. cbn [fst snd] in Hr.
    cbn [self w2] in Hself3.
    apply IH in Hr. destruct Hr as [Hkeep [Hfalse [Hlens [_ Hruns]]]].
    assert (Hhm3 : hmms (self w3) = hmms (self w)).
    { rewrite Hself3, Hhs. destruct held; cbn; exact Hhm1. }
    split.
    { rewrite Hkeep at 1. rewrite Hself3.
      destruct held; [rewrite Hkeep1 at 1; reflexivity|].
      rewrite Hkeep1 at 1. reflexivity. }
    split.
    { intros Hheld. rewrite (Hfalse Hheld). rewrite Hself3, Hheld.
      apply Hfalse1. exact Hheld. }
    split; [|split; [intros; lia|]].
    + intros out rs' H. apply Hlens in H.
      cbn [sampled_components sampled_obs sampled_states] in H.
      rewrite !length_app in H. cbn [length] in H.
      destruct H as [H1 [H2 [H3 [H4 H5]]]].
      split; [lia|]. split; [lia|]. split; [lia|]. split.
      * intros Hacc. apply H4. apply Forall_app. split; [exact Hacc|].
        constructor; [exact Hcr | constructor].
      * intros Hheld _. apply H5; [exact Hheld|].
        rewrite Hself3, Hheld. reflexivity.
    + intros hs' H Hlen Hpos Hlt. apply (Hruns hs'); try assumption.
      rewrite Hhm3. rewrite Hhs. exact H.
Qed.


(** With [n_max <= n_min] a call of [sample] for at least one sequence
    raises the [ValueError] of numpy on every model, before anything is
    sampled ([np.random.randint(low, high)] needs [low < high]). *)
Theorem sample_needs_a_length_range (n_seq : nat) (n_min n_max : Z)
  (rs : random_state_t) (w : world) :
  (0 < n_seq)%nat ->
  (n_max <= n_min)%Z ->
  fst (sample n_seq n_min n_max rs w) = Raise (ValueError MsgNumpy).
Proof.
  intros Hn Hle.
  destruct (@sample_loop_run
              match rs, random_state (self w) with
              | RsNone, RsOwn _ => true
              | _, _ => false
              end
              n_min n_max
              (cumsum (_get_component_weights (self w))) n_seq
              (check_random_state
                 match rs with
                 | RsNone => random_state (self w)
                 | _ => rs
                 end)
              (mkSamples [] [] []) w _ eq_refl)
    as [_ [_ [_ [Hraise _]]]].
  exact (Hraise Hn Hle).
Qed.

(** ** A fit with nothing to estimate *)

Lemma em_loop_idle (cls : MixHMMClass) (obs : dataset) (todo : nat) :
  forall (i : nat) (logprob : list F) (w : world) r,
    char_in "p" (params (self w)) = false ->
    char_in "h" (params (self w)) = false ->
    em_loop cls obs todo i logprob w = r ->
    log_component_weights (self (snd r)) = log_component_weights (self w)
    /\ hmms (self (snd r)) = hmms (self w)
    /\ np_random (snd r) = np_random w.
Proof.
  induction todo as [|todo IH]; intros i logprob w r Hp Hh Hr;
    cbn [em_loop] in Hr; [subst r; repeat split|].
  unfold bindM at 1 in Hr. unfold get_self at 1 in Hr.
  unfold bindM at 1 in Hr. unfold lift at 1 in Hr.
  destruct (expectation cls (self w) obs) as [[stats lp]|e];
    [|subst r; repeat split].
  match type of Hr with
  | (if ?c then _ else _) _ = _ => destruct c
  end; [subst r; repeat split|].
  unfold bindM at 1 in Hr.
  destruct (do_mstep_touches stats (params (self w)) w)
    as [Hg [_ [_ [Hlw Hhmms]]]].
  pose proof (keeps_do_mstep stats (params (self w)) w)
    as [_ [_ [_ [_ [Hparams _]]]]].
  specialize (Hlw Hp). specialize (Hhmms Hh).
  destruct (_do_mstep stats (params (self w)) w) as [[u|e] w1];
    cbn [snd] in *; [|subst r; repeat split; assumption].
  rewrite <- Hparams in Hp, Hh.
  destruct (IH (S i) (logprob ++ [lp]) w1 r Hp Hh Hr) as [H1 [H2 H3]].
  repeat split; congruence.
Qed.

(** With neither ['p'] nor ['h'] in [params] there is nothing for [fit]
    to estimate: whatever the dataset, the number of iterations and the
    way the loop ends, the component weights, the component HMMs and the
    process-wide generator are left as the initialization left them. *)
Theorem fit_with_nothing_to_estimate (cls : MixHMMClass) (obs : dataset)
  (w w0 : world) :
  cls_init cls obs (init_params (self w)) w = (Ok tt, w0) ->
  char_in "p" (params (self w0)) = false ->
  char_in "h" (params (self w0)) = false ->
  let w' := snd (fit cls obs w) in
  log_component_weights (self w') = log_component_weights (self w0)
  /\ hmms (self w') = hmms (self w0)
  /\ np_random w' = np_random w0.
Proof.
  intros Hinit Hp Hh.
  assert (Hfit : fit cls obs w = em_loop cls obs (n_iter (self w0)) 0 [] w0).
  { unfold fit. unfold bindM at 1. unfold get_self at 1.
    unfold bindM at 1. rewrite Hinit. reflexivity. }
  cbv zeta. rewrite Hfit.
  exact (@em_loop_idle cls obs (n_iter (self w0)) 0%nat [] w0 _ Hp Hh
           eq_refl).
Qed.

(** ** The initialization of [MultinomialMixHMM] *)

Lemma Base_init_frame (obs : dataset) (params : string) (w : world) r :
  Base_init obs params w = r ->
  hmms (self (snd r)) = hmms (self w)
  /\ random_state (self (snd r)) = random_state (self w)
  /\ n_components (self (snd r)) = n_components (self w)
  /\ n_states (self (snd r)) = n_states (self w)
  /\ emissionprob_prior (self (snd r)) = emissionprob_prior (self w)
  /\ (char_in "p" params = false -> fst r = Ok tt).
Proof.
  intros Hr. unfold Base_init in Hr.
  destruct (char_in "p" params); [|subst r; repeat split].
  destruct w as [m g].
  unfold bindM at 1 in Hr. unfold get_self at 1 in Hr. cbn [self] in Hr.
  unfold bindM at 1 in Hr. unfold np_random_dirichlet in Hr.
  destruct (component_weights_prior m) as [[x|v]|];
    try (subst r; repeat split; discriminate).
  unfold np_random_draw in Hr. cbn [np_random self] in Hr.
  destruct (dirichlet v g) as [v' g'].
  destruct (set_component_weights_frame v' (mkWorld m g'))
    as [Ha [_ [Hc _]]].
  pose proof (keeps_set_component_weights (Some v') (mkWorld m g'))
    as [K1 [K2 [_ [_ [_ [_ [_ [K8 _]]]]]]]].
  rewrite Hr in *. cbn [self] in *.
  repeat split; try assumption. discriminate.
Qed.

(** [for hmm in self.hmms: hmm._init(obs)], from component
    [length done] on. *)
Lemma init_hmms_run (obs : dataset) (todo : list HMM) :
  forall (done : list HMM) (w : world),
    hmms (self w) = Some (done ++ todo) ->
    exists todo' g',
      init_hmms (length done) todo obs w
      = (Ok tt, mkWorld (with_hmms (self w) (Some (done ++ todo'))) g')
      /\ length todo' = length todo.
Proof.
  induction todo as [|hmm todo IH]; intros done w Hhs.
  - exists [], (np_random w). split; [|reflexivity].
    cbn [init_hmms]. unfold ret. rewrite <- Hhs.
    destruct w as [m g]. destruct m. reflexivity.
  - cbn [init_hmms]. unfold bindM at 1. unfold np_random_draw.
    destruct (hmm_init hmm obs (np_random w)) as [hmm' g1].
    unfold bindM at 1.
    assert (Hput : put_hmm (length done) hmm' (mkWorld (self w) g1)
                   = (Ok tt,
                      mkWorld (with_hmms (self w)
                                 (Some (done ++ hmm' :: todo))) g1)).
    { unfold put_hmm, bindM, get_self, lift. cbn [self]. rewrite Hhs.
      rewrite set_item_middle. reflexivity. }
    rewrite Hput.
    replace (S (length done)) with (length (done ++ [hmm']))
      by (rewrite length_app; cbn [length]; lia).
    destruct (IH (done ++ [hmm'])
                (mkWorld (with_hmms (self w) (Some (done ++ hmm' :: todo)))
                         g1))
      as [todo' [g' [Hrun Hlen]]].
    { cbn [self with_hmms hmms]. rewrite <- app_assoc. reflexivity. }
    exists (hmm' :: todo'), g'. split; [|cbn [length]; lia].
    rewrite Hrun. cbn [self]. rewrite with_hmms_twice.
    rewrite <- app_assoc. reflexivity.
Qed.

(** [MultinomialMixHMM._init]: component HMMs the instance already has
    are left as they are, whatever [params] says; an instance without
    them is given [n_components] of them when ['h'] is in [params], and
    stays without them otherwise; [random_state] is replaced by what
    [check_random_state] makes of it; and without ['p'] in [params] the
    call returns. *)
Theorem multinomial_init_component_hmms (obs : dataset) (params : string)
  (w : world) :
  let r := Multinomial_init obs params w in
  (forall hs, hmms (self w) = Some hs -> hmms (self (snd r)) = Some hs)
  /\ (hmms (self w) = None -> char_in "h" params = true ->
      fst r = Ok tt ->
      exists hs',
        hmms (self (snd r)) = Some hs'
        /\ length hs' = n_components (self w))
  /\ (hmms (self w) = None -> char_in "h" params = false ->
      hmms (self (snd r)) = None)
  /\ (fst r = Ok tt ->
      random_state (self (snd r))
      = check_random_state (random_state (self w)))
  /\ (char_in "p" params = false -> fst r = Ok tt).
Proof.
  intros r.
  assert (Hcases :
            (exists e w1,
                r = (Raise e, w1)
                /\ hmms (self w1) = hmms (self w)
                /\ char_in "p" params = true)
            \/ (exists w1,
                   r = (Ok tt, w1)
                   /\ random_state (self w1)
                      = check_random_state (random_state (self w))
                   /\ match hmms (self w) with
                      | Some hs => hmms (self w1) = Some hs
                      | None =>
                          if char_in "h" params
                          then exists hs',
                              hmms (self w1) = Some hs'
                              /\ length hs' = n_components (self w)
                          else hmms (self w1) = None
                      end)).
  { assert (Hr0 : Multinomial_init obs params w = r) by reflexivity.
    clearbody r. unfold Multinomial_init in Hr0.
    unfold bindM at 1 in Hr0.
    destruct (@Base_init_frame obs params w _ eq_refl)
      as [Hh [Hr [HK [HS [HE Hok]]]]].
    destruct (Base_init obs params w) as [[u|e] w1]; cbn [fst snd] in *.
    2:{ left. exists e, w1. split; [symmetry; exact Hr0|].
        split; [exact Hh|].
        destruct (char_in "p" params); [reflexivity|].
        specialize (Hok eq_refl). discriminate Hok. }
    right. destruct w1 as [m1 g1]. cbn [self] in *.
    unfold bindM at 1 in Hr0. unfold get_self at 1 in Hr0.
    cbn [self] in Hr0.
    unfold bindM at 1 in Hr0. unfold put_self at 1 in Hr0.
    cbn [np_random] in Hr0.
    unfold bindM at 1 in Hr0. unfold get_self at 1 in Hr0.
    cbn [self with_random_state hmms] in Hr0.
    destruct (hmms m1) as [hs|] eqn:Hhs1.
    - unfold ret in Hr0. eexists. split; [symmetry; exact Hr0|].
      cbn [self with_random_state random_state hmms].
      rewrite Hr, <- Hh. split; [reflexivity | exact Hhs1].
    - rewrite <- Hh.
      destruct (char_in "h" params).
      + unfold bindM at 1 in Hr0. unfold put_self at 1 in Hr0.
        cbn [n_states n_components emissionprob_prior with_random_state
             np_random self] in Hr0.
        match type of Hr0 with
        | init_hmms 0 ?hs obs ?w0 = _ =>
            destruct (@init_hmms_run obs hs [] w0 eq_refl)
              as [hs' [g' [Hrun Hlen]]]
        end.
        cbn [length app] in Hrun. rewrite Hrun in Hr0.
        eexists. split; [symmetry; exact Hr0|].
        cbn [self with_hmms with_random_state random_state hmms].
        rewrite Hr. split; [reflexivity|].
        exists hs'. split; [reflexivity|].
        rewrite Hlen, repeat_length. exact HK.
      + unfold ret in Hr0. eexists. split; [symmetry; exact Hr0|].
        cbn [self with_random_state random_state hmms].
        rewrite Hr. split; [reflexivity | exact Hhs1]. }
  destruct Hcases as [[e [w1 [Hr [Hh Hp]]]]|[w1 [Hr [Hrs Hh]]]];
    rewrite Hr; cbn [fst snd].
  - split; [intros hs H; congruence|].
    split; [intros _ _ H; discriminate H|].
    split; [intros H _; congruence|].
    split; [intros H; discriminate H|].
    rewrite Hp. discriminate.
  - split; [intros hs H; rewrite H in Hh; exact Hh|].
    split; [intros H Hc _; rewrite H, Hc in Hh; exact Hh|].
    split; [intros H Hc; rewrite H, Hc in Hh; exact Hh|].
    split; [intros _; exact Hrs | intros _; reflexivity].
Qed.

(** ** The constructors *)

Lemma set_component_weights_Ok (v : option vec) (w w' : world) (u : unit) :
  _set_component_weights v w = (Ok u, w') ->
  exists cw,
    self w' = with_log_component_weights (self w) (vlog cw)
    /\ length cw = n_components (self w)
    /\ allclose_one (fsum cw) = true
    /\ (forall v', v = Some v' ->
                   cw = after_zero_test v' /\ np_random w' = np_random w).
Proof.
  destruct w as [m g]. destruct v as [v|].
  - rewrite set_component_weights_Some. cbn [self np_random].
    destruct (length v =? n_components m)%nat eqn:Hlen; cbn [negb];
      [|discriminate].
    destruct (allclose_one (fsum (after_zero_test v))) eqn:Hsum;
      cbn [negb]; [|discriminate].
    intros H. injection H as Hu Hw. subst w'. exists (after_zero_test v).
    cbn [self np_random].
    apply Nat.eqb_eq in Hlen.
    split; [reflexivity|].
    split; [rewrite after_zero_test_length; exact Hlen|].
    split; [exact Hsum|].
    intros v' Hv. injection Hv as <-. split; reflexivity.
  - unfold _set_component_weights, bindM, get_self. cbn [self].
    destruct (n_components m =? 0)%nat; [discriminate|].
    unfold np_random_draw. cbn [np_random self].
    destruct (randomize _ g) as [v g'].
    destruct (negb (length (after_zero_test v) =? n_components m)%nat)
      eqn:Hlen; [discriminate|].
    destruct (negb (allclose_one (fsum (after_zero_test v)))) eqn:Hsum;
      [discriminate|].
    unfold put_self. cbn [np_random].
    intros H. injection H as Hu Hw. subst w'. exists (after_zero_test v).
    apply Bool.negb_false_iff in Hlen, Hsum. apply Nat.eqb_eq in Hlen.
    cbn [self].
    split; [reflexivity|]. split; [exact Hlen|]. split; [exact Hsum|].
    intros v' Hv. discriminate Hv.
Qed.

Lemma constructor_base_fields (K S : nat)
  (hs : option (list HMM)) (cw : option vec) (prior : option prior_value)
  (rs : random_state_t) (n_it : nat) (th : F) (ps ips : string)
  (vb : nat) (unset : EmissionPrior) (g : RandomState) :
  forall m,
    fst (Base___init__ K S hs cw prior rs n_it th ps ips vb unset g)
    = Ok m ->
    length (log_component_weights m) = n_components m
    /\ n_components m = K
    /\ component_weights_prior m
       = Some (match prior with
               | None => PriorArray (ones K)
               | Some p => p
               end).
Proof.
  intros m Hm. unfold Base___init__ in Hm. cbv zeta in Hm.
  destruct (_set_component_weights cw _) as [[u|e] w'] eqn:Hset;
    [|discriminate Hm].
  cbn [fst] in Hm. injection Hm as <-.
  destruct (set_component_weights_Ok _ _ Hset)
    as [cw' [Hself [Hlen _]]].
  cbn [self n_components] in Hlen.
  rewrite Hself.
  cbn [with_log_component_weights log_component_weights n_components
       component_weights_prior self].
  unfold vlog. rewrite length_map.
  repeat split; try reflexivity. exact Hlen.
Qed.

(** [_BaseMixHMM.__init__]: an instance it returns has exactly
    [n_components] log weights, a [component_weights_prior] that is not
    [None] (the one given, or [np.ones(n_components)]), and the other
    settings as given.  Given [n_components] positive weights whose sum
    passes the check, it returns, the instance reads the weights back
    and the process-wide generator is untouched.  Without weights and
    with [n_components = 0] it raises [ZeroDivisionError]
    ([1.0 / self.n_components]). *)
Theorem constructor_establishes_the_weights (K S : nat)
  (hs : option (list HMM)) (cw : option vec) (prior : option prior_value)
  (rs : random_state_t) (n_it : nat) (th : F) (ps ips : string)
  (vb : nat) (unset : EmissionPrior) (g : RandomState) :
  let r := Base___init__ K S hs cw prior rs n_it th ps ips vb unset g in
  (forall m,
      fst r = Ok m ->
      length (log_component_weights m) = n_components m
      /\ n_components m = K /\ n_states m = S /\ hmms m = hs
      /\ n_iter m = n_it /\ thresh m = th /\ params m = ps
      /\ init_params m = ips /\ random_state m = rs /\ verbose m = vb
      /\ component_weights_prior m
         = Some (match prior with
                 | None => PriorArray (ones K)
                 | Some p => p
                 end))
  /\ (forall vr,
         cw = Some (map Fin vr) ->
         length vr = K ->
         (Rabs (fold_right Rplus 0 vr - 1) <= 1e-8 + 1e-5)%R ->
         Forall (fun x => (0 < x)%R) vr ->
         exists m, r = (Ok m, g) /\ _get_component_weights m = map Fin vr)
  /\ (cw = None -> K = 0%nat -> r = (Raise ZeroDivisionError, g)).
Proof.
  intros r.
  assert (Hr : Base___init__ K S hs cw prior rs n_it th ps ips vb unset g
               = r) by reflexivity.
  clearbody r. unfold Base___init__ in Hr. cbv zeta in Hr.
  split; [|split].
  - intros m Hm.
    destruct (_set_component_weights cw _) as [[u|e] w'] eqn:Hset.
    2:{ subst r. discriminate Hm. }
    subst r. cbn [fst] in Hm. injection Hm as <-.
    destruct (set_component_weights_Ok _ _ Hset)
      as [cw' [Hself [Hlen _]]].
    cbn [self n_components] in Hlen.
    rewrite Hself.
    cbn [with_log_component_weights log_component_weights n_components
         n_states hmms n_iter thresh params init_params random_state
         verbose component_weights_prior self].
    unfold vlog. rewrite length_map.
    repeat split; try reflexivity. exact Hlen.
  - intros vr -> Hlen Hsum Hpos.
    rewrite set_component_weights_nonzero in Hr
      by (apply alltrue_positive; exact Hpos).
    cbn [self n_components np_random] in Hr.
    rewrite length_map, Hlen, Nat.eqb_refl in Hr. cbn [negb] in Hr.
    rewrite fsum_Fin in Hr. unfold allclose_one in Hr.
    rewrite Rleb_true in Hr by (rewrite tolerance_value; exact Hsum).
    cbn [negb self np_random with_log_component_weights
         log_component_weights] in Hr.
    eexists. split; [symmetry; exact Hr|].
    unfold _get_component_weights. cbn [log_component_weights].
    apply vexp_vlog_positive. exact Hpos.
  - intros -> ->. subst r.
    unfold _set_component_weights, bindM, get_self, throw.
    cbn [self n_components]. reflexivity.
Qed.

(** [MultinomialMixHMM.__init__] passes no prior on: the instance it
    returns has [np.ones(n_components)] as [component_weights_prior],
    exactly [n_components] log weights, and the [emissionprob_prior] it
    was given; it raises what [_BaseMixHMM.__init__] raises. *)
Theorem multinomial_constructor_prior (K S : nat)
  (hs : option (list HMM)) (cw : option vec)
  (rs : random_state_t) (n_it : nat) (th : F) (ps ips : string)
  (vb : nat) (ep : EmissionPrior) (g : RandomState) :
  let r := Multinomial___init__ K S hs cw rs n_it th ps ips vb ep g in
  (forall m,
      fst r = Ok m ->
      component_weights_prior m = Some (PriorArray (ones K))
      /\ length (log_component_weights m) = K
      /\ n_components m = K
      /\ emissionprob_prior m = ep)
  /\ (forall e,
         fst r = Raise e
         <-> fst (Base___init__ K S hs cw None rs n_it th ps ips vb ep g)
             = Raise e).
Proof.
  intros r.
  assert (Hr : Multinomial___init__ K S hs cw rs n_it th ps ips vb ep g
               = r) by reflexivity.
  clearbody r. unfold Multinomial___init__ in Hr.
  pose proof (constructor_base_fields K S hs cw None rs n_it th ps ips vb
                ep g) as Hbase.
  destruct (Base___init__ K S hs cw None rs n_it th ps ips vb ep g)
    as [[m0|e0] g'].
  - destruct (Hbase m0 eq_refl) as [Hlen [HK Hprior]].
    destruct m0. subst r. cbn [fst]. split.
    + intros m Hm. injection Hm as <-.
      cbn in Hlen, HK, Hprior |- *. subst.
      repeat split; try assumption; reflexivity.
    + intros e. split; discriminate.
  - subst r. cbn [fst]. split; [discriminate|].
    intros e. split; exact (fun H => H).
Qed.

(** ** The emission counts of [MultinomialMixHMM] *)

Lemma mapM2_Ok_map2 {A B C : Type} (f : A -> B -> res C)
  (g : A -> B -> C) (la : list A) :
  forall lb,
    length la = length lb ->
    Forall2 (fun a b => f a b = Ok (g a b)) la lb ->
    mapM2 f la lb = Ok (map2 g la lb).
Proof.
  induction la as [|a la IH]; intros [|b lb] Hlen H; try discriminate Hlen.
  - reflexivity.
  - inversion H as [|? ? ? ? Hab Hrest]; subst.
    cbn [mapM2 map2]. rewrite Hab. cbn [bind].
    rewrite (IH lb) by (try exact Hrest; cbn [length] in Hlen; lia).
    reflexivity.
Qed.

Lemma Forall2_same_length_Forall {A B : Type} (P : A -> Prop)
  (Q : A -> B -> Prop) (la : list A) :
  forall lb,
    length la = length lb ->
    Forall P la ->
    (forall a b, P a -> Q a b) ->
    Forall2 Q la lb.
Proof.
  induction la as [|a la IH]; intros [|b lb] Hlen HP HQ;
    try discriminate Hlen; constructor.
  - apply HQ. inversion HP; assumption.
  - apply IH; [cbn [length] in Hlen; lia | inversion HP; assumption
               | exact HQ].
Qed.

Lemma nth_nth_error {A : Type} (l : list A) (k : nat) (d : A) :
  nth k l d = match nth_error l k with Some x => x | None => d end.
Proof.
  revert k. induction l as [|x l IH]; intros [|k]; cbn; try reflexivity.
  apply IH.
Qed.

(** [a[:, symbol] += v] on a matrix of [width] columns, for a symbol that
    is one of its columns. *)
Lemma iadd_column_run (a : mat) (width : nat) (symbol : Z) (v : vec) :
  (0 < length a)%nat ->
  Forall (fun row => length row = width) a ->
  (0 <= symbol < Z.of_nat width)%Z ->
  length v = length a ->
  exists a',
    iadd_column a symbol v = Ok a'
    /\ length a' = length a
    /\ Forall (fun row => length row = width) a'
    /\ forall i j,
         (i < length a)%nat -> (j < width)%nat ->
         entry a' i j
         = if (Z.to_nat symbol =? j)%nat
           then fadd (entry a i j) (nth i v NaN)
           else entry a i j.
Proof.
  intros Hrows Hrect Hsym Hv.
  set (k := Z.to_nat symbol).
  assert (Hk : (k < width)%nat) by (unfold k; lia).
  set (upd := fun (row : vec) (x : F) =>
                firstn k row ++ fadd (nth k row NaN) x :: skipn (S k) row).
  exists (map2 upd a v).
  assert (Hhd : length (hd [] a) = width).
  { destruct a as [|row a]; [cbn [length] in Hrows; lia|].
    inversion Hrect; assumption. }
  split; [|split; [|split]].
  - unfold iadd_column. rewrite Hhd. unfold column_index.
    destruct ((0 <=? symbol)%Z && (symbol <? Z.of_nat width)%Z) eqn:Hin.
    2:{ apply Bool.andb_false_iff in Hin.
        destruct Hin as [H|H]; [apply Z.leb_gt in H | apply Z.ltb_ge in H];
          lia. }
    cbn [bind]. unfold broadcast_to. rewrite Hv, Nat.eqb_refl. cbn [bind].
    apply mapM2_Ok_map2; [symmetry; exact Hv|].
    apply (Forall2_same_length_Forall (P := fun row => length row = width));
      [symmetry; exact Hv | exact Hrect|].
    intros row x Hrow. fold k.
    assert (Hidx : index row k = Ok (nth k row NaN)).
    { unfold index. rewrite (nth_nth_error row k NaN).
      destruct (nth_error row k) eqn:Hn; [reflexivity|].
      apply nth_error_None in Hn. lia. }
    rewrite Hidx. cbn [bind].
    apply set_item_in_range. lia.
  - apply map2_length. symmetry. exact Hv.
  - clear Hrows Hhd. revert v Hv.
    induction Hrect as [|row a Hrow Hrect IH]; intros [|x v] Hv;
      try discriminate Hv; cbn [map2]; constructor.
    + unfold upd. rewrite length_set by lia. exact Hrow.
    + apply IH. cbn [length] in Hv. lia.
  - intros i j Hi Hj. unfold entry.
    assert (Hrow : nth (A:=vec) i (map2 upd a v) []
                   = upd (nth i a []) (nth i v NaN)).
    { rewrite (nth_nth_error (map2 upd a v)), nth_error_map2.
      rewrite (nth_nth_error a i []), (nth_nth_error v i NaN).
      destruct (nth_error a i) eqn:Ha;
        [|apply nth_error_None in Ha; lia].
      destruct (nth_error v i) eqn:Hvi;
        [reflexivity | apply nth_error_None in Hvi; lia]. }
    rewrite Hrow.
    assert (Hlen : length (nth i a []) = width).
    { rewrite Forall_forall in Hrect. apply Hrect. apply nth_In. exact Hi. }
    fold k. unfold upd.
    rewrite (nth_nth_error _ j NaN).
    destruct (k =? j)%nat eqn:Hkj.
    + apply Nat.eqb_eq in Hkj. subst j.
      rewrite nth_error_set_same by lia. reflexivity.
    + apply Nat.eqb_neq in Hkj.
      rewrite nth_error_set_other by lia.
      rewrite <- nth_nth_error. reflexivity.
Qed.

(** The loop [for t, symbol in enumerate(obs)] of
    [MultinomialMixHMM._accumulate_inner_sufficient_statistics], run on
    an [n_states] by [n_symbols] table of counts with [n_states > 0], a
    row of [n_states] posteriors for every observation, and symbols that
    are all below [n_symbols]: the loop returns a table of the same
    shape in which the count of state [i] and symbol [j] has grown by
    the posteriors [posteriors[t, i]] of the times [t] at which the
    sequence shows symbol [j], added one by one in the order of the
    sequence. *)
Theorem accumulate_symbols_counts (posteriors : mat) (width : nat)
  (symbols : list Z) :
  forall (obs_k : mat) (t0 : nat),
    (0 < length obs_k)%nat ->
    Forall (fun row => length row = width) obs_k ->
    Forall (fun symbol => (0 <= symbol < Z.of_nat width)%Z) symbols ->
    (t0 + length symbols <= length posteriors)%nat ->
    Forall (fun p => length p = length obs_k) posteriors ->
    exists obs_k',
      accumulate_symbols obs_k posteriors t0 symbols = Ok obs_k'
      /\ length obs_k' = length obs_k
      /\ Forall (fun row => length row = width) obs_k'
      /\ forall i j,
           (i < length obs_k)%nat -> (j < width)%nat ->
           entry obs_k' i j
           = fold_left fadd (contributions posteriors t0 symbols i j)
                       (entry obs_k i j).
Proof.
  induction symbols as [|symbol symbols IH];
    intros obs_k t0 Hrows Hrect Hsyms Ht Hpost.
  - exists obs_k. cbn [accumulate_symbols contributions fold_left].
    repeat split; try assumption; reflexivity.
  - inversion Hsyms as [|? ? Hsym Hsyms']; subst.
    cbn [length] in Ht.
    cbn [accumulate_symbols].
    assert (Hp : index posteriors t0 = Ok (nth t0 posteriors [])).
    { unfold index. rewrite (nth_nth_error posteriors t0 []).
      destruct (nth_error posteriors t0) eqn:Hn; [reflexivity|].
      apply nth_error_None in Hn. lia. }
    rewrite Hp. cbn [bind].
    assert (Hplen : length (nth t0 posteriors []) = length obs_k).
    { rewrite Forall_forall in Hpost. apply Hpost. apply nth_In. lia. }
    destruct (@iadd_column_run obs_k width symbol (nth t0 posteriors [])
                Hrows Hrect Hsym Hplen)
      as [a1 [Hrun [Hlen1 [Hrect1 Hentry1]]]].
    rewrite Hrun. cbn [bind].
    destruct (IH a1 (S t0)) as [a2 [Hrun2 [Hlen2 [Hrect2 Hentry2]]]];
      try assumption; try lia.
    { rewrite Hlen1. exact Hpost. }
    exists a2. split; [exact Hrun2|]. split; [congruence|].
    split; [exact Hrect2|].
    intros i j Hi Hj.
    rewrite Hentry2 by (try exact Hj; lia).
    rewrite (Hentry1 i j Hi Hj).
    cbn [contributions]. rewrite fold_left_app.
    destruct (Z.to_nat symbol =? j)%nat; reflexivity.
Qed.

Lemma iadd_column_width (a a' : mat) (symbol : Z) (v : vec) :
  iadd_column a symbol v = Ok a' ->
  length a' = length a
  /\ length (hd [] a') = length (hd [] a)
  /\ (- Z.of_nat (length (hd [] a)) <= symbol < Z.of_nat (length (hd [] a)))%Z.
Proof.
  unfold iadd_column, column_index. intros H.
  set (width := length (hd [] a)) in *.
  assert (Hsym : exists j, (j < width)%nat
                           /\ (v' <- broadcast_to (length a) v ;;
                               mapM2 (fun row x =>
                                        c <- index row j ;;
                                        set_item row j (fadd c x)) a v')%res
                              = Ok a'
                           /\ (- Z.of_nat width <= symbol < Z.of_nat width)%Z).
  { destruct ((0 <=? symbol)%Z && (symbol <? Z.of_nat width)%Z) eqn:H1.
    - apply andb_prop in H1. destruct H1 as [Ha Hb].
      apply Z.leb_le in Ha. apply Z.ltb_lt in Hb.
      cbn [bind] in H. eexists. split; [|split; [exact H|lia]]. lia.
    - destruct ((symbol <? 0)%Z && (- Z.of_nat width <=? symbol)%Z) eqn:H2;
        [|discriminate H].
      apply andb_prop in H2. destruct H2 as [Ha Hb].
      apply Z.ltb_lt in Ha. apply Z.leb_le in Hb.
      cbn [bind] in H. eexists. split; [|split; [exact H|lia]]. lia. }
  destruct Hsym as [j [Hj [Hrun Hrange]]].
  cut (length a' = length a /\ length (hd [] a') = length (hd [] a));
    [intros [H1 H2]; split; [exact H1 | split; [exact H2 | exact Hrange]]|].
  destruct (broadcast_to (length a) v) as [v'|e] eqn:Hb;
    [|discriminate Hrun].
  assert (Hv' : length v' = length a).
  { unfold broadcast_to in Hb.
    destruct (length v =? length a)%nat eqn:Hlen.
    - injection Hb as <-. apply Nat.eqb_eq. exact Hlen.
    - destruct v as [|x [|y v]]; try discriminate Hb.
      injection Hb as <-. apply repeat_length. }
  cbn [bind] in Hrun.
  destruct a as [|row a]; destruct v' as [|x v'];
    try discriminate Hv'.
  - injection Hrun as <-. split; reflexivity.
  - cbn [mapM2] in Hrun.
    destruct (index row j) as [c|e]; [|discriminate Hrun].
    cbn [bind] in Hrun.
    destruct (set_item row j (fadd c x)) as [row'|e] eqn:Hset;
      [|discriminate Hrun].
    cbn [bind] in Hrun.
    match type of Hrun with
    | bind ?c _ = _ => destruct c as [rest|e] eqn:Hrest
    end; [|discriminate Hrun].
    cbn [bind] in Hrun. injection Hrun as <-. cbn [hd].
    apply set_item_Ok_inv in Hset. destruct Hset as [Hk ->].
    split; [|apply length_set; exact Hk].
    cbn [length]. f_equal.
    clear - Hrest Hv'. cbn [length] in Hv'.
    assert (Hlen : length v' = length a) by lia. clear Hv'.
    revert v' rest Hrest Hlen.
    induction a as [|r a IH]; intros [|y v'] rest Hrest Hlen;
      try discriminate Hlen.
    + injection Hrest as <-. reflexivity.
    + cbn [mapM2] in Hrest.
      destruct (index r j) as [c|e]; [|discriminate Hrest].
      cbn [bind] in Hrest.
      destruct (set_item r j (fadd c y)) as [r'|e]; [|discriminate Hrest].
      cbn [bind] in Hrest.
      match type of Hrest with
      | bind ?c _ = _ => destruct c as [rest'|e] eqn:Hrest'
      end; [|discriminate Hrest].
      cbn [bind] in Hrest. injection Hrest as <-. cbn [length]. f_equal.
      apply (IH v' rest' Hrest'). cbn [length] in Hlen. lia.
Qed.

(** A symbol the table of counts has no column for: on a table with at
    least one state, when the sequence holds a symbol that is [n_symbols]
    or more (or below [-n_symbols]), the loop does not return, it ends by
    raising. *)
Theorem accumulate_symbols_unknown_symbol (posteriors : mat)
  (symbols : list Z) (symbol : Z) :
  forall (obs_k : mat) (t0 : nat),
    (0 < length obs_k)%nat ->
    In symbol symbols ->
    (Z.of_nat (length (hd [] obs_k)) <= symbol
     \/ symbol < - Z.of_nat (length (hd [] obs_k)))%Z ->
    exists e, accumulate_symbols obs_k posteriors t0 symbols = Raise e.
Proof.
  induction symbols as [|s symbols IH]; intros obs_k t0 Hrows Hin Hout;
    [destruct Hin|].
  cbn [accumulate_symbols].
  destruct (index posteriors t0) as [p|e]; [|exists e; reflexivity].
  cbn [bind].
  destruct (iadd_column obs_k s p) as [a1|e] eqn:Hstep;
    [|exists e; reflexivity].
  cbn [bind].
  apply iadd_column_width in Hstep. destruct Hstep as [Hl [Hw Hrange]].
  destruct Hin as [->|Hin]; [lia|].
  apply IH; [rewrite Hl; exact Hrows | exact Hin |].
  rewrite Hw. exact Hout.
Qed.

(** ** A threshold that never stops the loop *)

Lemma fltb_fabs_nonpositive (x : F) (t : R) :
  (t <= 0)%R -> fltb (fabs x) (Fin t) = false.
Proof.
  intros Ht. destruct x as [r| | |]; cbn [fabs fltb]; try reflexivity.
  apply Rltb_false. pose proof (Rabs_pos r). lra.
Qed.

Lemma em_loop_no_threshold (cls : MixHMMClass) (obs : dataset) (t : R)
  (todo : nat) :
  (t <= 0)%R ->
  forall (i : nat) (logprob : list F) (w w' : world) (j : nat),
    thresh (self w) = Fin t ->
    em_loop cls obs todo i logprob w <> (Ok (Converged j), w').
Proof.
  intros Ht.
  induction todo as [|todo IH]; intros i logprob w w' j Hth H;
    cbn [em_loop] in H; [discriminate H|].
  unfold bindM at 1 in H. unfold get_self at 1 in H.
  unfold bindM at 1 in H. unfold lift at 1 in H.
  destruct (expectation cls (self w) obs) as [[stats lp]|e];
    [|discriminate H].
  rewrite Hth in H. rewrite fltb_fabs_nonpositive in H by exact Ht.
  rewrite Bool.andb_false_r in H.
  unfold bindM at 1 in H.
  pose proof (keeps_do_mstep stats (params (self w)) w)
    as [_ [_ [_ [Hthresh _]]]].
  destruct (_do_mstep stats (params (self w)) w) as [[u|e] w1];
    cbn [snd] in *; [|discriminate H].
  apply (IH (S i) (logprob ++ [lp]) w1 w' j); [congruence | exact H].
Qed.

(** With [thresh] at zero or below, the convergence check
    [abs(logprob[-1] - logprob[-2]) < self.thresh] never holds: [fit]
    does not stop early, it ends by running out of iterations or by
    raising. *)
Theorem fit_without_threshold_runs_every_iteration (cls : MixHMMClass)
  (obs : dataset) (w w0 : world) (t : R) :
  cls_init cls obs (init_params (self w)) w = (Ok tt, w0) ->
  thresh (self w0) = Fin t ->
  (t <= 0)%R ->
  forall j w', fit cls obs w <> (Ok (Converged j), w').
Proof.
  intros Hinit Hth Ht j w'.
  assert (Hfit : fit cls obs w = em_loop cls obs (n_iter (self w0)) 0 [] w0).
  { unfold fit. unfold bindM at 1. unfold get_self at 1.
    unfold bindM at 1. rewrite Hinit. reflexivity. }
  rewrite Hfit. apply (@em_loop_no_threshold cls obs t); assumption.
Qed.

(** ** The expected transition counts of a sequence *)

Lemma fexp_fminimum_clamped (x : F) :
  clamped_count (fexp (fminimum x (Fin 700))).
Proof.
  unfold clamped_count.
  destruct x as [r| | |]; cbn [fminimum fltb].
  - destruct (Rlt_dec 700 r) as [Hlt|Hge].
    + rewrite (Rltb_true Hlt). right. exists (exp 700).
      split; [reflexivity|]. pose proof (exp_pos 700). lra.
    + rewrite (Rltb_false Hge). right. exists (exp r).
      split; [reflexivity|]. pose proof (exp_pos r).
      split; [lra|].
      destruct (Req_dec_T r 700) as [->|Hne]; [lra|].
      left. apply exp_increasing. lra.
  - right. exists (exp 700). split; [reflexivity|].
    pose proof (exp_pos 700). lra.
  - right. exists 0%R. split; [reflexivity|].
    pose proof (exp_pos 700). lra.
  - left. reflexivity.
Qed.

Lemma clamped_increments (a : mat) :
  Forall (Forall clamped_count) (map vexp (minimum2 a (Fin 700))).
Proof.
  unfold minimum2, vexp. rewrite map_map.
  apply Forall_forall. intros row Hrow.
  apply in_map_iff in Hrow. destruct Hrow as [row0 [<- _]].
  rewrite map_map. apply Forall_forall. intros x Hx.
  apply in_map_iff in Hx. destruct Hx as [x0 [<- _]].
  apply fexp_fminimum_clamped.
Qed.

(** With ['h'] in [params], the inner accumulation of a sequence of more
    than one observation for component [k]: when the call returns, the
    [trans] statistics of [k] have grown, by numpy's [+=], by a table
    whose every entry is a [nan] or a number between [0] and [exp(700)]
    (the clamp [np.minimum(logsumexp(lneta, 0), 700)] keeps [np.exp]
    from overflowing), and the [trans] statistics of the other
    components are as they were. *)
Theorem inner_transition_counts_are_clamped (m : MixHMM)
  (stats stats' : InnerStats) (seq : ndarray)
  (framelogprob posteriors fwdlattice bwdlattice : mat)
  (params : string) (k : nat) (curr_logprob : F) :
  char_in "h" params = true ->
  (1 < length framelogprob)%nat ->
  Base_accumulate_inner_sufficient_statistics m stats seq framelogprob
    posteriors fwdlattice bwdlattice params k curr_logprob = Ok stats' ->
  exists trans_k increment trans_k',
    nth_error (inner_trans stats) k = Some trans_k
    /\ Forall (Forall clamped_count) increment
    /\ iadd2 trans_k increment = Ok trans_k'
    /\ nth_error (inner_trans stats') k = Some trans_k'
    /\ forall j, j <> k ->
                 nth_error (inner_trans stats') j
                 = nth_error (inner_trans stats) j.
Proof.
  intros Hh HT H.
  unfold Base_accumulate_inner_sufficient_statistics in H.
  rewrite Hh in H. apply Nat.ltb_lt in HT. rewrite HT in H.
  cbn [inner_start inner_trans inner_obs inner_component_weights] in H.
  destruct (index (inner_component_weights stats) k) as [c0|];
    cbn [bind] in H; [|discriminate H].
  destruct (set_item (inner_component_weights stats) k
              (fadd c0 curr_logprob)) as [cw|];
    cbn [bind] in H; [|discriminate H].
  destruct (index (inner_start stats) k) as [start_k|];
    cbn [bind] in H; [|discriminate H].
  destruct (index posteriors 0) as [p0|]; cbn [bind] in H;
    [|discriminate H].
  destruct (iadd start_k p0) as [start_k'|]; cbn [bind] in H;
    [|discriminate H].
  destruct (set_item (inner_start stats) k start_k') as [start|];
    cbn [bind] in H; [|discriminate H].
  destruct (index_last fwdlattice) as [fwd_last|]; cbn [bind] in H;
    [|discriminate H].
  destruct (get_hmms m) as [hs|]; cbn [bind] in H; [|discriminate H].
  destruct (index hs k) as [hmm|]; cbn [bind] in H; [|discriminate H].
  match type of H with
  | bind ?c _ = _ => destruct c as [lneta|]
  end; cbn [bind] in H; [|discriminate H].
  destruct (index (inner_trans stats) k) as [trans_k|] eqn:Htk;
    cbn [bind] in H; [|discriminate H].
  match type of H with
  | bind (iadd2 trans_k ?inc) _ = _ =>
      set (increment := inc) in *;
      destruct (iadd2 trans_k increment) as [trans_k'|] eqn:Hadd
  end; cbn [bind] in H; [|discriminate H].
  destruct (set_item (inner_trans stats) k trans_k') as [trans|] eqn:Hset;
    cbn [bind] in H; [|discriminate H].
  injection H as <-. cbn [inner_trans].
  apply index_Ok_inv in Htk. apply set_item_Ok_inv in Hset.
  destruct Hset as [Hk ->].
  exists trans_k, increment, trans_k'.
  split; [exact Htk|]. split; [apply clamped_increments|].
  split; [exact Hadd|].
  split; [apply nth_error_set_same; exact Hk|].
  intros j Hj. apply nth_error_set_other; assumption.
Qed.

End Mixture.

(** * Examples on concrete instances *)

Lemma flog_one : flog (Fin 1) = Fin 0.
Proof.
  unfold flog. rewrite Rltb_true by lra. rewrite ln_1. reflexivity.
Qed.

Lemma flog_zero : flog (Fin 0) = NegInf.
Proof.
  unfold flog. rewrite Rltb_false by lra. rewrite Reqb_true by reflexivity.
  reflexivity.
Qed.



(** C5 (counterexample).  On a two-component model: a vector of length
    one is refused with a [ValueError], not with a [ShapeError]; and the
    vector [[0.5, 0.500001]], whose sum is off [1.0] by more than
    [1e-8], is accepted. *)
Lemma set_component_weights_counterexample :
  (fst (_set_component_weights example_randomize
          example_normalize_in_place (Some [Fin 1]) two_components)
   = Raise (ValueError MsgLength)
   /\ forall msg,
        fst (_set_component_weights example_randomize
               example_normalize_in_place (Some [Fin 1]) two_components)
        <> Raise (ShapeError msg))
  /\ (fsum [Fin 0.5; Fin 0.500001] = Fin (0.5 + (0.500001 + 0))
      /\ (1e-8 < Rabs (0.5 + (0.500001 + 0) - 1))%R
      /\ fst (_set_component_weights example_randomize
                example_normalize_in_place
                (Some [Fin 0.5; Fin 0.500001]) two_components) = Ok tt).
Proof.
  split.
  - rewrite set_component_weights_Some.
    change (length [Fin 1] =? n_components (self two_components))%nat
      with false.
    cbn [negb fst].
    split; [reflexivity | intros msg H; discriminate H].
  - split; [reflexivity|].
    split.
    + rewrite Rabs_right; lra.
    + rewrite set_component_weights_nonzero
        by (apply (@alltrue_nonzero [0.5; 0.500001]%R);
            repeat constructor; lra).
      change (length [Fin 0.5; Fin 0.500001]
              =? n_components (self two_components))%nat with true.
      assert (Hclose : allclose_one (fsum [Fin 0.5; Fin 0.500001]) = true).
      { unfold allclose_one, fsum, fold_right, fadd, zero.
        apply Rleb_true. rewrite tolerance_value.
        rewrite Rabs_right; lra. }
      rewrite Hclose. reflexivity.
Qed.

(** The cases of [set_component_weights_validation] on a two-component
    model. *)
Lemma set_component_weights_validation_witness :
  _set_component_weights example_randomize example_normalize_in_place
    (Some [Fin 1]) two_components
    = (Raise (ValueError MsgLength), two_components)
  /\ _set_component_weights example_randomize example_normalize_in_place
       (Some [Fin 1; Fin 1]) two_components
     = (Raise (ValueError MsgSum), two_components)
  /\ _set_component_weights example_randomize example_normalize_in_place
       (Some [Fin 0.5; Fin 0.5]) two_components
     = (Ok tt,
        mkWorld (with_log_component_weights (self two_components)
                   (vlog [Fin 0.5; Fin 0.5]))
                (np_random two_components)).
Proof.
  assert (H1 : after_zero_test example_normalize_in_place [Fin 1; Fin 1]
               = [Fin 1; Fin 1]).
  { apply (set_component_weights_validation example_randomize
             example_normalize_in_place two_components [Fin 1; Fin 1]).
    apply (@alltrue_nonzero [1; 1]%R). repeat constructor; lra. }
  assert (H2 : after_zero_test example_normalize_in_place
                 [Fin 0.5; Fin 0.5]
               = [Fin 0.5; Fin 0.5]).
  { apply (set_component_weights_validation example_randomize
             example_normalize_in_place two_components [Fin 0.5; Fin 0.5]).
    apply (@alltrue_nonzero [0.5; 0.5]%R). repeat constructor; lra. }
  split; [|split].
  - apply (set_component_weights_validation example_randomize
             example_normalize_in_place two_components [Fin 1]).
    cbn. discriminate.
  - apply (set_component_weights_validation example_randomize
             example_normalize_in_place two_components [Fin 1; Fin 1]).
    + reflexivity.
    + rewrite H1. intros [s [Hs Hle]].
      cbn in Hs. injection Hs as Hs. subst s.
      rewrite Rabs_right in Hle; lra.
  - rewrite <- H2 at 2.
    apply (set_component_weights_validation example_randomize
             example_normalize_in_place two_components [Fin 0.5; Fin 0.5]).
    + reflexivity.
    + rewrite H2. exists (0.5 + (0.5 + 0))%R. split; [reflexivity|].
      replace (0.5 + (0.5 + 0) - 1)%R with 0%R by lra.
      rewrite Rabs_R0. lra.
Defined.


(** [score_samples_log_normalized] on the two-component model. *)
Lemma score_samples_log_normalized_witness :
  well_formed (self two_components) [tt; tt]
  /\ score example_compute_log_likelihood example_do_forward_pass
       (self two_components) example_dataset
     = Ok (map (fun seq =>
                  logsumexp
                    (joint example_compute_log_likelihood
                       example_do_forward_pass [tt; tt]
                       (log_component_weights (self two_components)) seq))
               example_dataset).
Proof.
  assert (Hwf : well_formed (self two_components) [tt; tt]).
  { repeat split. }
  split; [exact Hwf|].
  exact (proj1 (score_samples_log_normalized example_compute_log_likelihood
                  example_do_forward_pass example_dataset Hwf)).
Defined.

(** [predict_first_maximum] on the one-component model. *)
Lemma predict_first_maximum_witness :
  well_formed (self one_component) [tt]
  /\ (0 < n_components (self one_component))%nat
  /\ predict example_compute_log_likelihood example_do_forward_pass
       (self one_component) example_dataset
     = Ok [0%nat; 0%nat]
  /\ score example_compute_log_likelihood example_do_forward_pass
       (self one_component) example_dataset
     = Ok [Fin 0; Fin 0].
Proof.
  assert (Hwf : well_formed (self one_component) [tt]).
  { repeat split. }
  assert (HK : (0 < n_components (self one_component))%nat).
  { simpl. lia. }
  split; [exact Hwf|]. split; [exact HK|].
  destruct (predict_first_maximum example_compute_log_likelihood
              example_do_forward_pass example_dataset Hwf HK)
    as [_ [Hpredict Hscore]].
  split.
  - exact (Hpredict eq_refl).
  - apply (Hscore tt eq_refl).
    unfold _get_component_weights, vexp, fsum. simpl.
    rewrite exp_0. f_equal. lra.
Defined.

(** C6 (the code at the failing input).  Two calls of
    [sample(n_seq=1, n_min=1, n_max=3, random_state=0)] on the same
    one-component model: the length of the sequence is drawn by
    [np.random.randint], from the process-wide generator, so the two
    calls return sequences of different lengths when that generator is
    in a different state, the seed being the same. *)
Theorem sample_reads_process_wide_generator :
  let call (g : Z) :=
    fst (sample example_seeded example_rand example_randint
           example_hmm_sample 1 1%Z 3%Z (RsSeed 0%Z)
           (mkWorld (self one_component) g)) in
  call 0%Z
  = Ok (mkSamples [0%nat] [IntArray [0%Z]] [[0%Z]], RsOwn 2%Z)
  /\ call 1%Z
     = Ok (mkSamples [0%nat] [IntArray [0%Z; 0%Z]] [[0%Z; 0%Z]],
           RsOwn 2%Z)
  /\ call 0%Z <> call 1%Z.
Proof.
  cbv zeta.
  assert (H0 : fst (sample example_seeded example_rand example_randint
                      example_hmm_sample 1 1%Z 3%Z (RsSeed 0%Z)
                      (mkWorld (self one_component) 0%Z))
               = Ok (mkSamples [0%nat] [IntArray [0%Z]] [[0%Z]],
                     RsOwn 2%Z)).
  { unfold sample, sample_loop, bindM, get_self, draw_from, ret, lift,
      np_random_randint, np_random_draw. simpl.
    destruct (Rltb _ _); reflexivity. }
  assert (H1 : fst (sample example_seeded example_rand example_randint
                      example_hmm_sample 1 1%Z 3%Z (RsSeed 0%Z)
                      (mkWorld (self one_component) 1%Z))
               = Ok (mkSamples [0%nat] [IntArray [0%Z; 0%Z]]
                       [[0%Z; 0%Z]], RsOwn 2%Z)).
  { unfold sample, sample_loop, bindM, get_self, draw_from, ret, lift,
      np_random_randint, np_random_draw. simpl.
    destruct (Rltb _ _); reflexivity. }
  split; [exact H0|]. split; [exact H1|].
  rewrite H0, H1. intros H. discriminate H.
Qed.

(** A run of [fit] that converges in iteration [1]: one frozen
    component, one sequence. *)
Lemma frozen_fit :
  fit example_hmm_params example_compute_log_likelihood
    example_do_forward_pass example_do_backward_pass
    example_initialize_sufficient_statistics example_hmm_do_mstep
    example_randomize example_normalize_in_place
    (BaseMixHMM unit example_n_states example_log_transmat
       example_dirichlet example_randomize example_normalize_in_place)
    [IntArray [0%Z]] frozen_component
  = (Ok (Converged 1), frozen_component).
Proof.
  unfold fit, bindM, get_self, frozen_component.
  cbn -[logsumexp fadd fltb fabs fsub em_loop].
  cbn [em_loop]; unfold bindM, get_self, lift.
  cbn -[logsumexp fadd fltb fabs fsub em_loop].
  rewrite logsumexp_single.
  cbn [fadd zero fsub fneg fabs fltb].
  rewrite Rltb_true.
  - reflexivity.
  - replace (0 + 0 + - (0 + 0))%R with 0%R by lra.
    rewrite Rabs_R0. lra.
Qed.

(** [fit_converged_returns_last_mstep] on that run. *)
Lemma fit_converged_returns_last_mstep_witness :
  fit example_hmm_params example_compute_log_likelihood
    example_do_forward_pass example_do_backward_pass
    example_initialize_sufficient_statistics example_hmm_do_mstep
    example_randomize example_normalize_in_place
    (BaseMixHMM unit example_n_states example_log_transmat
       example_dirichlet example_randomize example_normalize_in_place)
    [IntArray [0%Z]] frozen_component
  = (Ok (Converged 1), frozen_component)
  /\ (0 < 1)%nat
  /\ exists w0 w1 stats1 lp1,
       Base_init example_dirichlet example_randomize
         example_normalize_in_place [IntArray [0%Z]]
         (init_params (self frozen_component)) frozen_component
       = (Ok tt, w0)
       /\ (1 < n_iter (self w0))%nat
       /\ em_rounds example_hmm_params example_compute_log_likelihood
            example_do_forward_pass example_do_backward_pass
            example_initialize_sufficient_statistics example_hmm_do_mstep
            example_randomize example_normalize_in_place
            (BaseMixHMM unit example_n_states example_log_transmat
               example_dirichlet example_randomize example_normalize_in_place)
            [IntArray [0%Z]] (1 - 1) w0
          = (Ok tt, w1)
       /\ expectation example_compute_log_likelihood
            example_do_forward_pass example_do_backward_pass
            example_initialize_sufficient_statistics
            (BaseMixHMM unit example_n_states example_log_transmat
               example_dirichlet example_randomize example_normalize_in_place)
            (self w1) [IntArray [0%Z]]
          = Ok (stats1, lp1)
       /\ _do_mstep example_hmm_params example_hmm_do_mstep
            example_randomize
            example_normalize_in_place stats1 (params (self w1)) w1
          = (Ok tt, frozen_component)
       /\ exists stats lp,
            expectation example_compute_log_likelihood
              example_do_forward_pass example_do_backward_pass
              example_initialize_sufficient_statistics
              (BaseMixHMM unit example_n_states example_log_transmat
                 example_dirichlet example_randomize example_normalize_in_place)
              (self frozen_component) [IntArray [0%Z]]
            = Ok (stats, lp).
Proof.
  split; [exact frozen_fit|].
  exact (fit_converged_returns_last_mstep example_hmm_params
           example_compute_log_likelihood example_do_forward_pass
           example_do_backward_pass example_initialize_sufficient_statistics
           example_hmm_do_mstep example_randomize example_normalize_in_place
           (BaseMixHMM unit example_n_states example_log_transmat
              example_dirichlet example_randomize example_normalize_in_place)
           [IntArray [0%Z]] frozen_component frozen_fit).
Defined.

(** [length_one_sequence_inner_statistics] on the one-component model,
    for a sequence of one observation. *)
Lemma length_one_sequence_inner_statistics_witness :
  is_fin (logsumexp [fadd (Fin 0) (Fin 0)]) = true
  /\ exists stats',
       Base_accumulate_inner_sufficient_statistics example_log_transmat
         (self one_component) example_inner_stats (IntArray [0%Z])
         [[Fin 0]] (posteriors_of [[fadd (Fin 0) (Fin 0)]])
         [[Fin 0]] [[Fin 0]] "h" 0 (Fin 0)
       = Ok stats'
       /\ inner_trans stats' = inner_trans example_inner_stats
       /\ nth_error (inner_start stats') 0
          = Some (map2 fadd [Fin 0]
                    (posteriors_row [fadd (Fin 0) (Fin 0)]))
       /\ (forall j, j <> 0%nat ->
                     nth_error (inner_start stats') j
                     = nth_error (inner_start example_inner_stats) j)
       /\ fsum (posteriors_row [fadd (Fin 0) (Fin 0)]) = Fin 1
       /\ posteriors_row [fadd (Fin 0) (Fin 0)]
          <> zeros (length [fadd (Fin 0) (Fin 0)]).
Proof.
  assert (Hfin : is_fin (logsumexp [fadd (Fin 0) (Fin 0)]) = true).
  { rewrite logsumexp_single. reflexivity. }
  split; [exact Hfin|].
  apply (length_one_sequence_inner_statistics example_log_transmat
           (self one_component) example_inner_stats (IntArray [0%Z])
           [[Fin 0]] [[Fin 0]] [[Fin 0]] [fadd (Fin 0) (Fin 0)] "h"
           0 (Fin 0) (c := Fin 0) (start_k := [Fin 0])).
  - reflexivity.
  - reflexivity.
  - reflexivity.
  - reflexivity.
  - reflexivity.
  - exact Hfin.
Defined.



Lemma logsumexp_zero : logsumexp [Fin 0] = Fin 0.
Proof.
  rewrite <- (fadd_zero_l (Fin 0)) at 1. apply logsumexp_single.
Qed.


(** ** Instances of the further properties *)

(** [predict_labels_in_range] on the one-component model. *)
Lemma predict_labels_in_range_witness :
  predict example_compute_log_likelihood example_do_forward_pass
    (self one_component) [IntArray [0%Z]] = Ok [0%nat]
  /\ length [0%nat] = length [IntArray [0%Z]]
  /\ Forall (fun c => (c < n_components (self one_component))%nat) [0%nat].
Proof.
  assert (H : predict example_compute_log_likelihood
                example_do_forward_pass (self one_component)
                [IntArray [0%Z]] = Ok [0%nat]) by reflexivity.
  split; [exact H|].
  exact (predict_labels_in_range example_compute_log_likelihood
           example_do_forward_pass (self one_component) [IntArray [0%Z]] H).
Defined.

(** [scoring_without_component_hmms] on a two-component model that was
    never fitted. *)
Lemma scoring_without_component_hmms_witness :
  let m : MixHMM_of unit Z unit := example_mix 2 None [Fin 0; Fin 0] in
  score example_compute_log_likelihood example_do_forward_pass m
    [IntArray [0%Z]] = Raise TypeError
  /\ score_samples example_compute_log_likelihood example_do_forward_pass m
       [IntArray [0%Z]] = Raise TypeError
  /\ predict example_compute_log_likelihood example_do_forward_pass m
       [IntArray [0%Z]] = Raise TypeError
  /\ predict_proba example_compute_log_likelihood example_do_forward_pass m
       [IntArray [0%Z]] = Raise TypeError.
Proof.
  cbv zeta.
  apply (scoring_without_component_hmms example_compute_log_likelihood
           example_do_forward_pass (example_mix 2 None [Fin 0; Fin 0])
           (obs := [IntArray [0%Z]]) (e := TypeError)).
  - cbn. lia.
  - discriminate.
  - left. split; reflexivity.
Defined.

(** [do_mstep_frame] on the two-component model, with nothing to
    estimate. *)
Lemma do_mstep_frame_witness :
  let w' := snd (_do_mstep example_hmm_params example_hmm_do_mstep
                   example_randomize
                   example_normalize_in_place
                   example_stats "" two_components) in
  log_component_weights (self w')
  = log_component_weights (self two_components)
  /\ hmms (self w') = hmms (self two_components).
Proof.
  destruct (do_mstep_frame example_hmm_params example_hmm_do_mstep
              example_randomize
              example_normalize_in_place example_stats "" two_components)
    as [_ [_ [_ [Hlw Hh]]]].
  split; [exact (Hlw eq_refl) | exact (Hh eq_refl)].
Defined.

(** [do_mstep_component_hmms] on two counting HMMs. *)
Lemma do_mstep_component_hmms_witness :
  let w : world_of nat Z unit :=
    mkWorld (mkMixHMM 2 1 (Some [10%nat; 20%nat]) 10 (Fin 1e-2) "h" "h"
               [Fin 0; Fin 0] (Some (PriorArray (ones 2))) RsNone 0 tt)
            0%Z in
  _do_mstep counting_params counting_do_mstep example_randomize
  example_normalize_in_place
    example_hmm_stats "h" w
  = (Ok tt,
     mkWorld (mkMixHMM 2 1 (Some [12%nat; 22%nat]) 10 (Fin 1e-2) "h" "h"
                [Fin 0; Fin 0] (Some (PriorArray (ones 2))) RsNone 0 tt)
             0%Z)
  /\ hmms (self (snd (_do_mstep counting_params counting_do_mstep
                        example_randomize
                        example_normalize_in_place example_hmm_stats "h" w)))
     = Some (map2 (fun hmm st =>
                     counting_do_mstep hmm st (counting_params hmm))
                  [10%nat; 20%nat] (stats_hmm_stats example_hmm_stats)).
Proof.
  intros w. split; [reflexivity|].
  assert (Hlen : (length [10%nat; 20%nat]
                  <= length (stats_hmm_stats example_hmm_stats))%nat).
  { cbn. lia. }
  exact (proj1 (do_mstep_component_hmms counting_params counting_do_mstep
                  example_randomize
                  example_normalize_in_place example_hmm_stats "h" w
                  (hs := [10%nat; 20%nat]) eq_refl eq_refl Hlen) eq_refl).
Defined.

(** [fit_exhausted_runs_n_iter_rounds] on a model with [n_iter = 0]. *)
Lemma fit_exhausted_runs_n_iter_rounds_witness :
  fit example_hmm_params example_compute_log_likelihood
    example_do_forward_pass example_do_backward_pass
    example_initialize_sufficient_statistics example_hmm_do_mstep
    example_randomize example_normalize_in_place
    (BaseMixHMM unit example_n_states example_log_transmat
       example_dirichlet example_randomize example_normalize_in_place)
    [IntArray [0%Z]] no_iterations
  = (Ok MaxIterReached, no_iterations)
  /\ exists w0,
       Base_init example_dirichlet example_randomize
         example_normalize_in_place [IntArray [0%Z]]
         (init_params (self no_iterations)) no_iterations = (Ok tt, w0)
       /\ em_rounds example_hmm_params example_compute_log_likelihood
            example_do_forward_pass example_do_backward_pass
            example_initialize_sufficient_statistics example_hmm_do_mstep
            example_randomize example_normalize_in_place
            (BaseMixHMM unit example_n_states example_log_transmat
               example_dirichlet example_randomize example_normalize_in_place)
            [IntArray [0%Z]] (n_iter (self w0)) w0
          = (Ok tt, no_iterations).
Proof.
  destruct (fit_exhausted_runs_n_iter_rounds example_hmm_params
              example_compute_log_likelihood example_do_forward_pass
              example_do_backward_pass
              example_initialize_sufficient_statistics
              example_hmm_do_mstep example_randomize example_normalize_in_place
              (BaseMixHMM unit example_n_states example_log_transmat
                 example_dirichlet example_randomize example_normalize_in_place)
              [IntArray [0%Z]] no_iterations) as [Hrounds Hzero].
  pose proof (Hzero no_iterations eq_refl eq_refl) as Hfit.
  split; [exact Hfit | exact (Hrounds no_iterations Hfit)].
Defined.

(** [expectation_logprob_is_total_score] on the one-component model and
    two sequences. *)
Lemma expectation_logprob_is_total_score_witness :
  well_formed (self one_component) [tt]
  /\ exists stats lp,
       expectation example_compute_log_likelihood example_do_forward_pass
         example_do_backward_pass example_initialize_sufficient_statistics
         (BaseMixHMM unit example_n_states example_log_transmat
            example_dirichlet example_randomize example_normalize_in_place)
         (self one_component) [IntArray [0%Z]; IntArray [1%Z]]
       = Ok (stats, lp)
       /\ exists scores,
            score example_compute_log_likelihood example_do_forward_pass
              (self one_component) [IntArray [0%Z]; IntArray [1%Z]]
            = Ok scores
            /\ lp = fold_left fadd scores zero.
Proof.
  assert (Hwf : well_formed (self one_component) [tt]) by (repeat split).
  split; [exact Hwf|].
  assert (Hrun : exists r,
             expectation example_compute_log_likelihood
               example_do_forward_pass example_do_backward_pass
               example_initialize_sufficient_statistics
               (BaseMixHMM unit example_n_states example_log_transmat
                  example_dirichlet example_randomize
                  example_normalize_in_place)
               (self one_component) [IntArray [0%Z]; IntArray [1%Z]]
             = Ok r).
  { unfold expectation.
    cbn -[logsumexp log_normalize fadd fsub fmul fexp].
    eexists. reflexivity. }
  destruct Hrun as [[stats lp] Hrun].
  exists stats, lp. split; [exact Hrun|].
  exact (expectation_logprob_is_total_score
           example_compute_log_likelihood example_do_forward_pass
           example_do_backward_pass
           example_initialize_sufficient_statistics
           (BaseMixHMM unit example_n_states example_log_transmat
              example_dirichlet example_randomize example_normalize_in_place)
           [IntArray [0%Z]; IntArray [1%Z]] Hwf Hrun).
Defined.

(** [input_checks_nest] on a dataset all three checks accept. *)
Lemma input_checks_nest_witness :
  _check_input_symbols example_dataset = Ok (true, example_dataset)
  /\ Poisson_check_input_symbols example_dataset = Ok true
  /\ Exponential_check_input_symbols example_dataset = Ok true.
Proof.
  assert (H : _check_input_symbols example_dataset
              = Ok (true, example_dataset)) by reflexivity.
  destruct (input_checks_nest example_dataset) as [H1 H2].
  split; [exact H|].
  split; [exact (H1 _ H) | exact (H2 (H1 _ H))].
Defined.


(** [exponential_check_accepts] on a dataset of an integer and a float
    array. *)
Lemma exponential_check_accepts_witness :
  [IntArray [0%Z]; FloatArray [Fin 0.5; NaN]] <> []
  /\ exists b,
       Exponential_check_input_symbols
         [IntArray [0%Z]; FloatArray [Fin 0.5; NaN]] = Ok b
       /\ (b = true
           <-> length (all_values
                         [IntArray [0%Z]; FloatArray [Fin 0.5; NaN]])
               <> 1%nat
               /\ Forall (fun x => fltb x zero = false)
                         (all_values
                            [IntArray [0%Z]; FloatArray [Fin 0.5; NaN]])).
Proof.
  assert (Hne : [IntArray [0%Z]; FloatArray [Fin 0.5; NaN]] <> [])
    by discriminate.
  split; [exact Hne|].
  exact (exponential_check_accepts Hne).
Defined.

(** [multinomial_fit_runs_on_checked_dataset] on the single sequence
    [[1, 0]], which is trained on as [[0, 1]]. *)
Lemma multinomial_fit_runs_on_checked_dataset_witness :
  as_checked [IntArray [1%Z; 0%Z]] = [IntArray [0%Z; 1%Z]]
  /\ Multinomial_fit example_n_states example_n_symbols example_hmm_params
       example_log_transmat example_compute_log_likelihood
       example_do_forward_pass example_do_backward_pass
       example_initialize_sufficient_statistics example_hmm_do_mstep
       example_MultinomialHMM example_seeded example_dirichlet
       example_randomize
       example_normalize_in_place example_hmm_init [IntArray [1%Z; 0%Z]]
       one_component
     = fit example_hmm_params example_compute_log_likelihood
         example_do_forward_pass example_do_backward_pass
         example_initialize_sufficient_statistics example_hmm_do_mstep
         example_randomize example_normalize_in_place
         (MultinomialMixHMM example_n_states example_n_symbols
            example_log_transmat example_MultinomialHMM example_seeded
            example_dirichlet example_randomize
            example_normalize_in_place example_hmm_init)
         (as_checked [IntArray [1%Z; 0%Z]]) one_component.
Proof.
  split; [reflexivity|].
  apply multinomial_fit_runs_on_checked_dataset.
  - discriminate.
  - exists [1%Z; 0%Z]. split; [reflexivity|]. split.
    + repeat constructor; lia.
    + intros x y z Hx Hz Hy. cbn [In] in *.
      assert (Hy' : (y = 0 \/ y = 1)%Z) by lia.
      destruct Hy' as [-> | ->]; [right; left | left]; reflexivity.
  - intros [x Hx]. discriminate Hx.
Defined.


(** [sample_needs_a_length_range] with [n_min = n_max]. *)
Lemma sample_needs_a_length_range_witness :
  fst (sample example_seeded example_rand example_randint
         example_hmm_sample 1 3%Z 3%Z RsNone one_component)
  = Raise (ValueError MsgNumpy).
Proof.
  apply sample_needs_a_length_range; lia.
Defined.

(** [fit_with_nothing_to_estimate] on the frozen component. *)
Lemma fit_with_nothing_to_estimate_witness :
  let cls := BaseMixHMM unit example_n_states example_log_transmat
               example_dirichlet example_randomize example_normalize_in_place in
  let w' :=
    snd (fit example_hmm_params example_compute_log_likelihood
           example_do_forward_pass example_do_backward_pass
           example_initialize_sufficient_statistics example_hmm_do_mstep
           example_randomize
           example_normalize_in_place cls example_dataset frozen_component) in
  log_component_weights (self w')
  = log_component_weights (self frozen_component)
  /\ hmms (self w') = hmms (self frozen_component)
  /\ np_random w' = np_random frozen_component.
Proof.
  intros cls.
  exact (fit_with_nothing_to_estimate example_hmm_params
           example_compute_log_likelihood example_do_forward_pass
           example_do_backward_pass example_initialize_sufficient_statistics
           example_hmm_do_mstep example_randomize
           example_normalize_in_place cls example_dataset
           frozen_component (w0 := frozen_component)
           eq_refl eq_refl eq_refl).
Defined.

(** [multinomial_init_component_hmms] on a model without HMMs. *)
Lemma multinomial_init_component_hmms_witness :
  let r := Multinomial_init example_MultinomialHMM example_seeded
             example_dirichlet example_randomize
             example_normalize_in_place example_hmm_init
             example_dataset "h" without_hmms in
  fst r = Ok tt
  /\ (exists hs',
         hmms (self (snd r)) = Some hs'
         /\ length hs' = n_components (self without_hmms))
  /\ random_state (self (snd r)) = RsOwn 7%Z.
Proof.
  intros r.
  destruct (multinomial_init_component_hmms example_MultinomialHMM
              example_seeded example_dirichlet example_randomize
              example_normalize_in_place
              example_hmm_init example_dataset "h" without_hmms)
    as [_ [Hnew [_ [Hrs Hok]]]].
  fold r in Hnew, Hrs, Hok.
  pose proof (Hok eq_refl) as Hr.
  split; [exact Hr|]. split.
  - exact (Hnew eq_refl eq_refl Hr).
  - exact (Hrs Hr).
Defined.

(** [constructor_establishes_the_weights] on two given weights. *)
Lemma constructor_establishes_the_weights_witness :
  exists m : MixHMM_of unit Z unit,
    Base___init__ example_randomize example_normalize_in_place 2 1 None
      (Some (map Fin [0.25; 0.75]%R)) None RsNone 10 (Fin 1e-2)
      ascii_letters ascii_letters 0 tt 0%Z
    = (Ok m, 0%Z)
    /\ _get_component_weights m = map Fin [0.25; 0.75]%R
    /\ length (log_component_weights m) = n_components m
    /\ component_weights_prior m = Some (PriorArray (ones 2)).
Proof.
  destruct (constructor_establishes_the_weights example_randomize
  example_normalize_in_place 2 1
              (@None (list unit)) (Some (map Fin [0.25; 0.75]%R)) None
              RsNone 10 (Fin 1e-2) ascii_letters ascii_letters 0 tt 0%Z)
    as [Hfields [Hgiven _]].
  destruct (Hgiven [0.25; 0.75]%R eq_refl eq_refl) as [m [Hr Hget]].
  - cbn [fold_right].
    replace (0.25 + (0.75 + 0) - 1)%R with 0%R by lra.
    rewrite Rabs_R0. lra.
  - repeat constructor; lra.
  - exists m. split; [exact Hr|]. split; [exact Hget|].
    assert (Hfst : fst (Base___init__ example_randomize
    example_normalize_in_place 2 1
                          (@None (list unit))
                          (Some (map Fin [0.25; 0.75]%R)) None RsNone 10
                          (Fin 1e-2) ascii_letters ascii_letters 0 tt 0%Z)
                   = Ok m) by (rewrite Hr; reflexivity).
    destruct (Hfields m Hfst) as [Hlen [_ [_ [_ [_ [_ [_ [_ [_ [_ Hp]]]]]]]]]].
    split; [exact Hlen | exact Hp].
Defined.

(** [multinomial_constructor_prior] on two given weights. *)
Lemma multinomial_constructor_prior_witness :
  exists m : MixHMM_of unit Z unit,
    fst (Multinomial___init__ example_randomize example_normalize_in_place
           2 1 None (Some [Fin 0.25; Fin 0.75]) RsNone 10 (Fin 1e-2)
           ascii_letters ascii_letters 0 tt 0%Z)
    = Ok m
    /\ component_weights_prior m = Some (PriorArray (ones 2))
    /\ length (log_component_weights m) = 2%nat
    /\ n_components m = 2%nat
    /\ emissionprob_prior m = tt.
Proof.
  destruct (multinomial_constructor_prior example_randomize
              example_normalize_in_place 2 1
              (@None (list unit)) (Some [Fin 0.25; Fin 0.75]) RsNone 10
              (Fin 1e-2) ascii_letters ascii_letters 0 tt 0%Z)
    as [Hfields _].
  assert (Hrun : exists m,
             fst (Multinomial___init__ example_randomize
                    example_normalize_in_place 2 1
                    (@None (list unit)) (Some [Fin 0.25; Fin 0.75]) RsNone
                    10 (Fin 1e-2) ascii_letters ascii_letters 0 tt 0%Z)
             = Ok m).
  { unfold Multinomial___init__, Base___init__.
    rewrite set_component_weights_nonzero
      by (apply (@alltrue_nonzero [0.25; 0.75]%R);
          repeat constructor; lra).
    cbn [self n_components length Nat.eqb negb].
    assert (Hclose : allclose_one (fsum [Fin 0.25; Fin 0.75]) = true).
    { unfold allclose_one, fsum, fold_right, fadd, zero.
      apply Rleb_true. rewrite tolerance_value.
      replace (0.25 + (0.75 + 0) - 1)%R with 0%R by lra.
      rewrite Rabs_R0. lra. }
    rewrite Hclose. cbn [negb]. eexists. reflexivity. }
  destruct Hrun as [m Hm].
  exists m. split; [exact Hm | exact (Hfields m Hm)].
Defined.

(** [accumulate_symbols_counts] on a table of one state and two symbols
    and the sequence [[0, 1, 0]]. *)
Lemma accumulate_symbols_counts_witness :
  exists obs_k',
    accumulate_symbols [[Fin 0; Fin 0]] [[Fin 1]; [Fin 1]; [Fin 1]] 0
      [0%Z; 1%Z; 0%Z] = Ok obs_k'
    /\ entry obs_k' 0 0 = fadd (fadd (Fin 0) (Fin 1)) (Fin 1)
    /\ entry obs_k' 0 1 = fadd (Fin 0) (Fin 1).
Proof.
  destruct (@accumulate_symbols_counts [[Fin 1]; [Fin 1]; [Fin 1]] 2
              [0%Z; 1%Z; 0%Z] [[Fin 0; Fin 0]] 0)
    as [obs_k' [Hrun [_ [_ Hentry]]]].
  - cbn. lia.
  - repeat constructor.
  - repeat constructor; lia.
  - cbn. lia.
  - repeat constructor.
  - exists obs_k'. split; [exact Hrun|]. split.
    + exact (Hentry 0%nat 0%nat ltac:(cbn; lia) ltac:(lia)).
    + exact (Hentry 0%nat 1%nat ltac:(cbn; lia) ltac:(lia)).
Defined.

(** [accumulate_symbols_unknown_symbol] on the symbol [2] and a table of
    two symbols. *)
Lemma accumulate_symbols_unknown_symbol_witness :
  exists e,
    accumulate_symbols [[Fin 0; Fin 0]] [[Fin 1]; [Fin 1]] 0 [0%Z; 2%Z]
    = Raise e.
Proof.
  apply (@accumulate_symbols_unknown_symbol [[Fin 1]; [Fin 1]]
           [0%Z; 2%Z] 2%Z [[Fin 0; Fin 0]] 0).
  - cbn. lia.
  - right. left. reflexivity.
  - left. cbn. lia.
Defined.

(** [fit_without_threshold_runs_every_iteration] with [thresh = 0]. *)
Lemma fit_without_threshold_runs_every_iteration_witness :
  fit example_hmm_params example_compute_log_likelihood
    example_do_forward_pass example_do_backward_pass
    example_initialize_sufficient_statistics example_hmm_do_mstep
    example_randomize example_normalize_in_place
    (BaseMixHMM unit example_n_states example_log_transmat
       example_dirichlet example_randomize example_normalize_in_place)
    example_dataset no_threshold
  <> (Ok (Converged 1), no_threshold).
Proof.
  apply (fit_without_threshold_runs_every_iteration example_hmm_params
           example_compute_log_likelihood example_do_forward_pass
           example_do_backward_pass example_initialize_sufficient_statistics
           example_hmm_do_mstep example_randomize example_normalize_in_place
           (BaseMixHMM unit example_n_states example_log_transmat
              example_dirichlet example_randomize example_normalize_in_place)
           example_dataset no_threshold (w0 := no_threshold) (t := 0%R)).
  - reflexivity.
  - reflexivity.
  - lra.
Defined.

(** [inner_transition_counts_are_clamped] on a sequence of two
    observations. *)
Lemma inner_transition_counts_are_clamped_witness :
  exists stats' trans_k increment trans_k',
    Base_accumulate_inner_sufficient_statistics example_log_transmat
      (self one_component) example_inner_stats (IntArray [0%Z; 0%Z])
      [[Fin 0]; [Fin 0]] [[Fin 1]; [Fin 1]] [[Fin 0]; [Fin 0]]
      [[Fin 0]; [Fin 0]] "h" 0 (Fin 0)
    = Ok stats'
    /\ nth_error (inner_trans example_inner_stats) 0 = Some trans_k
    /\ Forall (Forall clamped_count) increment
    /\ iadd2 trans_k increment = Ok trans_k'
    /\ nth_error (inner_trans stats') 0 = Some trans_k'.
Proof.
  assert (Hrun : exists stats',
             Base_accumulate_inner_sufficient_statistics
               example_log_transmat (self one_component)
               example_inner_stats (IntArray [0%Z; 0%Z])
               [[Fin 0]; [Fin 0]] [[Fin 1]; [Fin 1]] [[Fin 0]; [Fin 0]]
               [[Fin 0]; [Fin 0]] "h" 0 (Fin 0)
             = Ok stats').
  { unfold Base_accumulate_inner_sufficient_statistics.
    cbn -[logsumexp logsumexp_axis0 fadd fsub fmul fexp fminimum].
    eexists. reflexivity. }
  destruct Hrun as [stats' Hrun].
  assert (HT : (1 < length [[Fin 0]; [Fin 0]])%nat) by (cbn; lia).
  destruct (inner_transition_counts_are_clamped example_log_transmat
              (self one_component) example_inner_stats (IntArray [0%Z; 0%Z])
              [[Fin 0]; [Fin 0]] [[Fin 1]; [Fin 1]] [[Fin 0]; [Fin 0]]
              [[Fin 0]; [Fin 0]] "h" 0 (Fin 0) eq_refl HT Hrun)
    as [trans_k [increment [trans_k' [H1 [H2 [H3 [H4 _]]]]]]].
  exists stats', trans_k, increment, trans_k'.
  repeat split; assumption.
Defined.
